(** * Academic-Nexus: the exam portal's client-side utilities

    A shallow embedding of the portal's filter engine, search engine,
    download manager, storage wrapper and analytics tracker
    (src/utils/analytics.js, src/utils/download.js, src/utils/storage.js and
    the search and controller scripts), followed by the properties the
    specification states about them and by further properties of the
    same code.

    Conventions of the embedding:
    - a JavaScript string is a [string] holding its UTF-8 bytes;
    - a JavaScript Number is an IEEE-754 binary64 value ([spec_float] with
      [prec = 53], [emax = 1024]);
    - [localStorage] is a finite map from keys to stored texts;
    - a synchronous call reads the clock once: every [Date.now()] inside
      it is the [now] the call is given;
    - platform functions whose result the scripts cannot fix (collation,
      date parsing, lower-casing, storage quota, key enumeration) are
      parameters of the sections that use them. *)

From Stdlib Require Import ZArith List Bool Lia Permutation Sorted.
From Stdlib Require Import Strings.String Strings.Ascii.
From Stdlib Require Import Floats.SpecFloat.
From stdpp Require Import gmap strings.
From Equations Require Import Equations.
Import ListNotations.

Local Open Scope string_scope.
Local Open Scope list_scope.
Local Open Scope Z_scope.

(** ** JavaScript strings *)

Module JsString.

Definition is_digit (c : ascii) : bool :=
  let n := nat_of_ascii c in (48 <=? n)%nat && (n <=? 57)%nat.

Definition digit_value (c : ascii) : Z := Z.of_nat (nat_of_ascii c) - 48.

(** [span p s]: the longest prefix of [s] whose characters satisfy [p],
    and the rest (a greedy character-class repetition). *)
Fixpoint span (p : ascii -> bool) (s : string) : string * string :=
  match s with
  | EmptyString => (EmptyString, EmptyString)
  | String c r =>
      if p c then let '(a, b) := span p r in (String c a, b)
      else (EmptyString, s)
  end.

(** Value of a string of decimal digits, most significant first. *)
Fixpoint digits_value_from (acc : Z) (s : string) : Z :=
  match s with
  | EmptyString => acc
  | String c r => digits_value_from (10 * acc + digit_value c) r
  end.

Definition digits_value (s : string) : Z := digits_value_from 0 s.

(** The characters of the regular-expression class [\s] (WhiteSpace and
    LineTerminator of ECMAScript), as UTF-8 byte sequences. *)
Definition white_space : list string :=
  [ String (ascii_of_nat 9) "";  String (ascii_of_nat 10) "";
    String (ascii_of_nat 11) ""; String (ascii_of_nat 12) "";
    String (ascii_of_nat 13) ""; String (ascii_of_nat 32) "";
    (* U+00A0 *)
    String (ascii_of_nat 194) (String (ascii_of_nat 160) "");
    (* U+1680 *)
    String (ascii_of_nat 225) (String (ascii_of_nat 154) (String (ascii_of_nat 128) ""));
    (* U+2000 .. U+200A *)
    String (ascii_of_nat 226) (String (ascii_of_nat 128) (String (ascii_of_nat 128) ""));
    String (ascii_of_nat 226) (String (ascii_of_nat 128) (String (ascii_of_nat 129) ""));
    String (ascii_of_nat 226) (String (ascii_of_nat 128) (String (ascii_of_nat 130) ""));
    String (ascii_of_nat 226) (String (ascii_of_nat 128) (String (ascii_of_nat 131) ""));
    String (ascii_of_nat 226) (String (ascii_of_nat 128) (String (ascii_of_nat 132) ""));
    String (ascii_of_nat 226) (String (ascii_of_nat 128) (String (ascii_of_nat 133) ""));
    String (ascii_of_nat 226) (String (ascii_of_nat 128) (String (ascii_of_nat 134) ""));
    String (ascii_of_nat 226) (String (ascii_of_nat 128) (String (ascii_of_nat 135) ""));
    String (ascii_of_nat 226) (String (ascii_of_nat 128) (String (ascii_of_nat 136) ""));
    String (ascii_of_nat 226) (String (ascii_of_nat 128) (String (ascii_of_nat 137) ""));
    String (ascii_of_nat 226) (String (ascii_of_nat 128) (String (ascii_of_nat 138) ""));
    (* U+2028, U+2029, U+202F *)
    String (ascii_of_nat 226) (String (ascii_of_nat 128) (String (ascii_of_nat 168) ""));
    String (ascii_of_nat 226) (String (ascii_of_nat 128) (String (ascii_of_nat 169) ""));
    String (ascii_of_nat 226) (String (ascii_of_nat 128) (String (ascii_of_nat 175) ""));
    (* U+205F *)
    String (ascii_of_nat 226) (String (ascii_of_nat 129) (String (ascii_of_nat 159) ""));
    (* U+3000 *)
    String (ascii_of_nat 227) (String (ascii_of_nat 128) (String (ascii_of_nat 128) ""));
    (* U+FEFF *)
    String (ascii_of_nat 239) (String (ascii_of_nat 187) (String (ascii_of_nat 191) "")) ].

(** [strip_prefix p s] is the rest of [s] after the prefix [p]. *)
Fixpoint strip_prefix (p s : string) : option string :=
  match p, s with
  | EmptyString, _ => Some s
  | String a p', String b s' =>
      if Ascii.eqb a b then strip_prefix p' s' else None
  | String _ _, EmptyString => None
  end.

(** Drop one leading white-space character, if there is one. *)
Fixpoint drop_one_of (ws : list string) (s : string) : option string :=
  match ws with
  | [] => None
  | w :: ws' =>
      match strip_prefix w s with
      | Some r => Some r
      | None => drop_one_of ws' s
      end
  end.

(** Greedy [\s*]: every white-space character is at most three bytes, so
    the length of the string bounds the number of rounds. *)
Fixpoint skip_space_fuel (fuel : nat) (s : string) : string :=
  match fuel with
  | O => s
  | S fuel' =>
      match drop_one_of white_space s with
      | Some r => skip_space_fuel fuel' r
      | None => s
      end
  end.

Definition skip_space (s : string) : string :=
  skip_space_fuel (String.length s) s.

(** ASCII upper-casing, which is what [toUpperCase] does on the letters a
    size unit can consist of. *)
Definition upper_ascii (c : ascii) : ascii :=
  let n := nat_of_ascii c in
  if (97 <=? n)%nat && (n <=? 122)%nat then ascii_of_nat (n - 32) else c.

Fixpoint toUpperCase_ascii (s : string) : string :=
  match s with
  | EmptyString => EmptyString
  | String c r => String (upper_ascii c) (toUpperCase_ascii r)
  end.

(** Decimal digits of a natural number, as [Number.prototype.toString]
    prints an integer. *)
Fixpoint decimal_fuel (fuel : nat) (n : Z) (acc : string) : string :=
  match fuel with
  | O => acc
  | S fuel' =>
      let acc' := String (ascii_of_nat (48 + Z.to_nat (n mod 10))) acc in
      if n / 10 =? 0 then acc' else decimal_fuel fuel' (n / 10) acc'
  end.

Definition decimal (n : Z) : string :=
  decimal_fuel (S (Z.to_nat (Z.log2 n))) n "".

(** An integer as [String(n)] prints it. *)
Definition integer (n : Z) : string :=
  if n <? 0 then String "-" (decimal (- n)) else decimal n.

(** [Array.prototype.join]. *)
Fixpoint join (sep : string) (l : list string) : string :=
  match l with
  | [] => ""
  | [x] => x
  | x :: r => x +:+ sep +:+ join sep r
  end.

(** [String.prototype.includes]: [sub] occurs in [s]. *)
Fixpoint includes (s sub : string) : bool :=
  match strip_prefix sub s with
  | Some _ => true
  | None =>
      match s with
      | EmptyString => false
      | String _ r => includes r sub
      end
  end.

(** Cut [s] at the first occurrence of the character [c]. *)
Fixpoint cut_at (c : ascii) (s : string) : string * option string :=
  match s with
  | EmptyString => (EmptyString, None)
  | String a r =>
      if Ascii.eqb a c then (EmptyString, Some r)
      else let '(h, t) := cut_at c r in (String a h, t)
  end.

(** [length]: the number of UTF-16 code units of the text. A byte that
    starts a character of up to three bytes stands for one code unit, one
    that starts a four-byte character for a surrogate pair, and a
    continuation byte for none. *)
Fixpoint utf16_length (s : string) : nat :=
  match s with
  | EmptyString => O
  | String c r =>
      let n := nat_of_ascii c in
      ((if (128 <=? n) && (n <? 192) then 0
        else if 240 <=? n then 2 else 1) + utf16_length r)%nat
  end.

(** [String.prototype.split] with a one-character separator. *)
Fixpoint split_on (c : ascii) (s : string) : list string :=
  match s with
  | EmptyString => [""]
  | String a r =>
      if Ascii.eqb a c then "" :: split_on c r
      else match split_on c r with
           | [] => [String a ""]
           | h :: t => String a h :: t
           end
  end.

End JsString.

(** ** JavaScript numbers *)

Module Number.

Definition prec : Z := 53.
Definition emax : Z := 1024.

(** A Number is a binary64 value. *)
Definition t : Type := spec_float.

Definition zero : t := S754_zero false.
Definition NaN : t := S754_nan.

Definition of_Z (z : Z) : t := binary_normalize prec emax z 0 false.

Definition mul (x y : t) : t := SFmul prec emax x y.
Definition sub (x y : t) : t := SFsub prec emax x y.

(** [x > 0]. *)
Definition is_positive (x : t) : bool :=
  match x with
  | S754_finite false _ _ | S754_infinity false => true
  | _ => false
  end.

(** [x < 0]. *)
Definition is_negative (x : t) : bool :=
  match x with
  | S754_finite true _ _ | S754_infinity true => true
  | _ => false
  end.

(** [x] is [+0] or [-0]. *)
Definition is_zero (x : t) : bool :=
  match x with
  | S754_zero _ => true
  | _ => false
  end.

Definition is_nan (x : t) : bool :=
  match x with
  | S754_nan => true
  | _ => false
  end.

(** ToBoolean: [0], [-0] and [NaN] are falsy. *)
Definition truthy (x : t) : bool :=
  match x with
  | S754_zero _ | S754_nan => false
  | _ => true
  end.

(** The Number nearest to the decimal [n / 10^k] (round to nearest, ties to
    even): the division is rounded once, on the exact operands. *)
Definition of_decimal (n : Z) (k : nat) : t :=
  match n with
  | Zpos p => SFdiv prec emax (S754_finite false p 0)
                (S754_finite false (Z.to_pos (10 ^ Z.of_nat k)) 0)
  | _ => zero
  end.

End Number.


(** ** Objects *)

Module JsObject.

(** An object is the list of its own properties, in insertion order. *)
Section Props.
Context {V : Type}.

Fixpoint get (o : list (string * V)) (key : string) : option V :=
  match o with
  | [] => None
  | (k, v) :: r => if String.eqb k key then Some v else get r key
  end.

(** [o[key] = value]: an existing property keeps its place, a new one
    goes last. This is the order of the names that are not array
    indices; an array index for a name, which JavaScript lists before
    the others, is outside the embedding. *)
Fixpoint assign (o : list (string * V)) (key : string) (value : V)
  : list (string * V) :=
  match o with
  | [] => [(key, value)]
  | (k, v) :: r =>
      if String.eqb k key then (k, value) :: r
      else (k, v) :: assign r key value
  end.
End Props.

End JsObject.

(** ** Arrays *)

Module Array.

Section Sort.
Context {A : Type}.
Variable comparefn : A -> A -> Number.t.

(** [Array.prototype.sort] is stable, and with a comparator that is
    consistent on the elements its result is the one sorted permutation
    that keeps equal elements in their order, whatever the engine. The
    embedding is the stable insertion sort, which gives that result: an
    element moves behind the elements the comparator puts it after
    ([comparefn a b > 0]). With a comparator that is not consistent on
    the elements (a [NaN] result, which counts as [+0], is one case)
    ECMAScript leaves the order to the engine; the embedding then gives
    a permutation, as every engine does, and its order is not one to
    rely on: of such arrays only what holds of every permutation is
    stated. *)
Fixpoint insert (x : A) (l : list A) : list A :=
  match l with
  | [] => [x]
  | y :: r =>
      if Number.is_positive (comparefn x y) then y :: insert x r
      else x :: y :: r
  end.

Fixpoint sort (l : list A) : list A :=
  match l with
  | [] => []
  | x :: r => insert x (sort r)
  end.
End Sort.

(** [includes] on an array of strings. *)
Definition includes (l : list string) (x : string) : bool :=
  existsb (String.eqb x) l.

(** [indexOf] on an array of strings. *)
Fixpoint indexOf (l : list string) (x : string) : option nat :=
  match l with
  | [] => None
  | y :: r => if String.eqb y x then Some O
              else option_map S (indexOf r x)
  end.

(** [splice(index, 1)]. *)
Fixpoint splice1 {A} (l : list A) (index : nat) : list A :=
  match l, index with
  | [], _ => []
  | _ :: r, O => r
  | y :: r, S i => y :: splice1 r i
  end.

End Array.

(** ** Resources (src/data/resources.js) *)

Module Resource.

(** The fields of a resource record the utilities read. [tags],
    [downloads], [uploaded] and [fileSize] may be missing. *)
Record t : Type := mk {
  id : string;
  title : string;
  description : string;
  category : string;
  subject : string;
  grade : string;
  year : string;
  fileSize : option string;
  downloads : option Number.t;
  uploaded : option string;
  tags : option (list string)
}.

End Resource.

(** ** Filter engine (class FilterManager of src/utils/analytics.js) *)

Module Value.

(** What a property of the filter selection can hold. *)
Inductive t : Type :=
| Undefined
| Str (s : string)
| Arr (l : list string).

(** [v === s] for a string [s]. *)
Definition is_string (v : t) (s : string) : bool :=
  match v with
  | Str x => String.eqb x s
  | _ => false
  end.

(** ToString. *)
Definition to_string (v : t) : string :=
  match v with
  | Undefined => "undefined"
  | Str s => s
  | Arr l => JsString.join "," l
  end.

End Value.

Module URLSearchParams.

Definition t : Type := list (string * string).

Definition get (p : t) (name : string) : option string :=
  match List.find (fun kv => String.eqb (fst kv) name) p with
  | Some kv => Some (snd kv)
  | None => None
  end.

(** [set]: the first pair of that name takes the value and the others are
    removed; a new name is appended. *)
Fixpoint set (p : t) (name value : string) : t :=
  match p with
  | [] => [(name, value)]
  | (k, v) :: r =>
      if String.eqb k name
      then (k, value) :: List.filter (fun kv => negb (String.eqb (fst kv) name)) r
      else (k, v) :: set r name value
  end.

Definition hex_digit (n : nat) : ascii :=
  ascii_of_nat (if (n <? 10)%nat then 48 + n else 55 + n).

(** Bytes the application/x-www-form-urlencoded serializer leaves as they
    are: ASCII letters and digits and [*-._]. *)
Definition unreserved (c : ascii) : bool :=
  let n := nat_of_ascii c in
  ((48 <=? n) && (n <=? 57) || (65 <=? n) && (n <=? 90)
   || (97 <=? n) && (n <=? 122)
   || (n =? 42) || (n =? 45) || (n =? 46) || (n =? 95))%nat.

Fixpoint encode (s : string) : string :=
  match s with
  | EmptyString => EmptyString
  | String c r =>
      let n := nat_of_ascii c in
      if (n =? 32)%nat then String "+" (encode r)
      else if unreserved c then String c (encode r)
      else String "%" (String (hex_digit (n / 16))
                         (String (hex_digit (n mod 16)) (encode r)))
  end.

(** [toString]. *)
Definition toString (p : t) : string :=
  JsString.join "&"
    (List.map (fun kv => encode (fst kv) +:+ "=" +:+ encode (snd kv)) p).

Definition hex_value (c : ascii) : option nat :=
  let n := nat_of_ascii c in
  if ((48 <=? n) && (n <=? 57))%nat then Some (n - 48)%nat
  else if ((65 <=? n) && (n <=? 70))%nat then Some (n - 55)%nat
  else if ((97 <=? n) && (n <=? 102))%nat then Some (n - 87)%nat
  else None.

(** Replace [+] by a space and decode the percent escapes. The bytes of
    the escapes are kept as they come, which is what a browser does with
    escapes that make up UTF-8, as all those that [encode] writes do; for
    others a browser puts U+FFFD, and they are outside the embedding. *)
Fixpoint decode (s : string) : string :=
  match s with
  | EmptyString => EmptyString
  | String c r =>
      if Ascii.eqb c "+" then String " " (decode r)
      else if Ascii.eqb c "%" then
        match r with
        | String h (String l r') =>
            match hex_value h, hex_value l with
            | Some a, Some b =>
                String (ascii_of_nat (16 * a + b)) (decode r')
            | _, _ => String c (decode r)
            end
        | _ => String c (decode r)
        end
      else String c (decode r)
  end.

(** [new URLSearchParams(search)]: a leading [?] is dropped, the rest is
    cut at every [&], empty pieces are skipped, and each piece is cut at
    its first [=]. *)
Definition parse (search : string) : t :=
  let body := match search with
              | String "?" r => r
              | _ => search
              end in
  List.map (fun piece =>
              let '(name, value) := JsString.cut_at "=" piece in
              (decode name, decode (default "" value)))
           (List.filter (fun piece => negb (String.eqb piece ""))
                        (JsString.split_on "&" body)).

End URLSearchParams.

Module Location.

(** [window.location]: the path and the query part of the page's URL. *)
Record t : Type := mk { pathname : string; search : string }.

End Location.

Module FilterManager.

(** The filter selection is a JavaScript object: its own properties in
    insertion order. *)
Definition Filters : Type := list (string * Value.t).

Definition get (o : Filters) (key : string) : Value.t :=
  default Value.Undefined (JsObject.get o key).

Definition assign (o : Filters) (key : string) (value : Value.t) : Filters :=
  JsObject.assign o key value.

(** The object literal of the constructor and of [resetFilters]. *)
Definition default_filters : Filters :=
  [ ("category", Value.Str "all"); ("grade", Value.Str "all");
    ("year", Value.Str "all"); ("subject", Value.Str "all");
    ("sortBy", Value.Str "popular"); ("tags", Value.Arr []) ].

(** The manager: the selection and the registered listeners. *)
Record t : Type := mk {
  activeFilters : Filters;
  filterCallbacks : list nat
}.

Definition new : t :=
  {| activeFilters := default_filters; filterCallbacks := [] |}.

(** *** parseFileSize *)

Definition is_unit (u : string) : bool :=
  let up := JsString.toUpperCase_ascii u in
  String.eqb up "B" || String.eqb up "KB" || String.eqb up "MB"
  || String.eqb up "GB".

(** The match of [/^(\d+(?:\.\d+)?)\s*(B|KB|MB|GB)$/i]: the integer
    digits, the fraction digits (empty without a fraction) and the unit.
    The character classes of consecutive parts are disjoint, so the
    greedy choice is the only one that can succeed. *)
Definition match_size (sizeString : string)
  : option (string * string * string) :=
  let '(int, r1) := JsString.span JsString.is_digit sizeString in
  if String.eqb int "" then None else
  let '(frac, r2) :=
    match r1 with
    | String "."%char r =>
        let '(f, r') := JsString.span JsString.is_digit r in
        if String.eqb f "" then ("", r1) else (f, r')
    | _ => ("", r1)
    end in
  let unit := JsString.skip_space r2 in
  if is_unit unit then Some (int, frac, unit) else None.

(** [parseFloat] of the first capture, [int] or [int.frac]. *)
Definition parseFloat_capture (int frac : string) : Number.t :=
  Number.of_decimal (JsString.digits_value (int +:+ frac))
                    (String.length frac).

Definition k1024 : Number.t := Number.of_Z 1024.

Definition parseFileSize (sizeString : option string) : Number.t :=
  match sizeString with
  | None => Number.zero
  | Some s =>
      if String.eqb s "" then Number.zero else
      match match_size s with
      | None => Number.zero
      | Some (int, frac, unit) =>
          let num := parseFloat_capture int frac in
          let u := JsString.toUpperCase_ascii unit in
          if String.eqb u "GB"
          then Number.mul (Number.mul (Number.mul num k1024) k1024) k1024
          else if String.eqb u "MB"
          then Number.mul (Number.mul num k1024) k1024
          else if String.eqb u "KB" then Number.mul num k1024
          else num
      end
  end.

Section Platform.

(** [String.prototype.localeCompare] and the time value of
    [new Date(text)] ([NaN] for an invalid date) belong to the host. *)
Variable localeCompare : string -> string -> Number.t.
Variable Date_parse : string -> Number.t.

(** *** applySorting *)

(** The time value of [new Date(item.uploaded || 0)]. *)
Definition uploaded_time (item : Resource.t) : Number.t :=
  match Resource.uploaded item with
  | None => Number.zero
  | Some s => if String.eqb s "" then Number.zero else Date_parse s
  end.

(** [item.downloads || 0]. *)
Definition downloads_or_0 (item : Resource.t) : Number.t :=
  match Resource.downloads item with
  | None => Number.zero
  | Some n => if Number.truthy n then n else Number.zero
  end.

Definition by_newest (a b : Resource.t) : Number.t :=
  Number.sub (uploaded_time b) (uploaded_time a).
Definition by_oldest (a b : Resource.t) : Number.t :=
  Number.sub (uploaded_time a) (uploaded_time b).
Definition by_popular (a b : Resource.t) : Number.t :=
  Number.sub (downloads_or_0 b) (downloads_or_0 a).
Definition by_name_asc (a b : Resource.t) : Number.t :=
  localeCompare (Resource.title a) (Resource.title b).
Definition by_name_desc (a b : Resource.t) : Number.t :=
  localeCompare (Resource.title b) (Resource.title a).
Definition by_size_asc (a b : Resource.t) : Number.t :=
  Number.sub (parseFileSize (Resource.fileSize a))
             (parseFileSize (Resource.fileSize b)).
Definition by_size_desc (a b : Resource.t) : Number.t :=
  Number.sub (parseFileSize (Resource.fileSize b))
             (parseFileSize (Resource.fileSize a)).

(** The comparator the [switch] picks; no case, no sorting. *)
Definition comparator (sortBy : Value.t)
  : option (Resource.t -> Resource.t -> Number.t) :=
  if Value.is_string sortBy "newest" then Some by_newest
  else if Value.is_string sortBy "oldest" then Some by_oldest
  else if Value.is_string sortBy "popular" then Some by_popular
  else if Value.is_string sortBy "name-asc" then Some by_name_asc
  else if Value.is_string sortBy "name-desc" then Some by_name_desc
  else if Value.is_string sortBy "size-asc" then Some by_size_asc
  else if Value.is_string sortBy "size-desc" then Some by_size_desc
  else None.

Definition applySorting (resources : list Resource.t) (sortBy : Value.t)
  : list Resource.t :=
  match comparator sortBy with
  | Some comparefn => Array.sort comparefn resources
  | None => resources
  end.

(** *** applyFilters *)

(** One equality axis: skipped when the selection holds ["all"],
    otherwise [item.field === value]. *)
Definition filter_axis (value : Value.t) (field : Resource.t -> string)
    (items : list Resource.t) : list Resource.t :=
  if Value.is_string value "all" then items
  else List.filter (fun item => Value.is_string value (field item)) items.

(** [tags.every((tag) => item.tags && item.tags.includes(tag))]. *)
Definition has_every_tag (required : list string) (item : Resource.t)
  : bool :=
  forallb (fun tag =>
             match Resource.tags item with
             | None => false
             | Some l => Array.includes l tag
             end) required.

(** The tags step. Reading [length] of a missing [tags] and calling
    [every] on a string are TypeErrors ([None]). *)
Definition filter_tags (value : Value.t) (items : list Resource.t)
  : option (list Resource.t) :=
  match value with
  | Value.Arr required =>
      if (0 <? length required)%nat
      then Some (List.filter (has_every_tag required) items)
      else Some items
  | Value.Str s => if String.eqb s "" then Some items else None
  | Value.Undefined => None
  end.

Definition applyFilters (this : t) (resources : list Resource.t)
    (filters : option Filters) : option (list Resource.t) :=
  let activeFilters := default (activeFilters this) filters in
  let filtered := resources in
  let filtered :=
    filter_axis (get activeFilters "category") Resource.category filtered in
  let filtered :=
    filter_axis (get activeFilters "grade") Resource.grade filtered in
  let filtered :=
    filter_axis (get activeFilters "year") Resource.year filtered in
  let filtered :=
    filter_axis (get activeFilters "subject") Resource.subject filtered in
  match filter_tags (get activeFilters "tags") filtered with
  | None => None
  | Some filtered =>
      Some (applySorting filtered (get activeFilters "sortBy"))
  end.

End Platform.

(** *** The selection and the URL *)

(** [updateURL]: the query string [history.replaceState] installs. *)
Definition url_params (filters : Filters) : URLSearchParams.t :=
  fold_left
    (fun params kv =>
       let '(key, value) := kv in
       if negb (Value.is_string value "all")
          && negb (Value.is_string value "popular")
          && negb (Value.is_string value "")
       then
         match value with
         | Value.Arr l =>
             if (0 <? length l)%nat
             then URLSearchParams.set params key (JsString.join "," l)
             else params
         | _ => URLSearchParams.set params key (Value.to_string value)
         end
       else params)
    filters [].

Definition updateURL (this : t) (location : Location.t) : Location.t :=
  let params := url_params (activeFilters this) in
  let query := URLSearchParams.toString params in
  {| Location.pathname := Location.pathname location;
     Location.search := if String.eqb query "" then "" else "?" +:+ query |}.

(** [params.get(name) || fallback]. *)
Definition get_or (params : URLSearchParams.t) (name fallback : string)
  : string :=
  match URLSearchParams.get params name with
  | None => fallback
  | Some v => if String.eqb v "" then fallback else v
  end.

Definition initFromURL (this : t) (location : Location.t)
  : t * Location.t :=
  let params := URLSearchParams.parse (Location.search location) in
  let this' :=
    {| activeFilters :=
         [ ("category", Value.Str (get_or params "category" "all"));
           ("grade", Value.Str (get_or params "grade" "all"));
           ("year", Value.Str (get_or params "year" "all"));
           ("subject", Value.Str (get_or params "subject" "all"));
           ("sortBy", Value.Str (get_or params "sort" "popular"));
           ("tags", Value.Arr
                      match URLSearchParams.get params "tags" with
                      | None => []
                      | Some v => if String.eqb v "" then []
                                  else JsString.split_on "," v
                      end) ];
       filterCallbacks := filterCallbacks this |} in
  (this', updateURL this' location).

(** [notifyListeners]: every callback, in registration order, receives
    the selection. *)
Definition notifyListeners (this : t) : list (nat * Filters) :=
  List.map (fun callback => (callback, activeFilters this))
           (filterCallbacks this).

(** [onFilterChange]: the callback, a function known by its identity, is
    registered behind the others. *)
Definition onFilterChange (this : t) (callback : nat) : t :=
  {| activeFilters := activeFilters this;
     filterCallbacks := filterCallbacks this ++ [callback] |}.

(** [filterCallbacks.indexOf(callback)] *)
Fixpoint callback_index (callbacks : list nat) (callback : nat) : option nat :=
  match callbacks with
  | [] => None
  | c :: r => if Nat.eqb c callback then Some O
              else option_map S (callback_index r callback)
  end.

(** The function [onFilterChange] returns for the callback, called. *)
Definition unsubscribe (this : t) (callback : nat) : t :=
  match callback_index (filterCallbacks this) callback with
  | Some index =>
      {| activeFilters := activeFilters this;
         filterCallbacks := Array.splice1 (filterCallbacks this) index |}
  | None => this
  end.

Definition setFilter (this : t) (location : Location.t)
    (key : string) (value : Value.t)
  : t * Location.t * list (nat * Filters) :=
  let this' :=
    {| activeFilters := assign (activeFilters this) key value;
       filterCallbacks := filterCallbacks this |} in
  (this', updateURL this' location, notifyListeners this').

(** [setFilters]: [Object.assign] copies the given properties in order. *)
Definition setFilters (this : t) (location : Location.t) (filters : Filters)
  : t * Location.t * list (nat * Filters) :=
  let this' :=
    {| activeFilters :=
         fold_left (fun o kv => assign o (fst kv) (snd kv)) filters
                   (activeFilters this);
       filterCallbacks := filterCallbacks this |} in
  (this', updateURL this' location, notifyListeners this').

Definition resetFilters (this : t) (location : Location.t)
  : t * Location.t * list (nat * Filters) :=
  let this' :=
    {| activeFilters := default_filters;
       filterCallbacks := filterCallbacks this |} in
  (this', updateURL this' location, notifyListeners this').

(** [toggleTag]: a TypeError ([None]) when [tags] is not an array. *)
Definition toggleTag (this : t) (location : Location.t) (tag : string)
  : option (t * Location.t * list (nat * Filters)) :=
  match get (activeFilters this) "tags" with
  | Value.Arr l =>
      let l' := match Array.indexOf l tag with
                | None => l ++ [tag]
                | Some index => Array.splice1 l index
                end in
      let this' :=
        {| activeFilters := assign (activeFilters this) "tags" (Value.Arr l');
           filterCallbacks := filterCallbacks this |} in
      Some (this', updateURL this' location, notifyListeners this')
  | _ => None
  end.

End FilterManager.

(** ** JSON values and the browser's localStorage *)

Module Json.

#[local] Set Warnings "-register-all".

Inductive t : Type :=
| Null
| Bool (b : bool)
| Num (n : Z)
| Str (s : string)
| Arr (items : list t)
| Obj (props : list (string * t)).

End Json.

(** What a call leaves behind: a value, or an exception that reaches the
    caller. *)
Inductive outcome (A : Type) : Type :=
| Returns (a : A)
| Throws.
Arguments Returns {A} a.
Arguments Throws {A}.

Module LocalStorage.

(** The object [set] of the storage wrapper serializes. *)
Record envelope : Type := mkEnvelope {
  value : Json.t;
  timestamp : Z;
  expires : option Z;
  version : string
}.

(** A stored string, by what reading it back gives: [Raw s] is text that
    [JSON.parse] rejects (free text, an identifier, the empty string),
    [Null] is the text [null], [Scalar s] is the JSON text [s] of a
    boolean, a number or a string, [Envelope d] is the JSON text of a
    wrapper envelope and [Items l] the JSON text of an array. The JSON
    text of any other object is not modelled. *)
Inductive text : Type :=
| Raw (s : string)
| Null
| Scalar (s : string)
| Envelope (data : envelope)
| Items (l : list Json.t).

Abbreviation t := (gmap string text).

Definition getItem (storage : t) (key : string) : option text :=
  storage !! key.

Definition removeItem (storage : t) (key : string) : t :=
  delete key storage.

(** [setItem] throws QuotaExceededError when the browser refuses the
    write; [quota] is the browser's decision. *)
Definition setItem (quota : t -> string -> text -> bool)
    (storage : t) (key : string) (v : text) : option t :=
  if quota storage key v then Some (<[key := v]> storage) else None.

End LocalStorage.

(** ** Storage wrapper (src/utils/storage.js) *)

Module StorageManager.

Import LocalStorage.

Definition prefix : string := "examportal_".

Definition startsWith (s p : string) : bool :=
  match JsString.strip_prefix p s with Some _ => true | None => false end.

(** [data.expires && now > data.expires]. *)
Definition expired (now : Z) (data : envelope) : bool :=
  match expires data with
  | Some e => negb (e =? 0) && (e <? now)
  | None => false
  end.

Section Host.

(** The host decides whether a write fits the quota and in which order
    [localStorage.key(i)] enumerates the keys. *)
Variable quota : LocalStorage.t -> string -> text -> bool.
Variable key_at : LocalStorage.t -> nat -> option string.

(** [remove] *)
Definition remove (storage : LocalStorage.t) (key : string)
  : LocalStorage.t * bool :=
  (removeItem storage (prefix +:+ key), true).

(** [get]: the value read ([None] is [undefined]) and the storage, from
    which an expired entry has been removed. Text that does not parse and
    [null], whose [expires] cannot be read, end in the [catch]; a scalar
    and an array have neither [expires] nor [value]. *)
Definition get (storage : LocalStorage.t) (now : Z) (key : string)
    (defaultValue : Json.t) : option Json.t * LocalStorage.t :=
  match getItem storage (prefix +:+ key) with
  | None => (Some defaultValue, storage)
  | Some (Raw _) | Some Null => (Some defaultValue, storage)
  | Some (Envelope data) =>
      if expired now data
      then (Some defaultValue, fst (remove storage key))
      else (Some (value data), storage)
  | Some (Scalar _) | Some (Items _) => (None, storage)
  end.

(** The body of the loop of [clearExpired] for the key at index [i]. *)
Definition clear_one (now : Z) (storage : LocalStorage.t) (key : string)
    (cleared : nat) : LocalStorage.t * nat :=
  if startsWith key prefix then
    match getItem storage key with
    | Some (Envelope data) =>
        if expired now data
        then (removeItem storage key, S cleared)
        else (storage, cleared)
    | Some (Scalar _) | Some (Items _) => (storage, cleared)
    | Some (Raw _) | Some Null | None => (removeItem storage key, S cleared)
    end
  else (storage, cleared).

(** [for (let i = 0; i < localStorage.length; i++)]: the index goes up
    while removals shorten the storage. A [key(i)] that is [null] makes
    [startsWith] throw, which the outer [catch] turns into [0]. *)
Equations? clear_loop (now : Z) (storage : LocalStorage.t) (i cleared : nat)
  : LocalStorage.t * nat by wf (size storage - i)%nat lt :=
  clear_loop now storage i cleared with lt_dec i (size storage) := {
    | right _ => (storage, cleared)
    | left _ with key_at storage i := {
        | None => (storage, O)
        | Some key =>
            clear_loop now (fst (clear_one now storage key cleared)) (S i)
                       (snd (clear_one now storage key cleared)) } }.
Proof.
  assert (Hdel : forall k, (size (delete k storage) <= size storage)%nat).
  { intros k. rewrite map_size_delete. destruct (storage !! k); simpl; lia. }
  assert (size (fst (clear_one now storage key cleared)) <= size storage)%nat.
  { unfold clear_one, removeItem. repeat case_match; simpl; auto. }
  lia.
Qed.

Definition clearExpired (storage : LocalStorage.t) (now : Z)
  : LocalStorage.t * nat :=
  clear_loop now storage O O.

(** [set]: one cleanup and one retry when the quota is exceeded. *)
Definition set (storage : LocalStorage.t) (now : Z) (key : string)
    (value : Json.t) (expires : option Z) (version : option string)
  : LocalStorage.t * bool :=
  let fullKey := prefix +:+ key in
  let data :=
    {| LocalStorage.value := value;
       timestamp := now;
       LocalStorage.expires :=
         match expires with
         | Some e => if e =? 0 then None else Some (now + e)
         | None => None
         end;
       LocalStorage.version :=
         match version with
         | Some v => if String.eqb v "" then "1.0" else v
         | None => "1.0"
         end |} in
  match setItem quota storage fullKey (Envelope data) with
  | Some storage' => (storage', true)
  | None =>
      let storage1 := fst (clearExpired storage now) in
      match setItem quota storage1 fullKey (Envelope data) with
      | Some storage' => (storage', true)
      | None => (storage1, false)
      end
  end.

(** *** Download history *)

Definition getDownloadHistory (storage : LocalStorage.t) (now : Z)
  : option Json.t * LocalStorage.t :=
  get storage now "download_history" (Json.Arr []).

(** [addToDownloadHistory]: [iso] is [new Date().toISOString()].
    [unshift] on anything but an array is a TypeError. *)
Definition addToDownloadHistory (storage : LocalStorage.t) (now : Z)
    (iso : string) (item : list (string * Json.t))
  : outcome bool * LocalStorage.t :=
  match getDownloadHistory storage now with
  | (Some (Json.Arr history), storage1) =>
      let entry := Json.Obj (JsObject.assign item "timestamp" (Json.Str iso)) in
      let history := entry :: history in
      let history :=
        if (100 <? length history)%nat then take 100 history else history in
      let '(storage2, ok) :=
        set storage1 now "download_history" (Json.Arr history) None None in
      (Returns ok, storage2)
  | (_, storage1) => (Throws, storage1)
  end.

Definition clearDownloadHistory (storage : LocalStorage.t)
  : LocalStorage.t * bool :=
  remove storage "download_history".

(** *** Favorites *)

Definition getFavorites (storage : LocalStorage.t) (now : Z)
  : option Json.t * LocalStorage.t :=
  get storage now "favorites" (Json.Arr []).

(** [x === itemId] for an element of the stored array. *)
Definition is_id (itemId : string) (x : Json.t) : bool :=
  match x with
  | Json.Str s => String.eqb s itemId
  | _ => false
  end.

(** [favorites.indexOf(itemId)] *)
Fixpoint indexOf (favorites : list Json.t) (itemId : string) : option nat :=
  match favorites with
  | [] => None
  | x :: r => if is_id itemId x then Some O
              else option_map S (indexOf r itemId)
  end.

(** [addFavorite]. A stored string also has [includes], but no [push];
    any other value has neither. *)
Definition addFavorite (storage : LocalStorage.t) (now : Z)
    (itemId : string) : outcome bool * LocalStorage.t :=
  match getFavorites storage now with
  | (Some (Json.Arr favorites), storage1) =>
      if negb (existsb (is_id itemId) favorites) then
        let '(storage2, ok) :=
          set storage1 now "favorites"
              (Json.Arr (favorites ++ [Json.Str itemId])) None None in
        (Returns ok, storage2)
      else (Returns true, storage1)
  | (Some (Json.Str s), storage1) =>
      if negb (JsString.includes s itemId) then (Throws, storage1)
      else (Returns true, storage1)
  | (_, storage1) => (Throws, storage1)
  end.

(** [removeFavorite]. *)
Definition removeFavorite (storage : LocalStorage.t) (now : Z)
    (itemId : string) : outcome bool * LocalStorage.t :=
  match getFavorites storage now with
  | (Some (Json.Arr favorites), storage1) =>
      match indexOf favorites itemId with
      | Some index =>
          let '(storage2, ok) :=
            set storage1 now "favorites"
                (Json.Arr (Array.splice1 favorites index)) None None in
          (Returns ok, storage2)
      | None => (Returns true, storage1)
      end
  | (Some (Json.Str s), storage1) =>
      if JsString.includes s itemId then (Throws, storage1)
      else (Returns true, storage1)
  | (_, storage1) => (Throws, storage1)
  end.

Definition isFavorite (storage : LocalStorage.t) (now : Z)
    (itemId : string) : outcome bool * LocalStorage.t :=
  match getFavorites storage now with
  | (Some (Json.Arr favorites), storage1) =>
      (Returns (existsb (is_id itemId) favorites), storage1)
  | (Some (Json.Str s), storage1) =>
      (Returns (JsString.includes s itemId), storage1)
  | (_, storage1) => (Throws, storage1)
  end.

(** *** clear and keys *)

(** [localStorage.key(0)], ..., [key(length - 1)] as a loop reads them
    that does not write meanwhile; [None] when one of them is [null], on
    which [startsWith] throws. *)
Definition enumerate (storage : LocalStorage.t) : option (list string) :=
  mapM (key_at storage) (seq 0 (size storage)).

(** [clear]: the keys of the namespace are collected first and removed
    afterwards; a throw while collecting is caught before anything is
    removed. *)
Definition clear (storage : LocalStorage.t) : LocalStorage.t * bool :=
  match enumerate storage with
  | None => (storage, false)
  | Some all =>
      let keysToRemove := List.filter (fun key => startsWith key prefix) all in
      (fold_left removeItem keysToRemove storage, true)
  end.

(** [keys]: the keys of the namespace without the prefix; nothing is
    caught here. *)
Definition keys (storage : LocalStorage.t) : outcome (list string) :=
  match enumerate storage with
  | None => Throws
  | Some all => Returns (omap (fun key => JsString.strip_prefix prefix key) all)
  end.

End Host.

(** *** Recent searches *)

Section RecentSearches.

(** Besides the quota and the key order, [String.prototype.trim] and
    [String.prototype.slice(0, n)] belong to the host. *)
Variable quota : LocalStorage.t -> string -> text -> bool.
Variable key_at : LocalStorage.t -> nat -> option string.
Variable trim : string -> string.
Variable slice : string -> nat -> string.

(** [getRecentSearches(limit)] for a limit that is a natural number. A
    stored string has [slice] too; any other value has not. *)
Definition getRecentSearches (storage : LocalStorage.t) (now : Z)
    (limit : nat) : outcome Json.t * LocalStorage.t :=
  match get storage now "recent_searches" (Json.Arr []) with
  | (Some (Json.Arr searches), storage1) =>
      (Returns (Json.Arr (take limit searches)), storage1)
  | (Some (Json.Str s), storage1) => (Returns (Json.Str (slice s limit)), storage1)
  | (_, storage1) => (Throws, storage1)
  end.

(** [addSearch]: [Returns None] is the bare [return] for a query that is
    empty or shorter than two code units once trimmed. A stored string
    has [indexOf], but neither [splice] nor [unshift]. *)
Definition addSearch (storage : LocalStorage.t) (now : Z) (query : string)
  : outcome (option bool) * LocalStorage.t :=
  if String.eqb query "" || (JsString.utf16_length (trim query) <? 2)%nat
  then (Returns None, storage)
  else
    match get storage now "recent_searches" (Json.Arr []) with
    | (Some (Json.Arr searches), storage1) =>
        let trimmedQuery := trim query in
        let searches :=
          match indexOf searches trimmedQuery with
          | Some index => Array.splice1 searches index
          | None => searches
          end in
        let searches := Json.Str trimmedQuery :: searches in
        let searches :=
          if (50 <? length searches)%nat then take 50 searches else searches in
        let '(storage2, ok) :=
          set quota key_at storage1 now "recent_searches" (Json.Arr searches)
              None None in
        (Returns (Some ok), storage2)
    | (_, storage1) => (Throws, storage1)
    end.

Definition clearSearchHistory (storage : LocalStorage.t)
  : LocalStorage.t * bool :=
  remove storage "recent_searches".

End RecentSearches.

End StorageManager.

(** ** Download manager (src/utils/download.js) *)

Module DownloadManager.

Import LocalStorage.

Record t : Type := mk {
  downloadQueue : list string;
  isDownloading : bool;
  maxRetries : Z
}.

(** The constructor. *)
Definition new : t :=
  {| downloadQueue := []; isDownloading := false; maxRetries := 3 |}.

(** *** formatFileSize *)

Definition sizes : list string := ["Bytes"; "KB"; "MB"; "GB"].

(** The text of [parseFloat(x.toFixed(2))] for [x = hundredths / 100]:
    the two decimals without their trailing zeros. *)
Definition short_decimal (hundredths : Z) : string :=
  let whole := JsString.decimal (hundredths / 100) in
  let cents := hundredths mod 100 in
  if cents =? 0 then whole
  else if cents mod 10 =? 0
  then whole +:+ "." +:+ JsString.decimal (cents / 10)
  else whole +:+ "." +:+ JsString.decimal (cents / 10)
             +:+ JsString.decimal (cents mod 10).

(** [formatFileSize] on an integer byte count. [i] is the exact
    [floor (log_1024 bytes)], which the floating-point quotient
    [Math.log(bytes) / Math.log(k)] yields away from the powers of [k];
    [toFixed(2)] rounds [bytes / k^i] to hundredths, halves upwards. A
    negative count gives [NaN] for both the index and the number. Within
    a few bytes below [k^5] and beyond the rounded quotient can reach
    the next integer; counts of that order are outside the embedding. *)
Definition formatFileSize (bytes : Z) : string :=
  if bytes =? 0 then "0 Bytes"
  else if bytes <? 0 then "NaN undefined"
  else
    let k := 1024 in
    let i := Z.log2 bytes / 10 in
    let hundredths := (200 * bytes + k ^ i) / (2 * k ^ i) in
    short_decimal hundredths +:+ " "
      +:+ nth (Z.to_nat i) sizes "undefined".

(** *** trackDownload and downloadPDF *)

(** What the page reads from the host while recording a download:
    [new Date().toISOString()], [navigator.userAgent],
    [navigator.platform] and [document.referrer]. *)
Record Env : Type := mkEnv {
  timestamp : string;
  userAgent : string;
  platform : string;
  referrer : string
}.

(** What a run of [downloadPDF] does to the page, in order. [Attempt n]
    marks the entry into the [try] block with [retryCount = n]. *)
Inductive effect : Type :=
| Attempt (retryCount : Z)
| ShowProgress (filename : string)
| AnchorClick (href download : string)
| HistorySaved
| SendAnalytics
| OnComplete
| ConsoleError
| ConsoleRetry (n : Z)
| OnError.

(** A callback of the options: absent, or present together with whether
    calling it throws. *)
Definition callback : Type := option bool.

Record Options : Type := mkOptions {
  showProgress : bool;
  retryCount : Z;
  onProgress : callback;
  onComplete : callback;
  onError : callback
}.

(** The defaults of the destructuring. *)
Definition default_options : Options :=
  {| showProgress := true; retryCount := 0; onProgress := None;
     onComplete := None; onError := None |}.

Record Result : Type := mkResult { success : bool }.

Section Host.

(** The host: the quota decision of [localStorage.setItem], the path of
    [new URL(url)] ([None] when the constructor throws), and whether
    creating and clicking the anchor for [url] throws on the attempt
    with the given [retryCount]. *)
Variable quota : LocalStorage.t -> string -> text -> bool.
Variable URL_pathname : string -> option string.
Variable anchor_throws : string -> Z -> bool.

(** The part of [s] after its last [/]. *)
Definition after_last_slash (s : string) : string :=
  List.last (JsString.split_on "/" s) "".

Definition extractFilenameFromUrl (url : string) : string :=
  match URL_pathname url with
  | Some pathname =>
      let name := after_last_slash pathname in
      if String.eqb name "" then "download.pdf" else name
  | None => "download.pdf"
  end.

(** [trackDownload]: nothing is caught here, so a history that does not
    parse, a history that is not an array and a refused write all throw. *)
Definition trackDownload (storage : LocalStorage.t) (env : Env)
    (url filename : string) : outcome unit * LocalStorage.t :=
  let downloadData :=
    Json.Obj [ ("url", Json.Str url); ("filename", Json.Str filename);
               ("timestamp", Json.Str (timestamp env));
               ("userAgent", Json.Str (userAgent env));
               ("platform", Json.Str (platform env));
               ("referrer", Json.Str (referrer env)) ] in
  let parsed :=
    match getItem storage "downloadHistory" with
    | None => Some []
    | Some (Raw s) => if String.eqb s "" then Some [] else None
    | Some (Items l) => Some l
    | Some Null | Some (Scalar _) | Some (Envelope _) => None
    end in
  match parsed with
  | None => (Throws, storage)
  | Some downloads =>
      let downloads := downloadData :: downloads in
      let downloads :=
        if (1000 <? length downloads)%nat then take 1000 downloads
        else downloads in
      match setItem quota storage "downloadHistory" (Items downloads) with
      | Some storage' => (Returns tt, storage')
      | None => (Throws, storage)
      end
  end.

(** The [try] block of [downloadPDF]: [inl] when something in it throws,
    with the storage and the effects up to that point. *)
Definition try_download (storage : LocalStorage.t) (env : Env)
    (url filename : string) (options : Options)
  : (LocalStorage.t * list effect) + (LocalStorage.t * list effect) :=
  let progress :=
    if showProgress options then [ShowProgress filename] else [] in
  let before := Attempt (retryCount options) :: progress in
  if anchor_throws url (retryCount options) then inl (storage, before)
  else
    let download :=
      if String.eqb filename "" then extractFilenameFromUrl url
      else filename in
    let clicked := before ++ [AnchorClick url download] in
    match trackDownload storage env url filename with
    | (Throws, storage1) => inl (storage1, clicked)
    | (Returns _, storage1) =>
        let tracked := clicked ++ [HistorySaved; SendAnalytics] in
        match onComplete options with
        | Some true => inl (storage1, tracked ++ [OnComplete])
        | Some false => inr (storage1, tracked ++ [OnComplete])
        | None => inr (storage1, tracked)
        end
    end.

(** [downloadPDF]: the value the promise resolves with ([Throws] when it
    rejects), the storage and the effects. *)
Equations? downloadPDF (this : t) (storage : LocalStorage.t) (env : Env)
    (url filename : string) (options : Options)
  : outcome Result * LocalStorage.t * list effect
  by wf (Z.to_nat (maxRetries this - retryCount options)) lt :=
  downloadPDF this storage env url filename options
    with try_download storage env url filename options := {
    | inr (storage1, effects) =>
        (Returns {| success := true |}, storage1, effects)
    | inl (storage1, effects)
        with Z_lt_dec (retryCount options) (maxRetries this) := {
        | left _ =>
            let '(result, storage2, effects2) :=
              downloadPDF this storage1 env url filename
                {| showProgress := showProgress options;
                   retryCount := retryCount options + 1;
                   onProgress := onProgress options;
                   onComplete := onComplete options;
                   onError := onError options |} in
            (result, storage2,
             effects ++ ConsoleError :: ConsoleRetry (retryCount options + 1)
                     :: effects2)
        | right _ with onError options := {
            | Some true =>
                (Throws, storage1, effects ++ [ConsoleError; OnError])
            | Some false =>
                (Returns {| success := false |}, storage1,
                 effects ++ [ConsoleError; OnError])
            | None =>
                (Returns {| success := false |}, storage1,
                 effects ++ [ConsoleError]) } } }.
Proof. simpl. lia. Qed.

(** The number of times the [try] block was entered. *)
Definition attempts (effects : list effect) : nat :=
  length (List.filter (fun e => match e with Attempt _ => true | _ => false end)
                      effects).

(** *** downloadMultipleAsZip *)

(** A file of a batch: what the page reads from the host while the
    download is recorded, the URL and the file name. *)
Definition File : Type := (Env * string * string)%type.

(** [showNotification(message, type)]. *)
Inductive notification : Type :=
| Notify (message type : string).

(** The options of the batch: [{ showProgress: false }]. *)
Definition batch_options : Options :=
  {| showProgress := false; retryCount := 0; onProgress := None;
     onComplete := None; onError := None |}.

(** The loop over the files: one [downloadPDF] after the other; [None]
    when one of them rejects, which ends the loop. The pause between two
    downloads leaves no trace. *)
Fixpoint download_each (this : t) (storage : LocalStorage.t)
    (files : list File)
  : option (list Result) * LocalStorage.t * list effect :=
  match files with
  | [] => (Some [], storage, [])
  | (env, url, filename) :: rest =>
      match downloadPDF this storage env url filename batch_options with
      | (Returns result, storage1, effects) =>
          let '(results, storage2, effects2) :=
            download_each this storage1 rest in
          (option_map (cons result) results, storage2, effects ++ effects2)
      | (Throws, storage1, effects) => (None, storage1, effects)
      end
  end.

(** [downloadMultipleAsZip]: the results, the storage, the effects of
    the downloads and the notifications shown. *)
Definition downloadMultipleAsZip (this : t) (storage : LocalStorage.t)
    (files : list File)
  : list Result * LocalStorage.t * list effect * list notification :=
  let total := JsString.integer (Z.of_nat (length files)) in
  let preparing :=
    Notify ("Preparing " +:+ total +:+ " files for download...") "info" in
  match download_each this storage files with
  | (Some results, storage1, effects) =>
      let succeeded :=
        JsString.integer
          (Z.of_nat (length (List.filter (fun r => success r) results))) in
      (results, storage1, effects,
       [ preparing;
         Notify ("Downloaded " +:+ succeeded +:+ " of " +:+ total +:+ " files")
                "success" ])
  | (None, storage1, effects) =>
      ([], storage1, effects,
       [ preparing; Notify "Failed to download files" "error" ])
  end.

End Host.

End DownloadManager.

(** ** Analytics tracker (class AnalyticsTracker of src/utils/analytics.js) *)

Module AnalyticsTracker.

Import LocalStorage.

Record t : Type := mk {
  enabled : bool;
  queue : list Json.t;
  maxRetries : Z;
  endpoint : string
}.

(** The tracker, the storage and the batches handed to [fetch] whose
    response is still awaited, oldest first. *)
Record State : Type := mkState {
  tracker : t;
  storage : LocalStorage.t;
  inflight : list (list Json.t)
}.

(** What one call reads from the host: [Date.now()] and the two random
    suffixes [Math.random().toString(36).substr(2, 9)] that a new session
    identifier and a new user identifier consume. *)
Record Env : Type := mkEnv {
  now : Z;
  random_session : string;
  random_user : string
}.

Definition with_queue (this : t) (q : list Json.t) : t :=
  {| enabled := enabled this; queue := q;
     maxRetries := maxRetries this; endpoint := endpoint this |}.

Definition generateId (now : Z) (random : string) : string :=
  "id_" +:+ JsString.integer now +:+ "_" +:+ random.

Section Host.

(** The host: the quota decision, [parseInt] ([None] is [NaN]) and the
    JSON text of a stored value, which is what [getItem] hands out. *)
Variable quota : LocalStorage.t -> string -> text -> bool.
Variable parseInt : string -> option Z.
Variable JSON_text : text -> string.

Definition getString (storage : LocalStorage.t) (key : string)
  : option string :=
  match getItem storage key with
  | None => None
  | Some (Raw s) | Some (Scalar s) => Some s
  | Some other => Some (JSON_text other)
  end.

(** ToBoolean of what [getItem] returned. *)
Definition present (s : option string) : bool :=
  match s with
  | Some v => negb (String.eqb v "")
  | None => false
  end.

(** Both branches of [getSessionId] that start a session: two unguarded
    writes. *)
Definition start_session (storage : LocalStorage.t) (env : Env)
  : outcome string * LocalStorage.t :=
  let sessionId := generateId (now env) (random_session env) in
  match setItem quota storage "analytics_session_id" (Raw sessionId) with
  | None => (Throws, storage)
  | Some storage1 =>
      match setItem quota storage1 "analytics_session_expiry"
                    (Scalar (JsString.integer (now env + 4 * 60 * 60 * 1000))) with
      | None => (Throws, storage1)
      | Some storage2 => (Returns sessionId, storage2)
      end
  end.

Definition getSessionId (storage : LocalStorage.t) (env : Env)
  : outcome string * LocalStorage.t :=
  let sessionId := getString storage "analytics_session_id" in
  if negb (present sessionId) then start_session storage env
  else
    let expiry := getString storage "analytics_session_expiry" in
    if negb (present expiry)
       || match parseInt (default "" expiry) with
          | Some e => e <? now env
          | None => false
          end
    then start_session storage env
    else (Returns (default "" sessionId), storage).

Definition getUserId (storage : LocalStorage.t) (env : Env)
  : outcome string * LocalStorage.t :=
  let userId := getString storage "user_id" in
  if negb (present userId) then
    let userId := "anonymous_" +:+ generateId (now env) (random_user env) in
    match setItem quota storage "user_id" (Raw userId) with
    | None => (Throws, storage)
    | Some storage1 => (Returns userId, storage1)
    end
  else (Returns (default "" userId), storage).

(** [saveQueue]: a refused write is caught and logged. *)
Definition saveQueue (this : t) (storage : LocalStorage.t) : LocalStorage.t :=
  match setItem quota storage "analytics_queue" (Items (queue this)) with
  | Some storage' => storage'
  | None => storage
  end.

(** [flushQueue()] up to its first [await]: the queue is swapped for an
    empty one and the batch is handed to [fetch]. *)
Definition flushQueue (st : State) : State :=
  if (length (queue (tracker st)) =? 0)%nat || negb (enabled (tracker st))
  then st
  else
    {| tracker := with_queue (tracker st) [];
       storage := storage st;
       inflight := inflight st ++ [queue (tracker st)] |}.

(** The rest of [sendEvents], once the request for the batch at index
    [n] is settled: [ok] when the response was received with an ok
    status, otherwise the [catch] branch. *)
Definition settle (st : State) (n : nat) (ok : bool) : State :=
  match inflight st !! n with
  | None => st
  | Some events =>
      let rest := take n (inflight st) ++ drop (S n) (inflight st) in
      if ok then
        {| tracker := tracker st;
           storage := removeItem (storage st) "analytics_queue";
           inflight := rest |}
      else
        let this := with_queue (tracker st) (events ++ queue (tracker st)) in
        {| tracker := this;
           storage := saveQueue this (storage st);
           inflight := rest |}
  end.

(** [flushQueue(true)]: [beacon] is what [navigator.sendBeacon] returned
    ([None] without that function) and [xhr] the status of the
    synchronous request ([None] when sending throws). *)
Definition flushQueueSync (st : State) (beacon : option bool)
    (xhr : option Z) : State :=
  if (length (queue (tracker st)) =? 0)%nat || negb (enabled (tracker st))
  then st
  else
    let events := queue (tracker st) in
    let delivered :=
      match beacon with
      | Some true => true
      | _ => match xhr with
             | Some status => (200 <=? status) && (status <? 300)
             | None => false
             end
      end in
    if delivered then
      {| tracker := with_queue (tracker st) [];
         storage := removeItem (storage st) "analytics_queue";
         inflight := inflight st |}
    else
      let this := with_queue (tracker st) events in
      {| tracker := this;
         storage := saveQueue this (storage st);
         inflight := inflight st |}.

(** The event as it sits in the queue: [sessionId] and [userId] are
    assigned to it. *)
Definition stamp (event : list (string * Json.t)) (sessionId userId : string)
  : Json.t :=
  let event := JsObject.assign event "sessionId" (Json.Str sessionId) in
  Json.Obj (if String.eqb userId "" then event
            else JsObject.assign event "userId" (Json.Str userId)).

Definition queueEvent (st : State) (env : Env)
    (event : list (string * Json.t)) : outcome bool * State :=
  if negb (enabled (tracker st)) then (Returns false, st)
  else
    match getSessionId (storage st) env with
    | (Throws, storage1) =>
        (Throws, {| tracker := tracker st; storage := storage1;
                    inflight := inflight st |})
    | (Returns sessionId, storage1) =>
        match getUserId storage1 env with
        | (Throws, storage2) =>
            (Throws, {| tracker := tracker st; storage := storage2;
                        inflight := inflight st |})
        | (Returns userId, storage2) =>
            let this :=
              with_queue (tracker st)
                (queue (tracker st) ++ [stamp event sessionId userId]) in
            let st1 :=
              {| tracker := this; storage := saveQueue this storage2;
                 inflight := inflight st |} in
            (Returns true,
             if (20 <=? length (queue this))%nat then flushQueue st1
             else st1)
        end
    end.

(** [setEnabled] *)
Definition setEnabled (st : State) (value : bool) : outcome bool * State :=
  match setItem quota (storage st) "analytics_enabled"
                (Scalar (if value then "true" else "false")) with
  | None =>
      (Throws,
       {| tracker := {| enabled := value; queue := queue (tracker st);
                        maxRetries := maxRetries (tracker st);
                        endpoint := endpoint (tracker st) |};
          storage := storage st; inflight := inflight st |})
  | Some storage1 =>
      (Returns value,
       if value then
         {| tracker := {| enabled := true; queue := queue (tracker st);
                          maxRetries := maxRetries (tracker st);
                          endpoint := endpoint (tracker st) |};
            storage := storage1; inflight := inflight st |}
       else
         {| tracker := {| enabled := false; queue := [];
                          maxRetries := maxRetries (tracker st);
                          endpoint := endpoint (tracker st) |};
            storage := removeItem storage1 "analytics_queue";
            inflight := inflight st |})
  end.

(** What [getItem("analytics_queue")] would parse to. *)
Definition persisted (st : State) : option (list Json.t) :=
  match getItem (storage st) "analytics_queue" with
  | Some (Items l) => Some l
  | _ => None
  end.

(** *** The tracker over time *)

(** What happens to the tracker, one task of the event loop at a time: a
    call of [queueEvent], the timer's [flushQueue()], the
    [flushQueue(true)] of [beforeunload], the answer to the request for
    the batch at index [n], and [setEnabled]. *)
Inductive action : Type :=
| QueueEvent (env : Env) (event : list (string * Json.t))
| Flush
| FlushSync (beacon : option bool) (xhr : option Z)
| Settle (n : nat) (ok : bool)
| SetEnabled (value : bool).

Definition step (st : State) (a : action) : State :=
  match a with
  | QueueEvent env event => snd (queueEvent st env event)
  | Flush => flushQueue st
  | FlushSync beacon xhr => flushQueueSync st beacon xhr
  | Settle n ok => settle st n ok
  | SetEnabled value => snd (setEnabled st value)
  end.

Definition run (st : State) (actions : list action) : State :=
  fold_left step actions st.

End Host.

End AnalyticsTracker.

(** ** Search engine (class SearchEngine) *)

Module SearchEngine.

Record IndexEntry : Type := mkEntry {
  id : string;
  title : string;
  description : string;
  subject : string;
  tags : list string;
  grade : string;
  year : string;
  category : string;
  searchText : string
}.

Record t : Type := mk {
  searchIndex : list IndexEntry;
  isIndexed : bool;
  fullResources : option (list Resource.t)
}.

(** The constructor. *)
Definition new : t :=
  {| searchIndex := []; isIndexed := false; fullResources := None |}.

(** The equality filters a search can carry; a missing or empty value is
    falsy. *)
Record Filters : Type := mkFilters {
  f_category : option string;
  f_grade : option string;
  f_year : option string;
  f_subject : option string
}.

Record Options : Type := mkOptions {
  returnAll : bool;
  filters : option Filters;
  limit : option nat
}.

Definition default_options : Options :=
  {| returnAll := false; filters := None; limit := None |}.

Section Host.

(** [String.prototype.toLowerCase] and [trim] belong to the host. *)
Variable toLowerCase : string -> string.
Variable trim : string -> string.

Definition createSearchText (resource : Resource.t) : string :=
  let parts :=
    [ Resource.title resource; Resource.description resource;
      Resource.subject resource; Resource.grade resource;
      Resource.year resource ]
    ++ default [] (Resource.tags resource) in
  JsString.join " "
    (List.map toLowerCase
       (List.filter (fun part => negb (String.eqb part "")) parts)).

Definition indexResources (this : t) (resources : list Resource.t) : t :=
  {| fullResources := Some resources;
     searchIndex :=
       List.map (fun resource =>
                   {| id := Resource.id resource;
                      title := Resource.title resource;
                      description := Resource.description resource;
                      subject := Resource.subject resource;
                      tags := default [] (Resource.tags resource);
                      grade := Resource.grade resource;
                      year := Resource.year resource;
                      category := Resource.category resource;
                      searchText := createSearchText resource |})
                resources;
     isIndexed := true |}.

Definition matches (item : IndexEntry) (searchTerm : string) : bool :=
  JsString.includes (toLowerCase (title item)) searchTerm
  || JsString.includes (toLowerCase (description item)) searchTerm
  || JsString.includes (toLowerCase (subject item)) searchTerm
  || existsb (fun tag => JsString.includes (toLowerCase tag) searchTerm)
             (tags item)
  || existsb (fun word => JsString.includes (searchText item) word)
             (JsString.split_on " " searchTerm).

Definition calculateRelevance (item : IndexEntry) (searchTerm : string) : Z :=
  let score := 0 in
  let score :=
    if JsString.includes (toLowerCase (title item)) searchTerm
    then score + 100 else score in
  let score :=
    if JsString.includes (toLowerCase (subject item)) searchTerm
    then score + 50 else score in
  let score :=
    if JsString.includes (toLowerCase (description item)) searchTerm
    then score + 30 else score in
  let score :=
    if existsb (fun tag => JsString.includes (toLowerCase tag) searchTerm)
               (tags item)
    then score + 20 else score in
  fold_left (fun score word =>
               if JsString.includes (searchText item) word
               then score + 10 else score)
            (JsString.split_on " " searchTerm) score.

(** [filters.axis && item.axis !== filters.axis] *)
Definition rejects (wanted : option string) (actual : string) : bool :=
  match wanted with
  | Some v => negb (String.eqb v "") && negb (String.eqb actual v)
  | None => false
  end.

Definition applyFilters (results : list IndexEntry) (filters : option Filters)
  : list IndexEntry :=
  match filters with
  | None => results
  | Some f =>
      List.filter (fun item =>
                     negb (rejects (f_category f) (category item))
                     && negb (rejects (f_grade f) (grade item))
                     && negb (rejects (f_year f) (year item))
                     && negb (rejects (f_subject f) (subject item)))
                  results
  end.

(** [fullResources.find((r) => r.id === item.id)] for every result,
    without the misses. Reading [find] of a missing [fullResources]
    throws as soon as there is a result to map. *)
Definition hydrate (this : t) (results : list IndexEntry)
  : outcome (list Resource.t) :=
  match fullResources this, results with
  | None, [] => Returns []
  | None, _ :: _ => Throws
  | Some full, _ =>
      Returns
        (List.concat
           (List.map (fun item =>
                        match List.find (fun r => String.eqb (Resource.id r) (id item)) full with
                        | Some r => [r]
                        | None => []
                        end) results))
  end.

Definition search (this : t) (query : string) (options : Options)
  : outcome (list Resource.t) :=
  if String.eqb query "" || negb (isIndexed this) then
    Returns (if returnAll options then default [] (fullResources this)
             else [])
  else
    let searchTerm := trim (toLowerCase query) in
    let results :=
      List.filter (fun item => matches item searchTerm) (searchIndex this) in
    let results :=
      Array.sort (fun a b =>
                    Number.sub (Number.of_Z (calculateRelevance b searchTerm))
                               (Number.of_Z (calculateRelevance a searchTerm)))
                 results in
    let filteredResults := applyFilters results (filters options) in
    match hydrate this filteredResults with
    | Throws => Throws
    | Returns fullResults =>
        match limit options with
        | Some n =>
            if (0 <? n)%nat && (n <? length fullResults)%nat
            then Returns (take n fullResults)
            else Returns fullResults
        | None => Returns fullResults
        end
    end.

(** *** getSuggestions *)

(** [Set.prototype.add] on the members in insertion order. *)
Definition set_add (members : list string) (x : string) : list string :=
  if Array.includes members x then members else members ++ [x].

(** [getSuggestions(query, limit)] for a limit that is a natural number:
    the titles first, then the subjects, then the tags. *)
Definition getSuggestions (this : t) (query : string) (limit : nat)
  : list string :=
  if String.eqb query "" || (JsString.utf16_length query <? 2)%nat then []
  else
    let searchTerm := toLowerCase query in
    let suggestions := [] in
    let suggestions :=
      fold_left (fun suggestions item =>
                   if JsString.includes (toLowerCase (title item)) searchTerm
                   then set_add suggestions (title item) else suggestions)
                (searchIndex this) suggestions in
    let suggestions :=
      fold_left (fun suggestions item =>
                   if JsString.includes (toLowerCase (subject item)) searchTerm
                   then set_add suggestions (subject item) else suggestions)
                (searchIndex this) suggestions in
    let suggestions :=
      fold_left (fun suggestions item =>
                   fold_left (fun suggestions tag =>
                                if JsString.includes (toLowerCase tag) searchTerm
                                then set_add suggestions tag else suggestions)
                             (tags item) suggestions)
                (searchIndex this) suggestions in
    take limit suggestions.

End Host.

End SearchEngine.

(** ** Application controller (class ExamPortal) *)

Module ExamPortal.

(** The part of the controller's state the download records live in. *)
Record t : Type := mk {
  downloadHistory : list Json.t
}.

(** [new Date()] rendered three ways. *)
Record Env : Type := mkEnv {
  timestamp : string;
  date : string;
  time : string
}.

Definition trackDownload (this : t) (env : Env) (id title type : string) : t :=
  let downloadRecord :=
    Json.Obj [ ("id", Json.Str id); ("title", Json.Str title);
               ("type", Json.Str type);
               ("timestamp", Json.Str (timestamp env));
               ("date", Json.Str (date env));
               ("time", Json.Str (time env)) ] in
  let history := downloadRecord :: downloadHistory this in
  {| downloadHistory :=
       if (100 <? length history)%nat then take 100 history else history |}.

(** [toggleFavorite]. [favorites] is the controller's copy, which the
    constructor took from [storage.getFavorites()] ([None] is
    [undefined]); the call leaves an outcome, the copy, the storage and
    the notification shown. A string has [indexOf] but neither [push] nor
    [splice], any other value has none of them; the write goes to
    [localStorage] directly, under the key [favorites]. *)
Definition toggleFavorite (quota : LocalStorage.t -> string -> LocalStorage.text -> bool)
    (favorites : option Json.t) (storage : LocalStorage.t) (resourceId : string)
  : outcome unit * option Json.t * LocalStorage.t * list (string * string) :=
  match favorites with
  | Some (Json.Arr l) =>
      let '(l', notification) :=
        match StorageManager.indexOf l resourceId with
        | None => (l ++ [Json.Str resourceId], ("Added to favorites", "success"))
        | Some index =>
            (Array.splice1 l index, ("Removed from favorites", "info"))
        end in
      match LocalStorage.setItem quota storage "favorites"
                                 (LocalStorage.Items l') with
      | Some storage' =>
          (Returns tt, Some (Json.Arr l'), storage', [notification])
      | None => (Throws, Some (Json.Arr l'), storage, [notification])
      end
  | _ => (Throws, favorites, storage, [])
  end.

End ExamPortal.

(** * Vocabulary of the properties

    What the statements below talk about: the words of the specification
    (a selection, a word of the size pattern, a capped history), runs of
    calls, and what can be observed of the storage afterwards. *)

(** ** Filter selections *)

Module Selection.

(** A filter selection as the data model has it: a value per axis, a sort
    key and the required tags. *)
Record t : Type := mk {
  category : string;
  grade : string;
  year : string;
  subject : string;
  sortBy : string;
  tags : list string
}.

(** The object the filter manager keeps for it. *)
Definition to_filters (s : t) : FilterManager.Filters :=
  [ ("category", Value.Str (category s)); ("grade", Value.Str (grade s));
    ("year", Value.Str (year s)); ("subject", Value.Str (subject s));
    ("sortBy", Value.Str (sortBy s)); ("tags", Value.Arr (tags s)) ].

(** An axis lets an item through when it holds ["all"] or the item's
    value. *)
Definition axis (selected actual : string) : Prop :=
  selected = "all" \/ actual = selected.

(** The item matches every axis that is not ["all"] and carries every
    required tag. *)
Definition selects (s : t) (item : Resource.t) : Prop :=
  axis (category s) (Resource.category item)
  /\ axis (grade s) (Resource.grade item)
  /\ axis (year s) (Resource.year item)
  /\ axis (subject s) (Resource.subject item)
  /\ forall tag, In tag (tags s) ->
                 exists l, Resource.tags item = Some l /\ In tag l.

Definition axisb (selected actual : string) : bool :=
  String.eqb selected "all" || String.eqb selected actual.

Definition selectsb (s : t) (item : Resource.t) : bool :=
  axisb (category s) (Resource.category item)
  && axisb (grade s) (Resource.grade item)
  && axisb (year s) (Resource.year item)
  && axisb (subject s) (Resource.subject item)
  && FilterManager.has_every_tag (tags s) item.

End Selection.

(** A collation for examples: the order of the code units. *)
Definition code_unit_compare (a b : string) : Number.t :=
  match String.compare a b with
  | Lt => Number.of_Z (-1)
  | Eq => Number.zero
  | Gt => Number.of_Z 1
  end.

(** A clock for examples: the date [YYYY-MM-DD] is read as the number
    [YYYYMMDD], which puts such dates in the order of their time
    values. *)
Fixpoint date_digits (s : string) : string :=
  match s with
  | EmptyString => EmptyString
  | String c r =>
      if JsString.is_digit c then String c (date_digits r) else date_digits r
  end.

Definition date_number (s : string) : Number.t :=
  Number.of_Z (JsString.digits_value (date_digits s)).

(** ** Sorting *)

Section SortVocabulary.

Context {A : Type}.
Variable comparefn : A -> A -> Number.t.

(** [a] may stand before [b]: the comparator does not put it behind. *)
Definition before (a b : A) : Prop :=
  Number.is_positive (comparefn a b) = false.

(** The comparator puts neither of [a] and [b] behind the other. *)
Definition equivalent (a b : A) : bool :=
  negb (Number.is_positive (comparefn a b))
  && negb (Number.is_positive (comparefn b a)).

(** The comparator is a consistent comparison of the elements of [l], as
    ECMAScript has it: no result is [NaN]; to be held equal (a result of
    zero) is reflexive, symmetric and transitive; to be put before (a
    negative result) is transitive, and so is to be put behind (a
    positive result). For such elements the order [sort] leaves is
    prescribed; for others it is left to the engine. *)
Definition consistent (l : list A) : Prop :=
  forall a b c, In a l -> In b l -> In c l ->
    Number.is_nan (comparefn a b) = false
    /\ Number.is_zero (comparefn a a) = true
    /\ (Number.is_zero (comparefn a b) = true ->
        Number.is_zero (comparefn b a) = true)
    /\ (Number.is_zero (comparefn a b) = true ->
        Number.is_zero (comparefn b c) = true ->
        Number.is_zero (comparefn a c) = true)
    /\ (Number.is_negative (comparefn a b) = true ->
        Number.is_negative (comparefn b c) = true ->
        Number.is_negative (comparefn a c) = true)
    /\ (Number.is_positive (comparefn a b) = true ->
        Number.is_positive (comparefn b c) = true ->
        Number.is_positive (comparefn a c) = true).

Definition consistentb (l : list A) : bool :=
  forallb (fun a =>
    forallb (fun b =>
      forallb (fun c =>
        negb (Number.is_nan (comparefn a b))
        && Number.is_zero (comparefn a a)
        && implb (Number.is_zero (comparefn a b))
                 (Number.is_zero (comparefn b a))
        && implb (Number.is_zero (comparefn a b)
                  && Number.is_zero (comparefn b c))
                 (Number.is_zero (comparefn a c))
        && implb (Number.is_negative (comparefn a b)
                  && Number.is_negative (comparefn b c))
                 (Number.is_negative (comparefn a c))
        && implb (Number.is_positive (comparefn a b)
                  && Number.is_positive (comparefn b c))
                 (Number.is_positive (comparefn a c))) l) l) l.

End SortVocabulary.

(** ** The size pattern *)

Section SizePattern.

Import FilterManager.

(** The size pattern [^(\d+(?:\.\d+)?)\s*(B|KB|MB|GB)$] with the [i] flag,
    read as a grammar: digits, an optional fraction, white space, a unit. *)
Fixpoint digits (s : string) : bool :=
  match s with
  | EmptyString => true
  | String c r => JsString.is_digit c && digits r
  end.

Inductive spaces : string -> Prop :=
| spaces_nil : spaces ""
| spaces_cons w r :
    In w JsString.white_space -> spaces r -> spaces (w +:+ r).

Definition size_pattern (s : string) : Prop :=
  exists int frac sp unit,
    s = int +:+ frac +:+ sp +:+ unit
    /\ int <> "" /\ digits int = true
    /\ (frac = "" \/ exists f, frac = "." +:+ f /\ f <> "" /\ digits f = true)
    /\ spaces sp
    /\ is_unit unit = true.

(** The string does not go on with a digit. *)
Definition head_not_digit (s : string) : Prop :=
  match s with
  | String c _ => JsString.is_digit c = false
  | EmptyString => True
  end.

(** The check behind C9, on one byte count. *)
Definition bytes_label_unparsed (n : Z) : bool :=
  String.eqb (DownloadManager.formatFileSize n)
             (JsString.decimal n +:+ " Bytes")
  && match parseFileSize (Some (DownloadManager.formatFileSize n)) with
     | S754_zero false => true
     | _ => false
     end.

End SizePattern.

(** ** Capped histories *)

Section CappedHistoryVocabulary.

Context {A : Type}.

(** [unshift] followed by the truncation to [cap] entries. *)
Definition push_capped (cap : nat) (h : list A) (x : A) : list A :=
  take cap (x :: h).

End CappedHistoryVocabulary.

(** ** Runs of the storage wrapper *)

Section StorageRuns.

Import LocalStorage StorageManager.

Variable quota : LocalStorage.t -> string -> text -> bool.
Variable key_at : LocalStorage.t -> nat -> option string.

(** The array stored under a key of the namespace, if there is one. *)
Definition stored_array (storage : LocalStorage.t) (key : string) : list Json.t :=
  match storage !! (prefix +:+ key) with
  | Some (Envelope d) =>
      match value d with Json.Arr l => l | _ => [] end
  | _ => []
  end.

(** The array [get] reads at time [now]: an expired entry reads as the
    empty default. *)
Definition read_array (storage : LocalStorage.t) (now : Z) (key : string)
  : list Json.t :=
  match fst (get storage now key (Json.Arr [])) with
  | Some (Json.Arr l) => l
  | _ => []
  end.

Definition history_entry (iso : string) (item : list (string * Json.t)) : Json.t :=
  Json.Obj (JsObject.assign item "timestamp" (Json.Str iso)).

(** A run of recordings: the time, the ISO time stamp and the item of
    each call. *)
Definition history_call : Type := Z * string * list (string * Json.t).

Definition add_call (storage : LocalStorage.t) (c : history_call)
  : outcome bool * LocalStorage.t :=
  let '(now, iso, item) := c in
  addToDownloadHistory quota key_at storage now iso item.

Definition add_all (storage : LocalStorage.t) (calls : list history_call)
  : LocalStorage.t :=
  fold_left (fun st c => snd (add_call st c)) calls storage.

(** Every call of the run returned [true]. *)
Fixpoint all_added (storage : LocalStorage.t) (calls : list history_call)
  : Prop :=
  match calls with
  | [] => True
  | c :: rest =>
      fst (add_call storage c) = Returns true
      /\ all_added (snd (add_call storage c)) rest
  end.

Definition call_entry (c : history_call) : Json.t :=
  let '(_, iso, item) := c in history_entry iso item.

(** The favorites as [getFavorites] finds them. *)
Definition favorites_read (storage : LocalStorage.t) (now : Z) (l : list Json.t)
  : Prop :=
  fst (getFavorites storage now) = Some (Json.Arr l).

(** The operations on the favorites, with the time of each call. *)
Inductive favorite_op : Type :=
| AddFavorite (now : Z) (itemId : string)
| RemoveFavorite (now : Z) (itemId : string).

Definition favorite_step (storage : LocalStorage.t) (op : favorite_op)
  : LocalStorage.t :=
  match op with
  | AddFavorite now itemId => snd (addFavorite quota key_at storage now itemId)
  | RemoveFavorite now itemId =>
      snd (removeFavorite quota key_at storage now itemId)
  end.

End StorageRuns.

(** ** Runs of the download manager and of the controller *)

Section DownloadRuns.

Import LocalStorage DownloadManager.

Variable quota : LocalStorage.t -> string -> text -> bool.

(** The array stored under the download manager's own key. *)
Definition raw_history (storage : LocalStorage.t) : list Json.t :=
  match storage !! "downloadHistory" with
  | Some (Items l) => l
  | _ => []
  end.

Definition download_entry (env : DownloadManager.Env) (url filename : string)
  : Json.t :=
  Json.Obj [ ("url", Json.Str url); ("filename", Json.Str filename);
             ("timestamp", Json.Str (DownloadManager.timestamp env));
             ("userAgent", Json.Str (DownloadManager.userAgent env));
             ("platform", Json.Str (DownloadManager.platform env));
             ("referrer", Json.Str (DownloadManager.referrer env)) ].

Definition download_call : Type := DownloadManager.Env * string * string.

Definition track_call (storage : LocalStorage.t) (c : download_call)
  : outcome unit * LocalStorage.t :=
  let '(env, url, filename) := c in
  DownloadManager.trackDownload quota storage env url filename.

Definition track_all (storage : LocalStorage.t) (calls : list download_call)
  : LocalStorage.t :=
  fold_left (fun st c => snd (track_call st c)) calls storage.

(** The calls of the run that returned, in their order: the downloads
    that were recorded. A call that throws records nothing. *)
Fixpoint recorded (storage : LocalStorage.t) (calls : list download_call)
  : list download_call :=
  match calls with
  | [] => []
  | c :: rest =>
      match fst (track_call storage c) with
      | Returns _ => c :: recorded (snd (track_call storage c)) rest
      | Throws => recorded (snd (track_call storage c)) rest
      end
  end.

Definition track_entry (c : download_call) : Json.t :=
  let '(env, url, filename) := c in download_entry env url filename.

Definition portal_call : Type := ExamPortal.Env * string * string * string.

Definition portal_record (c : portal_call) : Json.t :=
  let '(env, id, title, type) := c in
  Json.Obj [ ("id", Json.Str id); ("title", Json.Str title);
             ("type", Json.Str type);
             ("timestamp", Json.Str (ExamPortal.timestamp env));
             ("date", Json.Str (ExamPortal.date env));
             ("time", Json.Str (ExamPortal.time env)) ].

Definition portal_track (this : ExamPortal.t) (c : portal_call) : ExamPortal.t :=
  let '(env, id, title, type) := c in
  ExamPortal.trackDownload this env id title type.

(** The effects of [retries + 1] failed attempts, the first with
    [retryCount = from]; [progress] is what each attempt shows before the
    anchor is created. *)
Fixpoint failing_effects (progress : list effect) (from : Z) (retries : nat)
  : list effect :=
  match retries with
  | O => Attempt from :: progress ++ [ConsoleError]
  | S n =>
      Attempt from :: progress
        ++ ConsoleError :: ConsoleRetry (from + 1)
        :: failing_effects progress (from + 1) n
  end.

Definition progress_of (filename : string) (options : Options) : list effect :=
  if showProgress options then [ShowProgress filename] else [].

End DownloadRuns.

(** ** Runs of the analytics tracker *)

Section AnalyticsRuns.

Import AnalyticsTracker.

Variable quota : LocalStorage.t -> string -> LocalStorage.text -> bool.
Variable parseInt : string -> option Z.
Variable JSON_text : LocalStorage.text -> string.

(** [j] is [event] with a session and a user identifier assigned. *)
Definition stamped (event : list (string * Json.t)) (j : Json.t) : Prop :=
  exists sessionId userId, j = stamp event sessionId userId.

(** The state right after the push and [saveQueue], before the length
    check. *)
Definition pushed (st : State) (j : Json.t) (storage2 : LocalStorage.t)
  : State :=
  let this := with_queue (tracker st) (queue (tracker st) ++ [j]) in
  {| tracker := this; storage := saveQueue quota this storage2;
     inflight := inflight st |}.

(** A run of [queueEvent] calls. *)
Definition queue_call : Type := Env * list (string * Json.t).

Definition enqueue (st : State) (c : queue_call) : outcome bool * State :=
  queueEvent quota parseInt JSON_text st (fst c) (snd c).

Definition enqueue_all (st : State) (calls : list queue_call) : State :=
  fold_left (fun st c => snd (enqueue st c)) calls st.

(** Every call of the run returned [true]. *)
Fixpoint all_queued (st : State) (calls : list queue_call) : Prop :=
  match calls with
  | [] => True
  | c :: rest =>
      fst (enqueue st c) = Returns true /\ all_queued (snd (enqueue st c)) rest
  end.

End AnalyticsRuns.

(** ** The storage wrapper, further *)

Section StorageVocabulary.

Import LocalStorage StorageManager.

(** What [clearExpired] removes when it comes to the key: an entry of the
    namespace that is expired, is not JSON, or is [null]. *)
Definition removable (now : Z) (storage : LocalStorage.t) (k : string) : Prop :=
  startsWith k prefix = true
  /\ match storage !! k with
     | Some (Envelope d) => expired now d = true
     | Some (Raw _) | Some Null => True
     | _ => False
     end.

(** The host enumerates the keys of the storage: [key(i)] is a key that
    is there for every index below [length], and no key is left out. *)
Definition enumerates (key_at : LocalStorage.t -> nat -> option string)
    (storage : LocalStorage.t) : Prop :=
  (forall i, (i < size storage)%nat ->
     exists k, key_at storage i = Some k /\ is_Some (storage !! k))
  /\ (forall k, is_Some (storage !! k) ->
        exists i, (i < size storage)%nat /\ key_at storage i = Some k).

(** A host for the examples: the keys in the order of the map. *)
Definition key_order (storage : LocalStorage.t) (i : nat) : option string :=
  (map_to_list storage).*1 !! i.

(** The time after which an entry written at [now] is expired; [0] and
    no time at all never pass. *)
Definition deadline (now : Z) (expires : option Z) : option Z :=
  match expires with
  | Some e => if e =? 0 then None else Some (now + e)
  | None => None
  end.

End StorageVocabulary.

(** The array without the first occurrence of the string. *)
Definition without_first (x : string) (l : list Json.t) : list Json.t :=
  match StorageManager.indexOf l x with
  | Some index => Array.splice1 l index
  | None => l
  end.


(** ** The download manager, further *)

Section DownloadVocabulary.

Import DownloadManager.

(** The effects of [failures] failed attempts that are each retried, the
    first with [retryCount = from]. *)
Fixpoint retried_effects (progress : list effect) (from : Z) (failures : nat)
  : list effect :=
  match failures with
  | O => []
  | S n =>
      Attempt from :: progress
        ++ ConsoleError :: ConsoleRetry (from + 1)
        :: retried_effects progress (from + 1) n
  end.

(** The effects of an attempt that gets as far as the click and the
    record in the history. *)
Definition clicked_effects (progress : list effect) (retryCount : Z)
    (url download : string) : list effect :=
  Attempt retryCount :: progress
    ++ [AnchorClick url download; HistorySaved; SendAnalytics].

(** The effects of [failures] attempts that click, record the download
    and then fail in [onComplete], each followed by a retry. *)
Fixpoint repeated_effects (progress : list effect) (url download : string)
    (from : Z) (failures : nat) : list effect :=
  match failures with
  | O => []
  | S n =>
      clicked_effects progress from url download
        ++ OnComplete :: ConsoleError :: ConsoleRetry (from + 1)
        :: repeated_effects progress url download (from + 1) n
  end.

(** The number of clicks on the download link. *)
Definition clicks (effects : list effect) : nat :=
  length (List.filter (fun e => match e with AnchorClick _ _ => true | _ => false end)
                      effects).

(** The number of calls of [onError]. *)
Definition onError_calls (effects : list effect) : nat :=
  length (List.filter (fun e => match e with OnError => true | _ => false end)
                      effects).

(** Every attempt of [downloadPDF] fails. The [try] block throws in three
    places: the link (created, attached and clicked), [trackDownload] and
    [onComplete]. An [onComplete] that throws fails every attempt;
    otherwise a failed attempt leaves the storage as it was, so that
    [trackDownload] throws on every attempt or on none, and the attempts
    that are made are those with [retryCount] up to [maxRetries]. *)
Definition always_fails (quota : LocalStorage.t -> string -> LocalStorage.text -> bool)
    (anchor_throws : string -> Z -> bool) (this : DownloadManager.t)
    (storage : LocalStorage.t) (env : Env) (url filename : string)
    (options : Options) : Prop :=
  onComplete options = Some true
  \/ fst (trackDownload quota storage env url filename) = Throws
  \/ forall n, retryCount options <= n
                 <= Z.max (retryCount options) (maxRetries this) ->
               anchor_throws url n = true.

(** The history under the download manager's key can be read and
    extended: it is absent, empty text or an array. *)
Definition history_readable (storage : LocalStorage.t) : Prop :=
  match storage !! "downloadHistory" with
  | None | Some (LocalStorage.Items _) => True
  | Some (LocalStorage.Raw s) => s = ""
  | _ => False
  end.

(** The name the link carries for the download. *)
Definition download_name (URL_pathname : string -> option string)
    (url filename : string) : string :=
  if String.eqb filename "" then extractFilenameFromUrl URL_pathname url
  else filename.

End DownloadVocabulary.


(** ** The analytics tracker, further *)

Section AnalyticsVocabulary.

Import AnalyticsTracker.

(** The events the tracker still owes the server: the batches that await
    an answer, oldest first, and the queue. *)
Definition pending (st : State) : list Json.t :=
  concat (inflight st) ++ queue (tracker st).

(** An action of the page itself, as opposed to the answer to a request
    and to a change of the setting. *)
Definition of_the_page (a : action) : Prop :=
  match a with
  | QueueEvent _ _ | Flush | FlushSync _ _ => True
  | Settle _ _ | SetEnabled _ => False
  end.

(** An action that delivers no event and purges none: a request that
    fails, a synchronous send that fails, and whatever else does not
    disable the tracker. *)
Definition keeps_events (a : action) : Prop :=
  match a with
  | Settle _ ok => ok = false
  | FlushSync beacon xhr =>
      beacon <> Some true
      /\ forall status, xhr = Some status -> ~ (200 <= status < 300)
  | SetEnabled value => value = true
  | QueueEvent _ _ | Flush => True
  end.

Definition is_QueueEvent (a : action) : bool :=
  match a with QueueEvent _ _ => true | _ => false end.

(** The life of a session: four hours, in milliseconds. *)
Definition session_length : Z := 4 * 60 * 60 * 1000.

End AnalyticsVocabulary.


(** ** The selection in the URL, further *)

Section FilterURLVocabulary.

Import FilterManager.

(** What one property of the selection contributes to the query string:
    nothing for ["all"], ["popular"], the empty string and the empty
    array. *)
Definition url_entry (value : Value.t) : option string :=
  if negb (Value.is_string value "all")
     && negb (Value.is_string value "popular")
     && negb (Value.is_string value "")
  then
    match value with
    | Value.Arr l => if (0 <? length l)%nat then Some (JsString.join "," l)
                     else None
    | _ => Some (Value.to_string value)
    end
  else None.

(** The query with that contribution. *)
Definition url_add (params : URLSearchParams.t) (kv : string * Value.t)
  : URLSearchParams.t :=
  match url_entry (snd kv) with
  | Some text => URLSearchParams.set params (fst kv) text
  | None => params
  end.

(** The selection with the default sort key. *)
Definition sorted_by_default (s : Selection.t) : Selection.t :=
  {| Selection.category := Selection.category s;
     Selection.grade := Selection.grade s;
     Selection.year := Selection.year s;
     Selection.subject := Selection.subject s;
     Selection.sortBy := "popular";
     Selection.tags := Selection.tags s |}.

(** The string holds no occurrence of the character. *)
Definition free_of (c : ascii) (s : string) : Prop :=
  JsString.includes s (String c "") = false.

End FilterURLVocabulary.

(** ** Sizes, further *)

Section SizeVocabulary.

(** The power of 1024 a unit of the size pattern stands for. *)
Definition unit_power (unit : string) : nat :=
  let u := JsString.toUpperCase_ascii unit in
  if String.eqb u "GB" then 3
  else if String.eqb u "MB" then 2
  else if String.eqb u "KB" then 1
  else 0.

(** [num * 1024 * ... * 1024], one product after the other. *)
Fixpoint times_1024 (power : nat) (num : Number.t) : Number.t :=
  match power with
  | O => num
  | S p => Number.mul (times_1024 p num) FilterManager.k1024
  end.

(** The digits of a fraction [.digits], and nothing for no fraction. *)
Definition fraction_digits (frac : string) : string :=
  match frac with
  | String _ f => f
  | EmptyString => ""
  end.

End SizeVocabulary.


(** ** Searching, further *)

Section SearchVocabulary.

Import SearchEngine.

Variable toLowerCase : string -> string.

(** The index entry [indexResources] makes of a resource. *)
Definition index_entry (resource : Resource.t) : IndexEntry :=
  {| id := Resource.id resource;
     title := Resource.title resource;
     description := Resource.description resource;
     subject := Resource.subject resource;
     tags := default [] (Resource.tags resource);
     grade := Resource.grade resource;
     year := Resource.year resource;
     category := Resource.category resource;
     searchText := createSearchText toLowerCase resource |}.

(** The resource matches the search term. *)
Definition found (searchTerm : string) (resource : Resource.t) : Prop :=
  matches toLowerCase (index_entry resource) searchTerm = true.

(** A filter lets a value through when it is missing, empty or that
    value. *)
Definition passes (wanted : option string) (actual : string) : Prop :=
  match wanted with
  | Some v => v = "" \/ actual = v
  | None => True
  end.

Definition accepted (filters : option Filters) (resource : Resource.t) : Prop :=
  match filters with
  | None => True
  | Some f =>
      passes (f_category f) (Resource.category resource)
      /\ passes (f_grade f) (Resource.grade resource)
      /\ passes (f_year f) (Resource.year resource)
      /\ passes (f_subject f) (Resource.subject resource)
  end.

End SearchVocabulary.

(** The filters the controller hands to [search]: the axes of the
    selection as they are. *)
Definition search_filters (s : Selection.t) : SearchEngine.Filters :=
  {| SearchEngine.f_category := Some (Selection.category s);
     SearchEngine.f_grade := Some (Selection.grade s);
     SearchEngine.f_year := Some (Selection.year s);
     SearchEngine.f_subject := Some (Selection.subject s) |}.

(** * Properties *)

(** ** Search engine *)

Section SearchEngineFacts.

Variable toLowerCase : string -> string.
Variable trim : string -> string.

Lemma indexResources_indexed this resources :
  SearchEngine.isIndexed (SearchEngine.indexResources toLowerCase this resources) = true
  /\ SearchEngine.fullResources (SearchEngine.indexResources toLowerCase this resources)
     = Some resources.
Proof. split; reflexivity. Qed.

(** C8. On an indexed dataset a search for the empty string returns the
    empty list unless [returnAll] is set, and then the full list of
    indexed resources, whatever filters and limit the options carry. *)
Theorem search_empty_query :
  forall (this : SearchEngine.t) (resources : list Resource.t)
         (options : SearchEngine.Options),
    let engine := SearchEngine.indexResources toLowerCase this resources in
    SearchEngine.search toLowerCase trim engine "" options
    = Returns (if SearchEngine.returnAll options then resources else [])
    /\ SearchEngine.search toLowerCase trim engine ""
         SearchEngine.default_options = Returns [].
Proof.
  intros this resources options engine.
  split; unfold SearchEngine.search; simpl; reflexivity.
Qed.

End SearchEngineFacts.

(** ** Filter engine: the selection and the URL *)

Section FilterURLFacts.

Import FilterManager.

(** C5. From the default selection, [setFilter("grade", "10")] installs
    the query string [?grade=10], and [initFromURL] on that URL yields the
    selection with grade ["10"] and every other axis at its default; the
    URL stays as it is. *)
Theorem setFilter_grade_roundtrip :
  forall (pathname search0 : string) (callbacks : list nat) (other : FilterManager.t),
    let this := {| activeFilters := default_filters;
                   filterCallbacks := callbacks |} in
    let '(this1, location1, _) :=
      setFilter this (Location.mk pathname search0) "grade" (Value.Str "10") in
    Location.search location1 = "?grade=10"
    /\ activeFilters (fst (initFromURL other location1))
       = [ ("category", Value.Str "all"); ("grade", Value.Str "10");
           ("year", Value.Str "all"); ("subject", Value.Str "all");
           ("sortBy", Value.Str "popular"); ("tags", Value.Arr []) ]
    /\ activeFilters (fst (initFromURL other location1)) = activeFilters this1
    /\ snd (initFromURL other location1) = location1.
Proof.
  intros pathname search0 callbacks other.
  vm_compute. repeat split.
Qed.

(** C6, at the input that separates code and claim. A sort key other than
    the default is written to the URL under the name [sortBy]; the query
    string has no [sort] parameter, so [initFromURL], which reads [sort],
    comes back with the default sort key. *)
Theorem sort_key_written_as_sortBy :
  forall (pathname search0 : string),
    let '(this1, location1, _) :=
      setFilter FilterManager.new (Location.mk pathname search0)
                "sortBy" (Value.Str "newest") in
    Location.search location1 = "?sortBy=newest"
    /\ URLSearchParams.get (URLSearchParams.parse (Location.search location1)) "sort"
       = None
    /\ get (activeFilters (fst (initFromURL this1 location1))) "sortBy"
       = Value.Str "popular".
Proof.
  intros pathname search0. vm_compute. repeat split.
Qed.

End FilterURLFacts.

(** ** File sizes: the parser and the formatter *)

Section FileSizeFacts.

Import FilterManager.

Lemma append_String a p r : String a p +:+ r = String a (p +:+ r).
Proof. reflexivity. Qed.

Lemma append_assoc (a b c : string) : (a +:+ b) +:+ c = a +:+ (b +:+ c).
Proof.
  induction a as [|x a IH]; [reflexivity|].
  rewrite !append_String. f_equal. exact IH.
Qed.

Lemma span_digits s a b :
  JsString.span JsString.is_digit s = (a, b) ->
  s = a +:+ b /\ digits a = true.
Proof.
  revert a b. induction s as [|c r IH]; intros a b H; simpl in H.
  - inversion H. split; reflexivity.
  - destruct (JsString.is_digit c) eqn:Hc.
    + destruct (JsString.span JsString.is_digit r) as [a' b'] eqn:Hr.
      inversion H; subst. destruct (IH _ _ eq_refl) as [-> Hd].
      split; [reflexivity | simpl; rewrite Hc; exact Hd].
    + inversion H. split; reflexivity.
Qed.

Lemma strip_prefix_app p s r :
  JsString.strip_prefix p s = Some r -> s = p +:+ r.
Proof.
  revert s. induction p as [|a p IH]; intros s H; simpl in H.
  - inversion H. reflexivity.
  - destruct s as [|b s]; [discriminate|].
    destruct (Ascii.eqb a b) eqn:E; [|discriminate].
    apply Ascii.eqb_eq in E. subst b. rewrite append_String. f_equal. apply IH, H.
Qed.

Lemma drop_one_of_app ws s r :
  JsString.drop_one_of ws s = Some r -> exists w, In w ws /\ s = w +:+ r.
Proof.
  induction ws as [|w ws IH]; simpl; [discriminate|].
  destruct (JsString.strip_prefix w s) as [r'|] eqn:E.
  - intros H. inversion H; subst. exists w. split; [now left|].
    apply strip_prefix_app, E.
  - intros H. destruct (IH H) as (w' & Hin & Hs). exists w'. split; [now right | exact Hs].
Qed.

Lemma skip_space_fuel_app fuel s :
  exists sp, spaces sp /\ s = sp +:+ JsString.skip_space_fuel fuel s.
Proof.
  revert s. induction fuel as [|fuel IH]; intros s;
    cbn [JsString.skip_space_fuel].
  - exists "". split; [constructor | reflexivity].
  - destruct (JsString.drop_one_of JsString.white_space s) as [r|] eqn:E.
    + destruct (drop_one_of_app _ _ _ E) as (w & Hw & Hs).
      destruct (IH r) as (sp & Hsp & Hr).
      exists (w +:+ sp). split; [constructor; assumption|].
      rewrite append_assoc, <- Hr. exact Hs.
    + exists "". split; [constructor | reflexivity].
Qed.

(** A string the matcher accepts is a word of the grammar. *)
Lemma match_size_sound s int frac unit :
  match_size s = Some (int, frac, unit) -> size_pattern s.
Proof.
  unfold match_size.
  destruct (JsString.span JsString.is_digit s) as [i r1] eqn:Hspan.
  destruct (span_digits _ _ _ Hspan) as [-> Hi].
  destruct (String.eqb i "") eqn:Hi0; [discriminate|].
  apply String.eqb_neq in Hi0.
  set (fr := match r1 with
             | String "."%char r =>
                 let '(f, r') := JsString.span JsString.is_digit r in
                 if String.eqb f "" then ("", r1) else (f, r')
             | _ => ("", r1)
             end).
  assert (Hfr : exists fracs,
             r1 = fracs +:+ snd fr
             /\ (fracs = "" \/ exists f, fracs = "." +:+ f /\ f <> "" /\ digits f = true)).
  { subst fr. destruct r1 as [|c r]; [exists ""; split; [reflexivity | now left]|].
    destruct (Ascii.eqb c ".") eqn:Hc.
    - apply Ascii.eqb_eq in Hc. subst c.
      destruct (JsString.span JsString.is_digit r) as [f r'] eqn:Hf.
      destruct (span_digits _ _ _ Hf) as [-> Hd].
      destruct (String.eqb f "") eqn:Hf0.
      + exists "". split; [reflexivity | now left].
      + apply String.eqb_neq in Hf0. exists ("." +:+ f). split; [reflexivity|].
        right. exists f. auto.
    - exists "". split; [|now left].
      destruct c as [[] [] [] [] [] [] [] []]; try reflexivity; discriminate. }
  destruct fr as [f r2]. simpl in Hfr. destruct Hfr as (fracs & -> & Hfracs).
  destruct (is_unit (JsString.skip_space r2)) eqn:Hu; [|discriminate].
  intros _.
  destruct (skip_space_fuel_app (String.length r2) r2) as (sp & Hsp & Hr2).
  exists i, fracs, sp, (JsString.skip_space r2).
  split; [|auto].
  unfold JsString.skip_space. rewrite <- Hr2. reflexivity.
Qed.

Lemma span_all_digits a b :
  digits a = true -> head_not_digit b ->
  JsString.span JsString.is_digit (a +:+ b) = (a, b).
Proof.
  intros Ha Hb. induction a as [|c a IH].
  - destruct b as [|c r]; [reflexivity|]. simpl in *. rewrite Hb. reflexivity.
  - simpl in Ha. apply andb_prop in Ha. destruct Ha as [Hc Ha].
    rewrite append_String. cbn [JsString.span]. rewrite Hc, (IH Ha). reflexivity.
Qed.

Lemma is_unit_head u :
  is_unit u = true ->
  exists c r, u = String c r
    /\ In c ["b"; "B"; "k"; "K"; "m"; "M"; "g"; "G"]%char.
Proof.
  destruct u as [|c r]; [discriminate|]. intros H. exists c, r.
  split; [reflexivity|].
  destruct c as [[] [] [] [] [] [] [] []];
    try (cbn in H; discriminate H); cbn; auto 10.
Qed.

Lemma drop_one_of_unit u :
  is_unit u = true -> JsString.drop_one_of JsString.white_space u = None.
Proof.
  intros H. destruct (is_unit_head u H) as (c & r & -> & Hc).
  cbn in Hc. repeat (destruct Hc as [<-|Hc]; [reflexivity|]). destruct Hc.
Qed.

Lemma drop_one_of_white_space w r :
  In w JsString.white_space ->
  JsString.drop_one_of JsString.white_space (w +:+ r) = Some r.
Proof.
  intros Hw. cbn in Hw.
  repeat (destruct Hw as [<-|Hw]; [reflexivity|]). destruct Hw.
Qed.

Lemma white_space_length w :
  In w JsString.white_space -> (1 <= String.length w)%nat.
Proof.
  intros Hw. cbn in Hw.
  repeat (destruct Hw as [<-|Hw]; [simpl; lia|]). destruct Hw.
Qed.

Lemma length_append (a b : string) :
  String.length (a +:+ b) = (String.length a + String.length b)%nat.
Proof. induction a as [|c a IH]; simpl; [reflexivity | rewrite IH; reflexivity]. Qed.

Lemma skip_space_fuel_spaces sp u :
  spaces sp -> JsString.drop_one_of JsString.white_space u = None ->
  forall fuel, (String.length sp <= fuel)%nat ->
    JsString.skip_space_fuel fuel (sp +:+ u) = u.
Proof.
  intros Hsp Hu. induction Hsp as [|w r Hw Hr IH]; intros fuel Hfuel.
  - destruct fuel; cbn [JsString.skip_space_fuel]; [reflexivity|].
    change ("" +:+ u) with u. rewrite Hu. reflexivity.
  - pose proof (white_space_length w Hw) as Hlen.
    rewrite length_append in Hfuel.
    destruct fuel as [|fuel]; [lia|].
    cbn [JsString.skip_space_fuel].
    rewrite append_assoc, drop_one_of_white_space by exact Hw.
    apply IH. lia.
Qed.

Lemma skip_space_spaces sp u :
  spaces sp -> is_unit u = true -> JsString.skip_space (sp +:+ u) = u.
Proof.
  intros Hsp Hu. unfold JsString.skip_space.
  apply skip_space_fuel_spaces; [exact Hsp | apply drop_one_of_unit, Hu|].
  rewrite length_append. lia.
Qed.

(** What follows the number starts with neither a digit nor a point. *)
Lemma spaces_unit_head sp u :
  spaces sp -> is_unit u = true ->
  exists c r, sp +:+ u = String c r
              /\ JsString.is_digit c = false /\ c <> "."%char.
Proof.
  intros Hsp Hu. destruct Hsp as [|w r Hw Hr].
  - destruct (is_unit_head u Hu) as (c & r & -> & Hc).
    exists c, r. split; [reflexivity|].
    cbn in Hc. repeat (destruct Hc as [<-|Hc]; [split; [reflexivity|discriminate]|]).
    destruct Hc.
  - cbn in Hw.
    repeat (destruct Hw as [<-|Hw];
            [eexists; eexists; split; [reflexivity|split; [reflexivity|discriminate]]|]).
    destruct Hw.
Qed.

(** A word of the grammar is accepted, with the captures of the greedy
    reading. *)
Lemma match_size_complete int frac sp unit :
  int <> "" -> digits int = true ->
  (frac = "" \/ exists f, frac = "." +:+ f /\ f <> "" /\ digits f = true) ->
  spaces sp -> is_unit unit = true ->
  match_size (int +:+ frac +:+ sp +:+ unit)
  = Some (int, match frac with String _ f => f | EmptyString => "" end, unit).
Proof.
  intros Hne Hint Hfrac Hsp Hunit.
  destruct (spaces_unit_head sp unit Hsp Hunit) as (c & r & Hhead & Hc & Hdot).
  unfold match_size.
  assert (Hrest : head_not_digit (frac +:+ sp +:+ unit)).
  { destruct Hfrac as [->|(f & -> & _)]; [|reflexivity].
    change ("" +:+ sp +:+ unit) with (sp +:+ unit). rewrite Hhead. exact Hc. }
  rewrite (span_all_digits _ _ Hint Hrest).
  apply String.eqb_neq in Hne. rewrite Hne.
  destruct Hfrac as [->|(f & -> & Hf & Hdf)].
  - change ("" +:+ sp +:+ unit) with (sp +:+ unit). rewrite Hhead.
    replace (match String c r with
             | String "."%char r0 =>
                 let '(f, r') := JsString.span JsString.is_digit r0 in
                 if String.eqb f "" then ("", String c r) else (f, r')
             | _ => ("", String c r)
             end) with ("", String c r).
    2:{ destruct c as [[] [] [] [] [] [] [] []]; try reflexivity; congruence. }
    rewrite <- Hhead, (skip_space_spaces _ _ Hsp Hunit), Hunit. reflexivity.
  - change (("." +:+ f) +:+ sp +:+ unit) with (String "." (f +:+ sp +:+ unit)).
    cbv iota beta.
    assert (Hrest2 : head_not_digit (sp +:+ unit)) by (rewrite Hhead; exact Hc).
    rewrite (span_all_digits _ _ Hdf Hrest2).
    apply String.eqb_neq in Hf. rewrite Hf.
    rewrite (skip_space_spaces _ _ Hsp Hunit), Hunit. reflexivity.
Qed.

Lemma match_size_iff s : match_size s <> None <-> size_pattern s.
Proof.
  split.
  - destruct (match_size s) as [[[int frac] unit]|] eqn:Hm; [|congruence].
    intros _. eapply match_size_sound, Hm.
  - intros (int & frac & sp & unit & -> & Hne & Hd & Hfrac & Hsp & Hu).
    rewrite (match_size_complete int frac sp unit Hne Hd Hfrac Hsp Hu).
    discriminate.
Qed.

Lemma not_size_pattern_bogus : ~ size_pattern "bogus".
Proof.
  intros (int & frac & sp & unit & Hs & Hne & Hd & _).
  destruct int as [|c int]; [congruence|].
  simpl in Hs. inversion Hs; subst c. simpl in Hd. discriminate.
Qed.

(** C7. ["15.2 MB"] parses to the Number 15.2 times 1024 times 1024 (both
    products are exact: the result is 15.2, that is
    8556839292003942 * 2^-49, scaled by 2^20); a string that is not a word
    of the size pattern, such as ["bogus"], and a missing size give 0. *)
Theorem parseFileSize_values :
  parseFileSize (Some "15.2 MB")
  = Number.mul (Number.mul (Number.of_decimal 152 1) (Number.of_Z 1024))
               (Number.of_Z 1024)
  /\ Number.of_decimal 152 1 = S754_finite false 8556839292003942 (-49)
  /\ parseFileSize (Some "15.2 MB") = S754_finite false 8556839292003942 (-29)
  /\ (forall s, ~ size_pattern s -> parseFileSize (Some s) = Number.zero)
  /\ parseFileSize (Some "bogus") = Number.zero
  /\ parseFileSize None = Number.zero.
Proof.
  split; [vm_compute; reflexivity|].
  split; [vm_compute; reflexivity|].
  split; [vm_compute; reflexivity|].
  split; [|split; vm_compute; reflexivity].
  intros s Hs. unfold parseFileSize.
  destruct (String.eqb s ""); [reflexivity|].
  destruct (match_size s) as [[[int frac] unit]|] eqn:Hm; [|reflexivity].
  exfalso. apply Hs. eapply match_size_sound, Hm.
Qed.

Lemma parseFileSize_values_witness :
  ~ size_pattern "bogus" /\ parseFileSize (Some "bogus") = Number.zero.
Proof.
  split; [exact not_size_pattern_bogus|].
  apply (proj1 (proj2 (proj2 (proj2 parseFileSize_values)))).
  exact not_size_pattern_bogus.
Defined.

Lemma digit_value_of_digit d :
  0 <= d < 10 ->
  JsString.digit_value (ascii_of_nat (48 + Z.to_nat d)) = d
  /\ JsString.is_digit (ascii_of_nat (48 + Z.to_nat d)) = true.
Proof.
  intros Hd. unfold JsString.digit_value, JsString.is_digit.
  rewrite nat_ascii_embedding by lia. split; [lia|].
  apply andb_true_intro. split; apply Nat.leb_le; lia.
Qed.

Lemma decimal_fuel_value fuel n acc :
  0 <= n < 2 ^ Z.of_nat fuel ->
  JsString.digits_value_from 0 (JsString.decimal_fuel fuel n acc)
  = JsString.digits_value_from n acc.
Proof.
  revert n acc. induction fuel as [|fuel IH]; intros n acc Hn.
  - simpl in *. replace n with 0 by lia. reflexivity.
  - cbn [JsString.decimal_fuel].
    assert (Hd : 0 <= n mod 10 < 10) by (apply Z.mod_pos_bound; lia).
    destruct (digit_value_of_digit _ Hd) as [Hv _].
    assert (Hdiv : 0 <= n / 10 < 2 ^ Z.of_nat fuel).
    { rewrite Nat2Z.inj_succ, Z.pow_succ_r in Hn by lia.
      split; [apply Z.div_pos; lia|].
      apply Z.div_lt_upper_bound; lia. }
    destruct (n / 10 =? 0) eqn:E.
    + apply Z.eqb_eq in E. cbn [JsString.digits_value_from]. rewrite Hv.
      f_equal. pose proof (Z.div_mod n 10 ltac:(lia)). lia.
    + rewrite IH by exact Hdiv. cbn [JsString.digits_value_from]. rewrite Hv.
      f_equal. pose proof (Z.div_mod n 10 ltac:(lia)). lia.
Qed.

(** The digits [decimal] prints read back as the number. *)
Lemma decimal_value n : 0 <= n -> JsString.digits_value (JsString.decimal n) = n.
Proof.
  intros Hn. unfold JsString.digits_value, JsString.decimal.
  rewrite decimal_fuel_value; [reflexivity|].
  split; [exact Hn|].
  rewrite Nat2Z.inj_succ, Z2Nat.id by apply Z.log2_nonneg.
  destruct (Z.eq_dec n 0) as [->|Hne]; [reflexivity|].
  apply Z.log2_spec. lia.
Qed.

Lemma bytes_label_unparsed_all :
  forallb bytes_label_unparsed (List.map Z.of_nat (seq 1 1023)) = true.
Proof. vm_compute. reflexivity. Qed.

(** C9. For a byte count from 1 to 1023 the formatter prints the count
    followed by the unit word [Bytes], which is no unit of the size
    pattern, so the parser maps the label to 0. *)
Theorem formatFileSize_bytes_not_parsed :
  forall n : Z, 1 <= n <= 1023 ->
    DownloadManager.formatFileSize n = JsString.decimal n +:+ " Bytes"
    /\ parseFileSize (Some (DownloadManager.formatFileSize n)) = Number.zero.
Proof.
  intros n Hn.
  pose proof bytes_label_unparsed_all as Hall.
  rewrite forallb_forall in Hall.
  assert (Hin : In n (List.map Z.of_nat (seq 1 1023))).
  { replace n with (Z.of_nat (Z.to_nat n)) by lia.
    apply in_map, in_seq. lia. }
  specialize (Hall n Hin). unfold bytes_label_unparsed in Hall.
  apply andb_prop in Hall. destruct Hall as [H1 H2].
  apply String.eqb_eq in H1. split; [exact H1|].
  destruct (parseFileSize (Some (DownloadManager.formatFileSize n)))
    as [[]| | |]; try discriminate. reflexivity.
Qed.

Lemma formatFileSize_bytes_not_parsed_witness :
  DownloadManager.formatFileSize 512 = "512 Bytes"
  /\ parseFileSize (Some (DownloadManager.formatFileSize 512)) = Number.zero.
Proof. apply (formatFileSize_bytes_not_parsed 512). lia. Defined.

End FileSizeFacts.

(** ** Capped histories *)

Section CappedHistory.

Context {A : Type}.

Lemma truncate_is_take (cap : nat) (l : list A) :
  (if (cap <? length l)%nat then take cap l else l) = take cap l.
Proof.
  destruct (Nat.ltb_spec cap (length l)) as [H|H]; [reflexivity|].
  symmetry. apply take_ge. exact H.
Qed.

Lemma take_app_take (cap : nat) (l k : list A) :
  take cap (l ++ take cap k) = take cap (l ++ k).
Proof.
  rewrite !firstn_app, firstn_firstn.
  f_equal. f_equal. lia.
Qed.

Lemma push_capped_length cap (h : list A) (x : A) : (length (push_capped cap h x) <= cap)%nat.
Proof. unfold push_capped. rewrite length_take. lia. Qed.

(** The newest entries first, the oldest dropped beyond the cap. *)
Lemma push_capped_fold cap (xs : list A) (h : list A) :
  xs <> [] ->
  fold_left (push_capped cap) xs h = take cap (rev xs ++ h).
Proof.
  revert h. induction xs as [|x xs IH]; intros h Hne; [congruence|].
  simpl. destruct xs as [|y ys].
  - reflexivity.
  - rewrite IH by discriminate. unfold push_capped.
    rewrite take_app_take. rewrite <- app_assoc. reflexivity.
Qed.

Lemma push_capped_fold_length cap (xs : list A) (h : list A) :
  (length h <= cap)%nat ->
  (length (fold_left (push_capped cap) xs h) <= cap)%nat.
Proof.
  revert h. induction xs as [|x xs IH]; intros h Hh; simpl; [exact Hh|].
  apply IH, push_capped_length.
Qed.

End CappedHistory.

(** ** Storage wrapper *)

Section StorageFacts.

Import LocalStorage StorageManager.

Variable quota : LocalStorage.t -> string -> text -> bool.
Variable key_at : LocalStorage.t -> nat -> option string.

Lemma clear_one_lookup now (storage : LocalStorage.t) key cleared k :
  (fst (clear_one now storage key cleared)) !! k = storage !! k
  \/ (fst (clear_one now storage key cleared)) !! k = None.
Proof.
  unfold clear_one, removeItem, getItem.
  repeat case_match; simpl; auto.
  all: destruct (decide (key = k)) as [Heq|Hne].
  all: try (subst k; right; apply lookup_delete_eq).
  all: try (left; apply lookup_delete_ne; exact Hne).
Qed.

Lemma clear_loop_lookup now storage i cleared k :
  (fst (clear_loop key_at now storage i cleared)) !! k = storage !! k
  \/ (fst (clear_loop key_at now storage i cleared)) !! k = None.
Proof.
  funelim (clear_loop key_at now storage i cleared).
  - left; reflexivity.
  - destruct (H k) as [Hk|Hk]; [|right; exact Hk].
    rewrite Hk. apply clear_one_lookup.
  - left; reflexivity.
Qed.

(** [clearExpired] only removes entries. *)
Lemma clearExpired_lookup storage now k :
  (fst (clearExpired key_at storage now)) !! k = storage !! k
  \/ (fst (clearExpired key_at storage now)) !! k = None.
Proof. apply clear_loop_lookup. Qed.

(** [set] either stores the envelope of the value, or fails and leaves
    every entry as it was or removed. *)
Lemma set_cases storage now key v version :
  let '(storage', ok) := set quota key_at storage now key v None version in
  (ok = true
   /\ exists d, storage' !! (prefix +:+ key) = Some (Envelope d)
                /\ value d = v /\ expires d = None)
  \/ (ok = false
      /\ forall k, storage' !! k = storage !! k \/ storage' !! k = None).
Proof.
  unfold set, setItem.
  destruct (quota storage _ _).
  - left. split; [reflexivity|]. eexists. rewrite lookup_insert_eq. eauto.
  - destruct (quota (fst (clearExpired key_at storage now)) _ _).
    + left. split; [reflexivity|]. eexists. rewrite lookup_insert_eq. eauto.
    + right. split; [reflexivity|]. apply clearExpired_lookup.
Qed.

(** *** The wrapper's download history *)

Lemma read_array_cases storage now key :
  (read_array storage now key = stored_array storage key
   /\ snd (get storage now key (Json.Arr [])) = storage)
  \/ (read_array storage now key = []
      /\ snd (get storage now key (Json.Arr [])) = delete (prefix +:+ key) storage).
Proof.
  unfold read_array, stored_array, get, getItem, remove, removeItem.
  destruct (storage !! (prefix +:+ key)) as [[s| |s|d|l]|]; simpl; auto.
  destruct (expired now d); simpl; auto.
Qed.

Lemma addToDownloadHistory_cases storage now iso item :
  let '(result, storage') :=
    addToDownloadHistory quota key_at storage now iso item in
  (result = Returns true
   /\ exists d, storage' !! (prefix +:+ "download_history") = Some (Envelope d)
        /\ value d
           = Json.Arr (take 100 (history_entry iso item
                                  :: read_array storage now "download_history"))
        /\ expires d = None)
  \/ (result <> Returns true
      /\ forall k, storage' !! k = storage !! k \/ storage' !! k = None).
Proof.
  unfold addToDownloadHistory, getDownloadHistory.
  pose proof (read_array_cases storage now "download_history") as Hread.
  assert (Hra : read_array storage now "download_history"
                = match fst (get storage now "download_history" (Json.Arr [])) with
                  | Some (Json.Arr l) => l
                  | _ => []
                  end) by reflexivity.
  destruct (get storage now "download_history" (Json.Arr [])) as [[v|] storage1] eqn:Hget;
    simpl in Hread, Hra.
  2:{ right. split; [discriminate|].
      unfold get, getItem in Hget.
      repeat case_match; inversion Hget; subst; auto. }
  assert (Hsub : forall k, storage1 !! k = storage !! k \/ storage1 !! k = None).
  { intros k. destruct Hread as [[_ ->]|[_ ->]]; [now left|].
    destruct (decide (prefix +:+ "download_history" = k)) as [<-|Hne];
      [right; apply lookup_delete_eq | left; apply lookup_delete_ne; exact Hne]. }
  destruct v as [|b|n|s|history|props]; try (right; split; [discriminate | exact Hsub]).
  rewrite truncate_is_take.
  pose proof (set_cases storage1 now "download_history"
                (Json.Arr (take 100 (history_entry iso item :: history))) None) as Hset.
  unfold history_entry in *.
  destruct (set quota key_at storage1 now "download_history" _ None None)
    as [storage2 ok].
  destruct Hset as [[-> (d & Hd & Hv & He)]|[-> Hfail]].
  - left. split; [reflexivity|]. exists d. split; [exact Hd|]. split; [|exact He].
    rewrite Hv, Hra. reflexivity.
  - right. split; [discriminate|]. intros k.
    destruct (Hfail k) as [Hk|Hk]; [|right; exact Hk].
    rewrite Hk. apply Hsub.
Qed.

Lemma stored_array_shrinks (storage storage' : LocalStorage.t) key :
  (forall k, storage' !! k = storage !! k \/ storage' !! k = None) ->
  stored_array storage' key = stored_array storage key
  \/ stored_array storage' key = [].
Proof.
  intros H. unfold stored_array.
  destruct (H (prefix +:+ key)) as [-> | ->]; auto.
Qed.

(** One recording keeps the stored history within 100 entries. *)
Lemma addToDownloadHistory_cap storage now iso item :
  (length (stored_array storage "download_history") <= 100)%nat ->
  (length (stored_array
             (snd (addToDownloadHistory quota key_at storage now iso item))
             "download_history") <= 100)%nat.
Proof.
  intros Hcap.
  pose proof (addToDownloadHistory_cases storage now iso item) as H.
  destruct (addToDownloadHistory quota key_at storage now iso item)
    as [result storage']. simpl.
  destruct H as [[_ (d & Hd & Hv & _)]|[_ Hsub]].
  - unfold stored_array. rewrite Hd, Hv, length_take. lia.
  - destruct (stored_array_shrinks _ _ "download_history" Hsub) as [-> | ->];
      [exact Hcap | simpl; lia].
Qed.

(** A history written by the wrapper carries no expiry, so it reads back
    as it is stored. *)
Lemma read_array_no_expiry storage now key d :
  storage !! (prefix +:+ key) = Some (Envelope d) ->
  expires d = None ->
  read_array storage now key = stored_array storage key.
Proof.
  intros Hd He. unfold read_array, stored_array, get, getItem, expired.
  rewrite Hd, He. reflexivity.
Qed.

Lemma add_all_cap storage calls :
  (length (stored_array storage "download_history") <= 100)%nat ->
  (length (stored_array (add_all quota key_at storage calls) "download_history") <= 100)%nat.
Proof.
  revert storage. induction calls as [|[[now iso] item] calls IH];
    intros storage Hcap; simpl; [exact Hcap|].
  apply IH, addToDownloadHistory_cap, Hcap.
Qed.

Lemma add_all_newest_first storage c calls :
  all_added quota key_at storage (c :: calls) ->
  stored_array (add_all quota key_at storage (c :: calls)) "download_history"
  = take 100 (rev (List.map call_entry (c :: calls))
              ++ read_array storage (fst (fst c)) "download_history").
Proof.
  revert storage c. induction calls as [|c' calls IH]; intros storage c [Hc Hrest].
  - destruct c as [[now iso] item]. simpl in *.
    pose proof (addToDownloadHistory_cases storage now iso item) as H.
    destruct (addToDownloadHistory quota key_at storage now iso item)
      as [result storage']. simpl in *.
    destruct H as [[_ (d & Hd & Hv & _)]|[Hno _]]; [|congruence].
    unfold stored_array. rewrite Hd, Hv. reflexivity.
  - change (add_all quota key_at storage (c :: c' :: calls))
      with (add_all quota key_at (snd (add_call quota key_at storage c)) (c' :: calls)).
    rewrite (IH _ _ Hrest).
    destruct c as [[now iso] item]. simpl in Hc. simpl fst.
    unfold add_call at 1.
    pose proof (addToDownloadHistory_cases storage now iso item) as H.
    destruct (addToDownloadHistory quota key_at storage now iso item)
      as [result storage']. cbn [fst snd] in *.
    destruct H as [[_ (d & Hd & Hv & He)]|[Hno _]]; [|congruence].
    rewrite (read_array_no_expiry _ _ _ _ Hd He).
    unfold stored_array. rewrite Hd, Hv.
    rewrite take_app_take. f_equal.
    change (List.map call_entry ((now, iso, item) :: c' :: calls))
      with (history_entry iso item :: List.map call_entry (c' :: calls)).
    change (rev (history_entry iso item :: List.map call_entry (c' :: calls)))
      with (rev (List.map call_entry (c' :: calls)) ++ [history_entry iso item]).
    rewrite <- app_assoc. reflexivity.
Qed.
End StorageFacts.

(** ** The download manager's and the controller's histories *)

Section DownloadHistoryFacts.

Import LocalStorage.

Variable quota : LocalStorage.t -> string -> text -> bool.

Lemma trackDownload_cases storage env url filename :
  let '(result, storage') :=
    DownloadManager.trackDownload quota storage env url filename in
  (result = Returns tt
   /\ storage' = <["downloadHistory" :=
                    Items (take 1000 (download_entry env url filename
                                      :: raw_history storage))]> storage)
  \/ (result = Throws /\ storage' = storage).
Proof.
  unfold DownloadManager.trackDownload, raw_history, getItem, setItem,
    download_entry.
  destruct (storage !! "downloadHistory") as [[s| |s|d|l]|];
    try (destruct (String.eqb s "") eqn:Hs);
    try (right; split; reflexivity);
    rewrite truncate_is_take;
    match goal with
    | |- context [quota ?a ?b ?c] => destruct (quota a b c)
    end; auto.
Qed.

Lemma track_call_cap storage c :
  (length (raw_history storage) <= 1000)%nat ->
  (length (raw_history (snd (track_call quota storage c))) <= 1000)%nat.
Proof.
  intros Hcap. destruct c as [[env url] filename]. unfold track_call.
  pose proof (trackDownload_cases storage env url filename) as H.
  destruct (DownloadManager.trackDownload quota storage env url filename)
    as [result storage']. cbn [snd].
  destruct H as [[_ ->]|[_ ->]]; [|exact Hcap].
  unfold raw_history at 1. rewrite lookup_insert_eq, length_take. lia.
Qed.

Lemma track_all_cap storage calls :
  (length (raw_history storage) <= 1000)%nat ->
  (length (raw_history (track_all quota storage calls)) <= 1000)%nat.
Proof.
  revert storage. induction calls as [|c calls IH]; intros storage Hcap;
    [exact Hcap|].
  apply IH, track_call_cap, Hcap.
Qed.

Lemma track_call_Throws storage c :
  fst (track_call quota storage c) = Throws ->
  snd (track_call quota storage c) = storage.
Proof.
  destruct c as [[env url] filename]. unfold track_call.
  pose proof (trackDownload_cases storage env url filename) as H.
  destruct (DownloadManager.trackDownload quota storage env url filename)
    as [result storage']. cbn [fst snd].
  destruct H as [[-> _]|[_ ->]]; [discriminate | reflexivity].
Qed.

Lemma track_call_Returns storage c u :
  fst (track_call quota storage c) = Returns u ->
  raw_history (snd (track_call quota storage c))
  = take 1000 (track_entry c :: raw_history storage).
Proof.
  destruct c as [[env url] filename]. unfold track_call.
  pose proof (trackDownload_cases storage env url filename) as H.
  destruct (DownloadManager.trackDownload quota storage env url filename)
    as [result storage']. cbn [fst snd].
  destruct H as [[_ ->]|[-> _]]; [|discriminate]. intros _.
  unfold raw_history at 1. rewrite lookup_insert_eq. reflexivity.
Qed.

(** The history after a run is made of the calls that returned, the last
    of them first. *)
Lemma track_all_newest_first storage calls :
  (recorded quota storage calls = [] ->
   track_all quota storage calls = storage)
  /\ (recorded quota storage calls <> [] ->
      raw_history (track_all quota storage calls)
      = take 1000 (rev (List.map track_entry (recorded quota storage calls))
                   ++ raw_history storage)).
Proof.
  revert storage. induction calls as [|c calls IH]; intros storage.
  - split; [reflexivity | intros H; now destruct H].
  - change (track_all quota storage (c :: calls))
      with (track_all quota (snd (track_call quota storage c)) calls).
    cbn [recorded].
    destruct (IH (snd (track_call quota storage c))) as [IHnone IHsome].
    destruct (fst (track_call quota storage c)) as [u|] eqn:Hc.
    + split; [discriminate|]. intros _.
      pose proof (track_call_Returns storage c u Hc) as Hstep.
      destruct (recorded quota (snd (track_call quota storage c)) calls)
        as [|c' rest] eqn:Hrest.
      * rewrite (IHnone eq_refl). exact Hstep.
      * rewrite (IHsome ltac:(discriminate)), Hstep.
        rewrite take_app_take. f_equal.
        change (List.map track_entry (c :: c' :: rest))
          with (track_entry c :: List.map track_entry (c' :: rest)).
        change (rev (track_entry c :: List.map track_entry (c' :: rest)))
          with (rev (List.map track_entry (c' :: rest)) ++ [track_entry c]).
        rewrite <- app_assoc. reflexivity.
    + rewrite (track_call_Throws storage c Hc) in *.
      split; assumption.
Qed.

(** A call returns when the stored history can be read and the host
    takes the new one, and only then. *)
Lemma track_call_records storage c :
  fst (track_call quota storage c) = Returns tt
  <-> history_readable storage
      /\ quota storage "downloadHistory"
               (Items (take 1000 (track_entry c :: raw_history storage)))
         = true.
Proof.
  destruct c as [[env url] filename].
  unfold track_call, DownloadManager.trackDownload, history_readable,
    raw_history, getItem, setItem, track_entry, download_entry.
  destruct (storage !! "downloadHistory") as [[s| |s|d|l]|].
  - destruct (String.eqb_spec s "") as [->|Hs].
    + rewrite truncate_is_take. destruct (quota _ _ _); cbn [fst].
      * split; [split; reflexivity | reflexivity].
      * split; [discriminate | intros [_ H]; discriminate H].
    + cbn [fst]. split; [discriminate | intros [H _]; contradiction].
  - cbn [fst]. split; [discriminate | intros [[] _]].
  - cbn [fst]. split; [discriminate | intros [[] _]].
  - cbn [fst]. split; [discriminate | intros [[] _]].
  - rewrite truncate_is_take. destruct (quota _ _ _); cbn [fst].
    + split; [split; [exact I | reflexivity] | reflexivity].
    + split; [discriminate | intros [_ H]; discriminate H].
  - rewrite truncate_is_take. destruct (quota _ _ _); cbn [fst].
    + split; [split; [exact I | reflexivity] | reflexivity].
    + split; [discriminate | intros [_ H]; discriminate H].
Qed.

(** *** The controller's in-memory copy *)

Lemma portal_track_push this c :
  ExamPortal.downloadHistory (portal_track this c)
  = push_capped 100 (ExamPortal.downloadHistory this) (portal_record c).
Proof.
  destruct c as [[[env id] title] type].
  unfold portal_track, ExamPortal.trackDownload, push_capped, portal_record.
  cbn [ExamPortal.downloadHistory]. apply truncate_is_take.
Qed.

Lemma portal_track_all this calls :
  ExamPortal.downloadHistory (fold_left portal_track calls this)
  = fold_left (push_capped 100) (List.map portal_record calls)
              (ExamPortal.downloadHistory this).
Proof.
  revert this. induction calls as [|c calls IH]; intros this; [reflexivity|].
  simpl. rewrite IH, portal_track_push. reflexivity.
Qed.

End DownloadHistoryFacts.

(** C4. However many downloads are recorded, the controller's in-memory
    history and the wrapper's [download_history] stay within 100 entries and
    the download manager's [downloadHistory] within 1000; the recorded
    entries come newest first, and what is beyond the cap, the oldest
    entries, is dropped. For the download manager the recorded downloads
    are the calls of [trackDownload] that returned: a call returns when
    the stored history can be read and the host takes the new one, and a
    call that throws leaves the history as it was. *)
Theorem download_history_capped :
  forall (quota : LocalStorage.t -> string -> LocalStorage.text -> bool)
         (key_at : LocalStorage.t -> nat -> option string),
    (forall (this : ExamPortal.t) (calls : list portal_call),
        let final := fold_left portal_track calls this in
        ((length (ExamPortal.downloadHistory this) <= 100)%nat ->
         (length (ExamPortal.downloadHistory final) <= 100)%nat)
        /\ (calls <> [] ->
            ExamPortal.downloadHistory final
            = take 100 (rev (List.map portal_record calls)
                        ++ ExamPortal.downloadHistory this)))
    /\ (forall (storage : LocalStorage.t) (calls : list history_call),
           let final := add_all quota key_at storage calls in
           ((length (stored_array storage "download_history") <= 100)%nat ->
            (length (stored_array final "download_history") <= 100)%nat)
           /\ (forall c rest, calls = c :: rest ->
               all_added quota key_at storage calls ->
               stored_array final "download_history"
               = take 100 (rev (List.map call_entry calls)
                           ++ read_array storage (fst (fst c)) "download_history")))
    /\ (forall (storage : LocalStorage.t) (calls : list download_call),
           let final := track_all quota storage calls in
           ((length (raw_history storage) <= 1000)%nat ->
            (length (raw_history final) <= 1000)%nat)
           /\ (recorded quota storage calls <> [] ->
               raw_history final
               = take 1000 (rev (List.map track_entry
                                   (recorded quota storage calls))
                            ++ raw_history storage))
           /\ (recorded quota storage calls = [] -> final = storage))
    /\ (forall (storage : LocalStorage.t) (c : download_call),
           fst (track_call quota storage c) = Returns tt
           <-> history_readable storage
               /\ quota storage "downloadHistory"
                        (LocalStorage.Items
                           (take 1000 (track_entry c :: raw_history storage)))
                  = true).
Proof.
  intros quota key_at. split; [|split; [|split]].
  - intros this calls final. subst final. rewrite portal_track_all. split.
    + intros Hcap. apply push_capped_fold_length, Hcap.
    + intros Hne. rewrite push_capped_fold; [reflexivity|].
      destruct calls; [congruence | discriminate].
  - intros storage calls final. subst final. split.
    + apply add_all_cap.
    + intros c rest -> Hall. apply add_all_newest_first, Hall.
  - intros storage calls final. subst final.
    destruct (track_all_newest_first quota storage calls) as [Hnone Hsome].
    split; [apply track_all_cap|]. split; assumption.
  - apply track_call_records.
Qed.

Lemma download_history_capped_witness :
  let quota := fun (_ : LocalStorage.t) (_ : string) (_ : LocalStorage.text) => true in
  let key_at := fun (_ : LocalStorage.t) (_ : nat) => @None string in
  let calls : list history_call :=
    [ (1000, "t1", [("id", Json.Str "a")]); (2000, "t2", [("id", Json.Str "b")]) ] in
  let small := fun (_ : LocalStorage.t) (_ : string) (v : LocalStorage.text) =>
    match v with
    | LocalStorage.Items l => (length l <? 3)%nat
    | _ => true
    end in
  let env := fun timestamp => DownloadManager.mkEnv timestamp "agent" "platform" "" in
  let downloads : list download_call :=
    [ (env "t1", "/pdfs/a.pdf", "a.pdf"); (env "t2", "/pdfs/b.pdf", "b.pdf");
      (env "t3", "/pdfs/c.pdf", "c.pdf") ] in
  (all_added quota key_at ∅ calls
   /\ stored_array (add_all quota key_at ∅ calls) "download_history"
      = [ Json.Obj [("id", Json.Str "b"); ("timestamp", Json.Str "t2")];
          Json.Obj [("id", Json.Str "a"); ("timestamp", Json.Str "t1")] ])
  /\ (recorded quota ∅ downloads = downloads
      /\ raw_history (track_all quota ∅ downloads)
         = [ download_entry (env "t3") "/pdfs/c.pdf" "c.pdf";
             download_entry (env "t2") "/pdfs/b.pdf" "b.pdf";
             download_entry (env "t1") "/pdfs/a.pdf" "a.pdf" ])
  /\ (recorded small ∅ downloads
      = [ (env "t1", "/pdfs/a.pdf", "a.pdf"); (env "t2", "/pdfs/b.pdf", "b.pdf") ]
      /\ raw_history (track_all small ∅ downloads)
         = [ download_entry (env "t2") "/pdfs/b.pdf" "b.pdf";
             download_entry (env "t1") "/pdfs/a.pdf" "a.pdf" ]).
Proof.
  intros quota key_at calls small env downloads.
  assert (Hall : all_added quota key_at ∅ calls) by (vm_compute; auto).
  assert (Hrec : recorded quota ∅ downloads = downloads)
    by (vm_compute; reflexivity).
  assert (Hsmall : recorded small ∅ downloads
                   = [ (env "t1", "/pdfs/a.pdf", "a.pdf");
                       (env "t2", "/pdfs/b.pdf", "b.pdf") ])
    by (vm_compute; reflexivity).
  split; [split; [exact Hall|] | split; (split; [assumption|])].
  - rewrite (proj2 (proj1 (proj2 (download_history_capped quota key_at)) ∅ calls)
               _ _ eq_refl Hall).
    vm_compute. reflexivity.
  - rewrite (proj1 (proj2 (proj1 (proj2 (proj2 (download_history_capped
                                                   quota key_at)))
                             ∅ downloads))).
    + rewrite Hrec. vm_compute. reflexivity.
    + rewrite Hrec. discriminate.
  - rewrite (proj1 (proj2 (proj1 (proj2 (proj2 (download_history_capped
                                                   small key_at)))
                             ∅ downloads))).
    + rewrite Hsmall. vm_compute. reflexivity.
    + rewrite Hsmall. discriminate.
Defined.

(** ** Favorites *)

Section FavoritesFacts.

Import LocalStorage StorageManager.

Variable quota : LocalStorage.t -> string -> text -> bool.
Variable key_at : LocalStorage.t -> nat -> option string.

Lemma get_cases storage now key defaultValue :
  (fst (get storage now key defaultValue) = Some defaultValue
   /\ (forall d, storage !! (prefix +:+ key) = Some (Envelope d) ->
                 expired now d = true)
   /\ (forall l, storage !! (prefix +:+ key) <> Some (Items l))
   /\ (snd (get storage now key defaultValue) = storage
       \/ snd (get storage now key defaultValue) = delete (prefix +:+ key) storage))
  \/ (exists d, storage !! (prefix +:+ key) = Some (Envelope d)
                /\ expired now d = false
                /\ get storage now key defaultValue = (Some (value d), storage))
  \/ (get storage now key defaultValue = (None, storage)).
Proof.
  unfold get, getItem, remove, removeItem.
  destruct (storage !! (prefix +:+ key)) as [[s| |s|d|l]|] eqn:Hs.
  - left. simpl. repeat split; auto; congruence.
  - left. simpl. repeat split; auto; congruence.
  - right. right. reflexivity.
  - destruct (expired now d) eqn:He.
    + left. simpl. repeat split; auto; congruence.
    + right. left. exists d. auto.
  - right. right. reflexivity.
  - left. simpl. repeat split; auto; congruence.
Qed.

(** Reading again, at the same time, after an expired entry was dropped. *)
Lemma get_after_get storage now key defaultValue :
  get (snd (get storage now key defaultValue)) now key defaultValue
  = (fst (get storage now key defaultValue),
     snd (get storage now key defaultValue)).
Proof.
  unfold get, getItem, remove, removeItem.
  destruct (storage !! (prefix +:+ key)) as [[s| |s|d|l]|] eqn:Hs; simpl;
    try (rewrite Hs; reflexivity).
  destruct (expired now d) eqn:He; simpl.
  - rewrite lookup_delete_eq. reflexivity.
  - rewrite Hs, He. reflexivity.
Qed.

Lemma existsb_is_id itemId (l : list Json.t) :
  existsb (is_id itemId) l = true <-> In (Json.Str itemId) l.
Proof.
  rewrite existsb_exists. split.
  - intros (x & Hx & Hid). destruct x; try discriminate.
    simpl in Hid. apply String.eqb_eq in Hid. subst. exact Hx.
  - intros H. exists (Json.Str itemId). split; [exact H|].
    simpl. apply String.eqb_refl.
Qed.

Lemma indexOf_None itemId (l : list Json.t) :
  indexOf l itemId = None <-> ~ In (Json.Str itemId) l.
Proof.
  induction l as [|x l IH]; simpl; [tauto|].
  destruct (is_id itemId x) eqn:Hx.
  - split; [discriminate|]. intros H. exfalso. apply H. left.
    destruct x; try discriminate. simpl in Hx.
    apply String.eqb_eq in Hx. congruence.
  - destruct (indexOf l itemId) eqn:Hi; simpl.
    + split; [discriminate|]. intros H. exfalso.
      assert (Hn : ~ In (Json.Str itemId) l) by tauto.
      apply IH in Hn. discriminate.
    + split; [|reflexivity]. intros _ [Hx'|Hin].
      * subst x. simpl in Hx. rewrite String.eqb_refl in Hx. discriminate.
      * apply IH in Hin; [exact Hin | reflexivity].
Qed.

Lemma splice1_In {A} (l : list A) i x :
  In x (Array.splice1 l i) -> In x l.
Proof.
  revert i. induction l as [|y l IH]; intros i H; simpl in *; [exact H|].
  destruct i as [|i]; [now right|].
  destruct H as [H|H]; [now left | right; eapply IH, H].
Qed.

Lemma splice1_NoDup {A} (l : list A) i :
  List.NoDup l -> List.NoDup (Array.splice1 l i).
Proof.
  revert i. induction l as [|y l IH]; intros i H; simpl; [exact H|].
  inversion H; subst. destruct i as [|i]; [assumption|].
  constructor; [|apply IH; assumption].
  intros Hin. apply splice1_In in Hin. contradiction.
Qed.

(** Removing the first occurrence of an identifier from a duplicate-free
    array leaves none. *)
Lemma indexOf_splice1 itemId (l : list Json.t) i :
  List.NoDup l -> indexOf l itemId = Some i ->
  indexOf (Array.splice1 l i) itemId = None.
Proof.
  revert i. induction l as [|x l IH]; intros i Hnd Hi; simpl in *; [discriminate|].
  inversion Hnd; subst.
  destruct (is_id itemId x) eqn:Hx.
  - inversion Hi; subst. apply indexOf_None.
    destruct x; try discriminate. simpl in Hx.
    apply String.eqb_eq in Hx. subst. assumption.
  - destruct (indexOf l itemId) as [j|] eqn:Hj; [|discriminate].
    inversion Hi; subst. simpl. rewrite Hx, (IH j); auto.
Qed.


Lemma get_shrinks storage now key defaultValue k :
  snd (get storage now key defaultValue) !! k = storage !! k
  \/ snd (get storage now key defaultValue) !! k = None.
Proof.
  unfold get, getItem, remove, removeItem.
  destruct (storage !! (prefix +:+ key)) as [[s| |s|d|l]|]; simpl; auto.
  destruct (expired now d); simpl; auto.
  destruct (decide (prefix +:+ key = k)) as [<-|Hne];
    [right; apply lookup_delete_eq | left; apply lookup_delete_ne; exact Hne].
Qed.

Lemma favorites_read_array storage now l :
  favorites_read storage now l -> l = read_array storage now "favorites".
Proof.
  unfold favorites_read, getFavorites, read_array. intros ->. reflexivity.
Qed.

(** What was read is what is stored, unless the entry had expired and
    the empty default was read. *)
Lemma favorites_read_stored storage now l :
  favorites_read storage now l ->
  l = stored_array (snd (getFavorites storage now)) "favorites"
  \/ l = [].
Proof.
  intros H. apply favorites_read_array in H. subst l.
  unfold getFavorites.
  destruct (read_array_cases storage now "favorites") as [[-> ->]|[-> _]]; auto.
Qed.

Lemma NoDup_read storage now l :
  List.NoDup (stored_array storage "favorites") ->
  favorites_read storage now l -> List.NoDup l.
Proof.
  intros Hnd H. apply favorites_read_array in H. subst l.
  destruct (read_array_cases storage now "favorites") as [[-> _]|[-> _]];
    [exact Hnd | constructor].
Qed.

Lemma NoDup_shrinks (storage storage' : LocalStorage.t) :
  (forall k, storage' !! k = storage !! k \/ storage' !! k = None) ->
  List.NoDup (stored_array storage "favorites") ->
  List.NoDup (stored_array storage' "favorites").
Proof.
  intros Hsub Hnd.
  destruct (stored_array_shrinks _ _ "favorites" Hsub) as [-> | ->];
    [exact Hnd | constructor].
Qed.

Lemma addFavorite_present storage now itemId l :
  favorites_read storage now l -> In (Json.Str itemId) l ->
  addFavorite quota key_at storage now itemId = (Returns true, storage).
Proof.
  unfold favorites_read, addFavorite, getFavorites, get, getItem.
  destruct (storage !! (prefix +:+ "favorites")) as [[s| |s|d|i]|]; simpl;
    try (intros H; inversion H; subst; intros []).
  destruct (expired now d); simpl; intros H Hin.
  - inversion H; subst. destruct Hin.
  - inversion H as [Hv]. apply existsb_is_id in Hin.
    rewrite Hv, Hin. reflexivity.
Qed.

Lemma addFavorite_absent storage now itemId l :
  favorites_read storage now l -> ~ In (Json.Str itemId) l ->
  addFavorite quota key_at storage now itemId
  = (Returns (snd (set quota key_at (snd (getFavorites storage now)) now
                       "favorites" (Json.Arr (l ++ [Json.Str itemId]))
                       None None)),
     fst (set quota key_at (snd (getFavorites storage now)) now
              "favorites" (Json.Arr (l ++ [Json.Str itemId])) None None)).
Proof.
  unfold favorites_read, addFavorite. intros H Hnot.
  destruct (getFavorites storage now) as [v storage1]. simpl in H. subst v.
  assert (He : existsb (is_id itemId) l = false).
  { destruct (existsb (is_id itemId) l) eqn:E; [|reflexivity].
    apply existsb_is_id in E. contradiction. }
  rewrite He. cbn [negb snd fst].
  destruct (set quota key_at storage1 now "favorites" _ None None). reflexivity.
Qed.

Lemma removeFavorite_absent storage now itemId l :
  favorites_read storage now l -> ~ In (Json.Str itemId) l ->
  removeFavorite quota key_at storage now itemId
  = (Returns true, snd (getFavorites storage now)).
Proof.
  unfold favorites_read, removeFavorite. intros H Hnot.
  destruct (getFavorites storage now) as [v storage1]. simpl in H. subst v.
  apply indexOf_None in Hnot. rewrite Hnot. reflexivity.
Qed.

(** [addFavorite] either leaves every entry as it was or removed, or it
    has stored the array read, extended by the new identifier. *)
Lemma addFavorite_cases storage now itemId :
  (forall k, snd (addFavorite quota key_at storage now itemId) !! k = storage !! k
             \/ snd (addFavorite quota key_at storage now itemId) !! k = None)
  \/ (exists l d,
         favorites_read storage now l /\ ~ In (Json.Str itemId) l
         /\ addFavorite quota key_at storage now itemId
            = (Returns true, snd (addFavorite quota key_at storage now itemId))
         /\ snd (addFavorite quota key_at storage now itemId)
              !! (prefix +:+ "favorites") = Some (Envelope d)
         /\ value d = Json.Arr (l ++ [Json.Str itemId])
         /\ expires d = None).
Proof.
  assert (Hsub1 := get_shrinks storage now "favorites" (Json.Arr [])).
  destruct (fst (getFavorites storage now)) as [v|] eqn:Hfst.
  2:{ left. unfold addFavorite. unfold getFavorites in *.
      destruct (get storage now "favorites" (Json.Arr [])) as [v storage1].
      simpl in Hfst. subst v. exact Hsub1. }
  destruct v as [|b|n|s|l|props].
  1-4,6: left; unfold addFavorite; unfold getFavorites in *;
    destruct (get storage now "favorites" (Json.Arr [])) as [v storage1];
    simpl in Hfst; subst v; cbv beta iota;
    try (destruct (negb (JsString.includes s itemId))); exact Hsub1.
  destruct (existsb (is_id itemId) l) eqn:He.
  - left. rewrite (addFavorite_present storage now itemId l Hfst); [auto|].
    apply existsb_is_id, He.
  - assert (Hnot : ~ In (Json.Str itemId) l).
    { intros Hin. apply existsb_is_id in Hin. congruence. }
    rewrite (addFavorite_absent storage now itemId l Hfst Hnot). cbn [snd].
    pose proof (set_cases quota key_at (snd (getFavorites storage now)) now
                  "favorites" (Json.Arr (l ++ [Json.Str itemId])) None) as Hset.
    destruct (set quota key_at (snd (getFavorites storage now)) now
                  "favorites" _ None None) as [storage2 ok]. cbn [fst snd].
    destruct Hset as [[-> (d & Hd & Hv & He')]|[_ Hfail]].
    + right. exists l, d. auto 10.
    + left. intros k. destruct (Hfail k) as [Hk|Hk]; [|right; exact Hk].
      rewrite Hk. apply Hsub1.
Qed.

(** Neither operation introduces a duplicate. *)
Lemma addFavorite_NoDup storage now itemId :
  List.NoDup (stored_array storage "favorites") ->
  List.NoDup (stored_array (snd (addFavorite quota key_at storage now itemId))
                           "favorites").
Proof.
  intros Hnd.
  destruct (addFavorite_cases storage now itemId)
    as [Hsub|(l & d & Hread & Hnot & _ & Hd & Hv & _)].
  - apply (NoDup_shrinks storage); assumption.
  - unfold stored_array. rewrite Hd, Hv.
    apply List.NoDup_app.
    + eapply NoDup_read; eassumption.
    + constructor; [intros [] | constructor].
    + intros x Hx [<-|[]]. contradiction.
Qed.

Lemma removeFavorite_cases storage now itemId :
  (forall k, snd (removeFavorite quota key_at storage now itemId) !! k = storage !! k
             \/ snd (removeFavorite quota key_at storage now itemId) !! k = None)
  \/ (exists l index d,
         favorites_read storage now l /\ indexOf l itemId = Some index
         /\ removeFavorite quota key_at storage now itemId
            = (Returns true, snd (removeFavorite quota key_at storage now itemId))
         /\ snd (removeFavorite quota key_at storage now itemId)
              !! (prefix +:+ "favorites") = Some (Envelope d)
         /\ value d = Json.Arr (Array.splice1 l index)
         /\ expires d = None).
Proof.
  assert (Hsub1 := get_shrinks storage now "favorites" (Json.Arr [])).
  unfold favorites_read, removeFavorite. unfold getFavorites in *.
  destruct (get storage now "favorites" (Json.Arr [])) as [[v|] storage1];
    [|left; exact Hsub1].
  destruct v as [|b|n|s|l|props].
  1-4,6: left; cbv beta iota;
    try (destruct (JsString.includes s itemId)); exact Hsub1.
  cbv beta iota. destruct (indexOf l itemId) as [index|] eqn:Hi;
    [|left; exact Hsub1].
  pose proof (set_cases quota key_at storage1 now
                "favorites" (Json.Arr (Array.splice1 l index)) None) as Hset.
  destruct (set quota key_at storage1 now "favorites" _ None None)
    as [storage2 ok]. cbn [fst snd].
  destruct Hset as [[-> (d & Hd & Hv & He')]|[_ Hfail]].
  - right. exists l, index, d. auto 10.
  - left. intros k. destruct (Hfail k) as [Hk|Hk]; [|right; exact Hk].
    rewrite Hk. apply Hsub1.
Qed.

Lemma removeFavorite_NoDup storage now itemId :
  List.NoDup (stored_array storage "favorites") ->
  List.NoDup (stored_array (snd (removeFavorite quota key_at storage now itemId))
                           "favorites").
Proof.
  intros Hnd.
  destruct (removeFavorite_cases storage now itemId)
    as [Hsub|(l & index & d & Hread & _ & _ & Hd & Hv & _)].
  - apply (NoDup_shrinks storage); assumption.
  - unfold stored_array. rewrite Hd, Hv.
    apply splice1_NoDup. eapply NoDup_read; eassumption.
Qed.


Lemma getFavorites_written (storage : LocalStorage.t) now d l :
  storage !! (prefix +:+ "favorites") = Some (Envelope d) ->
  value d = Json.Arr l -> expires d = None ->
  getFavorites storage now = (Some (Json.Arr l), storage).
Proof.
  intros Hd Hv He. unfold getFavorites, get, getItem, expired.
  rewrite Hd, He, Hv. reflexivity.
Qed.

(** A second [addFavorite] of the same identifier changes nothing. *)
Lemma addFavorite_twice storage now itemId :
  fst (addFavorite quota key_at storage now itemId) = Returns true ->
  addFavorite quota key_at (snd (addFavorite quota key_at storage now itemId))
              now itemId
  = (Returns true, snd (addFavorite quota key_at storage now itemId)).
Proof.
  intros Hok.
  destruct (addFavorite_cases storage now itemId)
    as [_|(l & d & Hread & Hnot & _ & Hd & Hv & He)].
  2:{ apply (addFavorite_present _ now itemId (l ++ [Json.Str itemId])).
      - unfold favorites_read.
        rewrite (getFavorites_written _ now d _ Hd Hv He). reflexivity.
      - apply in_or_app. right. now left. }
  pose proof (get_after_get storage now "favorites" (Json.Arr [])) as Hagain.
  revert Hok. unfold addFavorite at 1 3 4. unfold getFavorites in *.
  destruct (get storage now "favorites" (Json.Arr [])) as [v storage1].
  cbn [fst snd] in Hagain.
  destruct v as [[|b|n|s|l|props]|]; cbv beta iota; try discriminate.
  - destruct (negb (JsString.includes s itemId)) eqn:Hs; [discriminate|].
    intros _. cbn [snd]. unfold addFavorite, getFavorites.
    rewrite Hagain, Hs. reflexivity.
  - destruct (existsb (is_id itemId) l) eqn:He; cbn [negb].
    + intros _. cbn [snd]. unfold addFavorite, getFavorites.
      rewrite Hagain, He. reflexivity.
    + pose proof (set_cases quota key_at storage1 now "favorites"
                    (Json.Arr (l ++ [Json.Str itemId])) None) as Hset.
      destruct (set quota key_at storage1 now "favorites" _ None None)
        as [storage2 ok]. cbn [fst snd]. intros Hok.
      destruct Hset as [[_ (d & Hd & Hv & He')]|[-> _]]; [|discriminate].
      apply (addFavorite_present _ now itemId (l ++ [Json.Str itemId])).
      * unfold favorites_read.
        rewrite (getFavorites_written _ now d _ Hd Hv He'). reflexivity.
      * apply in_or_app. right. now left.
Qed.

(** A second [removeFavorite] of the same identifier changes nothing,
    when the stored favorites had no duplicate. *)
Lemma removeFavorite_twice storage now itemId :
  List.NoDup (stored_array storage "favorites") ->
  fst (removeFavorite quota key_at storage now itemId) = Returns true ->
  removeFavorite quota key_at
                 (snd (removeFavorite quota key_at storage now itemId))
                 now itemId
  = (Returns true, snd (removeFavorite quota key_at storage now itemId)).
Proof.
  intros Hnd Hok.
  pose proof (get_after_get storage now "favorites" (Json.Arr [])) as Hagain.
  assert (Hread : forall l, favorites_read storage now l -> List.NoDup l)
    by (intros l; apply NoDup_read, Hnd).
  revert Hok Hread. unfold favorites_read, removeFavorite at 1 3 4.
  unfold getFavorites in *.
  destruct (get storage now "favorites" (Json.Arr [])) as [v storage1].
  cbn [fst snd] in *.
  destruct v as [[|b|n|s|l|props]|]; cbv beta iota; try discriminate.
  - destruct (JsString.includes s itemId) eqn:Hs; [discriminate|].
    intros _ _. cbn [snd]. unfold removeFavorite, getFavorites.
    rewrite Hagain, Hs. reflexivity.
  - destruct (indexOf l itemId) as [index|] eqn:Hi.
    + pose proof (set_cases quota key_at storage1 now "favorites"
                    (Json.Arr (Array.splice1 l index)) None) as Hset.
      destruct (set quota key_at storage1 now "favorites" _ None None)
        as [storage2 ok]. cbn [fst snd]. intros Hok Hread.
      destruct Hset as [[_ (d & Hd & Hv & He')]|[-> _]]; [|discriminate].
      pose proof (getFavorites_written _ now d _ Hd Hv He') as Hg.
      rewrite (removeFavorite_absent _ now itemId (Array.splice1 l index)).
      * rewrite Hg. reflexivity.
      * unfold favorites_read. rewrite Hg. reflexivity.
      * apply indexOf_None, indexOf_splice1; [apply Hread; reflexivity | exact Hi].
    + intros _ _. cbn [snd]. unfold removeFavorite, getFavorites.
      rewrite Hagain, Hi. reflexivity.
Qed.

Lemma favorite_steps_NoDup storage ops :
  List.NoDup (stored_array storage "favorites") ->
  List.NoDup (stored_array (fold_left (favorite_step quota key_at) ops storage)
                           "favorites").
Proof.
  revert storage. induction ops as [|op ops IH]; intros storage Hnd;
    [exact Hnd|].
  simpl. apply IH. destruct op; simpl;
    [apply addFavorite_NoDup | apply removeFavorite_NoDup]; exact Hnd.
Qed.

End FavoritesFacts.

(** C10. The favorites stored by the wrapper never hold an identifier
    twice: from a duplicate-free (or empty) store every run of [addFavorite]
    and [removeFavorite] leaves a duplicate-free array. [addFavorite] of an
    identifier that is already there returns [true] and leaves the storage
    as it is; of one that is not there, it stores the array with the
    identifier appended. [removeFavorite] of an identifier that is not there
    returns [true] and the storage is the one the read left. A repeated
    [addFavorite] or [removeFavorite] changes nothing. *)
Theorem favorites_without_duplicates :
  forall (quota : LocalStorage.t -> string -> LocalStorage.text -> bool)
         (key_at : LocalStorage.t -> nat -> option string)
         (storage : LocalStorage.t) (now : Z) (itemId : string),
    (forall ops,
        List.NoDup (stored_array storage "favorites") ->
        List.NoDup (stored_array
                      (fold_left (favorite_step quota key_at) ops storage)
                      "favorites"))
    /\ (forall ops,
           List.NoDup (stored_array
                         (fold_left (favorite_step quota key_at) ops ∅)
                         "favorites"))
    /\ (forall l, favorites_read storage now l -> In (Json.Str itemId) l ->
           StorageManager.addFavorite quota key_at storage now itemId
           = (Returns true, storage))
    /\ (forall l, favorites_read storage now l -> ~ In (Json.Str itemId) l ->
           StorageManager.addFavorite quota key_at storage now itemId
           = (Returns (snd (StorageManager.set quota key_at
                              (snd (StorageManager.getFavorites storage now)) now
                              "favorites" (Json.Arr (l ++ [Json.Str itemId]))
                              None None)),
              fst (StorageManager.set quota key_at
                     (snd (StorageManager.getFavorites storage now)) now
                     "favorites" (Json.Arr (l ++ [Json.Str itemId]))
                     None None)))
    /\ (forall l, favorites_read storage now l -> ~ In (Json.Str itemId) l ->
           StorageManager.removeFavorite quota key_at storage now itemId
           = (Returns true, snd (StorageManager.getFavorites storage now)))
    /\ (fst (StorageManager.addFavorite quota key_at storage now itemId)
        = Returns true ->
        StorageManager.addFavorite quota key_at
          (snd (StorageManager.addFavorite quota key_at storage now itemId))
          now itemId
        = (Returns true,
           snd (StorageManager.addFavorite quota key_at storage now itemId)))
    /\ (List.NoDup (stored_array storage "favorites") ->
        fst (StorageManager.removeFavorite quota key_at storage now itemId)
        = Returns true ->
        StorageManager.removeFavorite quota key_at
          (snd (StorageManager.removeFavorite quota key_at storage now itemId))
          now itemId
        = (Returns true,
           snd (StorageManager.removeFavorite quota key_at storage now itemId))).
Proof.
  intros quota key_at storage now itemId.
  split; [intros ops; apply favorite_steps_NoDup|].
  split; [intros ops; apply favorite_steps_NoDup; constructor|].
  split; [apply addFavorite_present|].
  split; [apply addFavorite_absent|].
  split; [apply removeFavorite_absent|].
  split; [apply addFavorite_twice | apply removeFavorite_twice].
Qed.

Lemma favorites_without_duplicates_witness :
  let quota := fun (_ : LocalStorage.t) (_ : string) (_ : LocalStorage.text) => true in
  let key_at := fun (_ : LocalStorage.t) (_ : nat) => @None string in
  let storage := snd (StorageManager.addFavorite quota key_at ∅ 1000 "math-9") in
  favorites_read storage 2000 [Json.Str "math-9"]
  /\ In (Json.Str "math-9") [Json.Str "math-9"]
  /\ StorageManager.addFavorite quota key_at storage 2000 "math-9"
     = (Returns true, storage).
Proof.
  intros quota key_at storage.
  assert (Hread : favorites_read storage 2000 [Json.Str "math-9"])
    by (vm_compute; reflexivity).
  assert (Hin : In (Json.Str "math-9") [Json.Str "math-9"]) by (simpl; auto).
  split; [exact Hread|]. split; [exact Hin|].
  exact (proj1 (proj2 (proj2 (favorites_without_duplicates
                                quota key_at storage 2000 "math-9")))
           _ Hread Hin).
Defined.

(** ** Download manager: retries *)

Section DownloadFacts.

Import DownloadManager.

Variable quota : LocalStorage.t -> string -> LocalStorage.text -> bool.
Variable URL_pathname : string -> option string.
Variable anchor_throws : string -> Z -> bool.

Lemma attempts_app e1 e2 : attempts (e1 ++ e2) = (attempts e1 + attempts e2)%nat.
Proof. unfold attempts. rewrite List.filter_app, length_app. reflexivity. Qed.

Lemma attempts_progress filename options :
  attempts (progress_of filename options) = O.
Proof. unfold progress_of. destruct (showProgress options); reflexivity. Qed.

Lemma attempts_failing filename options from retries :
  attempts (failing_effects (progress_of filename options) from retries)
  = S retries.
Proof.
  revert from. induction retries as [|n IH]; intros from; simpl.
  - change (Attempt from :: progress_of filename options ++ [ConsoleError])
      with ([Attempt from] ++ progress_of filename options ++ [ConsoleError]).
    rewrite !attempts_app, attempts_progress. reflexivity.
  - change (Attempt from :: progress_of filename options
              ++ ConsoleError :: ConsoleRetry (from + 1)
              :: failing_effects (progress_of filename options) (from + 1) n)
      with ([Attempt from] ++ progress_of filename options
              ++ [ConsoleError; ConsoleRetry (from + 1)]
              ++ failing_effects (progress_of filename options) (from + 1) n).
    rewrite !attempts_app, attempts_progress, IH. reflexivity.
Qed.

Lemma try_download_throws storage env url filename options :
  anchor_throws url (retryCount options) = true ->
  try_download quota URL_pathname anchor_throws storage env url filename options
  = inl (storage, Attempt (retryCount options) :: progress_of filename options).
Proof. intros H. unfold try_download, progress_of. rewrite H. reflexivity. Qed.

Lemma try_download_fails storage env url filename options :
  onComplete options = Some true
  \/ fst (trackDownload quota storage env url filename) = Throws
  \/ anchor_throws url (retryCount options) = true ->
  exists storage1 effects,
    try_download quota URL_pathname anchor_throws storage env url filename options
    = inl (storage1, effects)
    /\ attempts effects = 1%nat
    /\ onError_calls effects = 0%nat
    /\ (onComplete options <> Some true -> storage1 = storage).
Proof.
  intros H. unfold try_download.
  destruct (anchor_throws url (retryCount options)) eqn:Ha.
  - eexists _, _. split; [reflexivity|].
    destruct (showProgress options);
      (split; [reflexivity|]; split; [reflexivity|]; intros _; reflexivity).
  - pose proof (trackDownload_cases quota storage env url filename) as Hc.
    destruct (trackDownload quota storage env url filename) as [result storage1].
    cbn [fst] in H.
    destruct Hc as [[-> ->]|[-> ->]].
    + destruct (onComplete options) as [[]|] eqn:Hcb.
      * eexists _, _. split; [reflexivity|].
        destruct (showProgress options);
          (split; [reflexivity|]; split; [reflexivity|]; congruence).
      * exfalso. destruct H as [H|[H|H]]; discriminate.
      * exfalso. destruct H as [H|[H|H]]; discriminate.
    + eexists _, _. split; [reflexivity|].
      destruct (showProgress options);
        (split; [reflexivity|]; split; [reflexivity|]; intros _; reflexivity).
Qed.

Lemma onError_calls_app e1 e2 :
  onError_calls (e1 ++ e2) = (onError_calls e1 + onError_calls e2)%nat.
Proof. unfold onError_calls. rewrite List.filter_app, length_app. reflexivity. Qed.

(** When every attempt fails, [downloadPDF] goes through the retries that
    are left, then calls [onError], and reports the failure unless that
    callback throws. *)
Lemma downloadPDF_always_fails this storage env url filename options :
  always_fails quota anchor_throws this storage env url filename options ->
  let '(result, storage', effects) :=
    downloadPDF quota URL_pathname anchor_throws this storage env url filename
                options in
  result = match onError options with
           | Some true => Throws
           | _ => Returns {| success := false |}
           end
  /\ attempts effects
     = Z.to_nat (Z.max 1 (maxRetries this - retryCount options + 1))
  /\ match onError options with
     | Some _ =>
         exists before,
           effects = before ++ [OnError] /\ onError_calls before = 0%nat
     | None => onError_calls effects = 0%nat
     end
  /\ (onComplete options <> Some true -> storage' = storage).
Proof.
  funelim (downloadPDF quota URL_pathname anchor_throws this storage env url
                       filename options);
    intros Hfail;
    match goal with
    | Ht : try_download _ _ _ _ _ _ _ _ = _ |- _ => rename Ht into Htry
    end;
    (assert (Hnow : onComplete options = Some true
                    \/ fst (trackDownload quota storage env url filename) = Throws
                    \/ anchor_throws url (retryCount options) = true)
      by (destruct Hfail as [Hf|[Hf|Hf]]; [tauto | tauto |];
          right; right; apply Hf; lia));
    destruct (try_download_fails storage env url filename options Hnow)
      as (s1 & e1 & Htd & Hatt & Hcalls & Hsame);
    rewrite Htd in Htry; try discriminate; inversion Htry; subst s1 e1;
    clear Htry.
  - (* the attempt is retried *)
    assert (Hnext : always_fails quota anchor_throws this storage1 env url filename
                      {| showProgress := showProgress options;
                         retryCount := retryCount options + 1;
                         onProgress := onProgress options;
                         onComplete := onComplete options;
                         onError := onError options |}).
    { unfold always_fails. cbn [onComplete retryCount].
      destruct (onComplete options) as [[]|] eqn:Hcb; [left; reflexivity | |];
        (rewrite Hsame by discriminate;
         destruct Hfail as [Hf|[Hf|Hf]];
         [ congruence | right; left; exact Hf
         | right; right; intros n Hn; apply Hf; lia ]). }
    specialize (H Hnext).
    destruct (downloadPDF quota URL_pathname anchor_throws this storage1 env url
                          filename _) as [[result storage2] effects2].
    cbn [onError onComplete retryCount] in H.
    destruct H as (Hres & Hatt2 & Hlast & Hsame2).
    split; [exact Hres|]. split; [|split].
    + change (effects ++ ConsoleError :: ConsoleRetry (retryCount options + 1)
                      :: effects2)
        with (effects ++ [ConsoleError; ConsoleRetry (retryCount options + 1)]
                      ++ effects2).
      rewrite !attempts_app, Hatt, Hatt2. cbn. lia.
    + destruct (onError options) as [throws|].
      * destruct Hlast as (before & -> & Hb).
        exists (effects ++ ConsoleError :: ConsoleRetry (retryCount options + 1)
                        :: before).
        split; [rewrite <- app_assoc; reflexivity|].
        change (effects ++ ConsoleError :: ConsoleRetry (retryCount options + 1)
                        :: before)
          with (effects ++ [ConsoleError; ConsoleRetry (retryCount options + 1)]
                        ++ before).
        rewrite !onError_calls_app, Hcalls, Hb. reflexivity.
      * change (effects ++ ConsoleError :: ConsoleRetry (retryCount options + 1)
                        :: effects2)
          with (effects ++ [ConsoleError; ConsoleRetry (retryCount options + 1)]
                        ++ effects2).
        rewrite !onError_calls_app, Hcalls, Hlast. reflexivity.
    + intros Hcb. rewrite (Hsame2 Hcb). apply Hsame, Hcb.
  - (* the last attempt, [onError] throws *)
    match goal with He : onError options = _ |- _ => rewrite He end.
    split; [reflexivity|]. split; [|split; [|exact Hsame]].
    + rewrite attempts_app, Hatt. cbn. lia.
    + exists (effects ++ [ConsoleError]).
      split; [rewrite <- app_assoc; reflexivity|].
      rewrite onError_calls_app, Hcalls. reflexivity.
  - match goal with He : onError options = _ |- _ => rewrite He end.
    split; [reflexivity|]. split; [|split; [|exact Hsame]].
    + rewrite attempts_app, Hatt. cbn. lia.
    + exists (effects ++ [ConsoleError]).
      split; [rewrite <- app_assoc; reflexivity|].
      rewrite onError_calls_app, Hcalls. reflexivity.
  - match goal with He : onError options = _ |- _ => rewrite He end.
    split; [reflexivity|]. split; [|split; [|exact Hsame]].
    + rewrite attempts_app, Hatt. cbn. lia.
    + rewrite onError_calls_app, Hcalls. reflexivity.
Qed.

(** With a link that throws on every attempt the run is the retries and
    nothing else. *)
Lemma downloadPDF_fails this storage env url filename options :
  (forall n, retryCount options <= n
               <= Z.max (retryCount options) (maxRetries this) ->
             anchor_throws url n = true) ->
  downloadPDF quota URL_pathname anchor_throws this storage env url filename options
  = (match onError options with
     | Some true => Throws
     | _ => Returns {| success := false |}
     end,
     storage,
     failing_effects (progress_of filename options) (retryCount options)
                     (Z.to_nat (maxRetries this - retryCount options))
     ++ match onError options with
        | Some _ => [OnError]
        | None => []
        end).
Proof.
  funelim (downloadPDF quota URL_pathname anchor_throws this storage env url
                       filename options);
    intros Hfail;
    match goal with
    | Ht : try_download _ _ _ _ _ _ _ _ = _ |- _ =>
        rewrite try_download_throws in Ht by (apply Hfail; lia);
        try discriminate; inversion Ht; subst; clear Ht
    end.
  - rewrite H by (cbn [retryCount]; intros n Hn; apply Hfail; lia).
    simpl retryCount. simpl onError.
    replace (Z.to_nat (maxRetries this - retryCount options))
      with (S (Z.to_nat (maxRetries this - (retryCount options + 1)))) by lia.
    cbn [failing_effects]. f_equal.
    change (progress_of filename
              {| showProgress := showProgress options;
                 retryCount := retryCount options + 1;
                 onProgress := onProgress options;
                 onComplete := onComplete options;
                 onError := onError options |})
      with (progress_of filename options).
    rewrite <- !app_comm_cons, <- !app_assoc. reflexivity.
  - replace (Z.to_nat (maxRetries this - retryCount options)) with O by lia.
    match goal with He : onError options = _ |- _ => rewrite He end.
    cbn [failing_effects].
    rewrite <- !app_comm_cons, <- !app_assoc. reflexivity.
  - replace (Z.to_nat (maxRetries this - retryCount options)) with O by lia.
    match goal with He : onError options = _ |- _ => rewrite He end.
    cbn [failing_effects].
    rewrite <- !app_comm_cons, <- !app_assoc. reflexivity.
  - replace (Z.to_nat (maxRetries this - retryCount options)) with O by lia.
    match goal with He : onError options = _ |- _ => rewrite He end.
    cbn [failing_effects].
    rewrite <- !app_comm_cons, app_nil_r. reflexivity.
Qed.

End DownloadFacts.

(** C3. When every attempt of a download fails, [downloadPDF] called with
    the retry count [r] enters its [try] block [maxRetries - r + 1] times
    (once at least): [maxRetries + 1] times without a retry count, four
    times for the constructor's [maxRetries = 3]. After the last failure
    it calls [onError] once, if there is one, and does nothing more. The
    promise resolves with [success: false] unless [onError] itself throws;
    then it rejects. Unless the failures come from [onComplete], the
    storage is as before, and with a link that throws every time the run
    is the failed attempts alone. *)
Theorem downloadPDF_retries_then_onError :
  forall (quota : LocalStorage.t -> string -> LocalStorage.text -> bool)
         (URL_pathname : string -> option string)
         (anchor_throws : string -> Z -> bool)
         (this : DownloadManager.t) (storage : LocalStorage.t)
         (env : DownloadManager.Env) (url filename : string)
         (options : DownloadManager.Options),
    always_fails quota anchor_throws this storage env url filename options ->
    let '(result, storage', effects) :=
      DownloadManager.downloadPDF quota URL_pathname anchor_throws this storage
                                  env url filename options in
    DownloadManager.attempts effects
    = Z.to_nat (Z.max 1 (DownloadManager.maxRetries this
                         - DownloadManager.retryCount options + 1))
    /\ (DownloadManager.retryCount options = 0 ->
        (0 <= DownloadManager.maxRetries this ->
         DownloadManager.attempts effects
         = Z.to_nat (DownloadManager.maxRetries this + 1))
        /\ (DownloadManager.maxRetries this
            = DownloadManager.maxRetries DownloadManager.new ->
            DownloadManager.attempts effects = 4%nat))
    /\ match DownloadManager.onError options with
       | Some _ =>
           exists before,
             effects = before ++ [DownloadManager.OnError]
             /\ onError_calls before = 0%nat
       | None => onError_calls effects = 0%nat
       end
    /\ result = match DownloadManager.onError options with
                | Some true => Throws
                | _ => Returns {| DownloadManager.success := false |}
                end
    /\ (DownloadManager.onComplete options <> Some true -> storage' = storage)
    /\ ((forall n, DownloadManager.retryCount options <= n
                     <= Z.max (DownloadManager.retryCount options)
                              (DownloadManager.maxRetries this) ->
                   anchor_throws url n = true) ->
        effects
        = failing_effects (progress_of filename options)
            (DownloadManager.retryCount options)
            (Z.to_nat (DownloadManager.maxRetries this
                       - DownloadManager.retryCount options))
          ++ match DownloadManager.onError options with
             | Some _ => [DownloadManager.OnError]
             | None => []
             end).
Proof.
  intros quota URL_pathname anchor_throws this storage env url filename options
         Hfail.
  pose proof (downloadPDF_always_fails quota URL_pathname anchor_throws this
                storage env url filename options Hfail) as Hrun.
  pose proof (downloadPDF_fails quota URL_pathname anchor_throws this storage env
                url filename options) as Hlink.
  destruct (DownloadManager.downloadPDF quota URL_pathname anchor_throws this
              storage env url filename options) as [[result storage'] effects].
  destruct Hrun as (Hres & Hatt & Hlast & Hsame).
  split; [exact Hatt|]. split; [|split; [exact Hlast|split; [exact Hres|split]]].
  - intros Hcount. rewrite Hatt, Hcount. split.
    + intros Hmax. f_equal. lia.
    + intros ->. reflexivity.
  - exact Hsame.
  - intros Hthrows. specialize (Hlink Hthrows). congruence.
Qed.

Lemma downloadPDF_retries_then_onError_witness :
  let options :=
    {| DownloadManager.showProgress := false;
       DownloadManager.retryCount := 0;
       DownloadManager.onProgress := None;
       DownloadManager.onComplete := None;
       DownloadManager.onError := Some false |} in
  let env :=
    DownloadManager.mkEnv "2024-01-01T00:00:00.000Z" "agent" "platform" "" in
  let unreadable : LocalStorage.t :=
    {[ "downloadHistory" := LocalStorage.Raw "not an array" ]} in
  (always_fails (fun _ _ _ => true) (fun _ _ => true) DownloadManager.new ∅ env
     "https://example.org/missing.pdf" "missing.pdf" options
   /\ DownloadManager.downloadPDF (fun _ _ _ => true) (fun _ => None)
        (fun _ _ => true) DownloadManager.new ∅ env
        "https://example.org/missing.pdf" "missing.pdf" options
      = (Returns {| DownloadManager.success := false |}, ∅,
         [ DownloadManager.Attempt 0; DownloadManager.ConsoleError;
           DownloadManager.ConsoleRetry 1;
           DownloadManager.Attempt 1; DownloadManager.ConsoleError;
           DownloadManager.ConsoleRetry 2;
           DownloadManager.Attempt 2; DownloadManager.ConsoleError;
           DownloadManager.ConsoleRetry 3;
           DownloadManager.Attempt 3; DownloadManager.ConsoleError;
           DownloadManager.OnError ]))
  /\ (always_fails (fun _ _ _ => true) (fun _ _ => false) DownloadManager.new
        unreadable env "https://example.org/a.pdf" "a.pdf" options
      /\ let '(result, storage', effects) :=
           DownloadManager.downloadPDF (fun _ _ _ => true) (fun _ => None)
             (fun _ _ => false) DownloadManager.new unreadable env
             "https://example.org/a.pdf" "a.pdf" options in
         result = Returns {| DownloadManager.success := false |}
         /\ storage' = unreadable
         /\ DownloadManager.attempts effects = 4%nat
         /\ clicks effects = 4%nat).
Proof.
  intros options env unreadable. split.
  - assert (Hfail : always_fails (fun _ _ _ => true) (fun _ _ => true)
                      DownloadManager.new ∅ env
                      "https://example.org/missing.pdf" "missing.pdf" options)
      by (right; right; intros n _; reflexivity).
    split; [exact Hfail|].
    pose proof (downloadPDF_retries_then_onError
                  (fun _ _ _ => true) (fun _ => None) (fun _ _ => true)
                  DownloadManager.new ∅ env
                  "https://example.org/missing.pdf" "missing.pdf" options Hfail)
      as H.
    destruct (DownloadManager.downloadPDF _ _ _ _ _ _ _ _ _)
      as [[result storage'] effects].
    destruct H as (_ & _ & _ & -> & Hsame & Hrun).
    rewrite Hsame by discriminate.
    rewrite Hrun by (intros n _; reflexivity). reflexivity.
  - assert (Hfail : always_fails (fun _ _ _ => true) (fun _ _ => false)
                      DownloadManager.new unreadable env
                      "https://example.org/a.pdf" "a.pdf" options)
      by (right; left; vm_compute; reflexivity).
    split; [exact Hfail|].
    pose proof (downloadPDF_retries_then_onError
                  (fun _ _ _ => true) (fun _ => None) (fun _ _ => false)
                  DownloadManager.new unreadable env
                  "https://example.org/a.pdf" "a.pdf" options Hfail) as H.
    assert (Hclicks : clicks (snd (DownloadManager.downloadPDF
                                     (fun _ _ _ => true) (fun _ => None)
                                     (fun _ _ => false) DownloadManager.new
                                     unreadable env "https://example.org/a.pdf"
                                     "a.pdf" options)) = 4%nat)
      by (vm_compute; reflexivity).
    destruct (DownloadManager.downloadPDF _ _ _ _ _ _ _ _ _)
      as [[result storage'] effects].
    destruct H as (_ & Hatt & _ & -> & Hsame & _).
    split; [reflexivity|]. split; [apply Hsame; discriminate|].
    split; [apply Hatt; reflexivity | exact Hclicks].
Defined.

(** C3, where the specification's sentence fails, in two ways. With an
    [onError] that throws, the link failing on all four attempts, the
    promise rejects; and a call that brings its own retry count, here 2,
    makes what is left of the attempts, here two, and not four. *)
Lemma downloadPDF_rejects_when_onError_throws :
  fst (fst (DownloadManager.downloadPDF (fun _ _ _ => true) (fun _ => None)
              (fun _ _ => true) DownloadManager.new ∅
              (DownloadManager.mkEnv "2024-01-01T00:00:00.000Z" "agent"
                                     "platform" "")
              "https://example.org/missing.pdf" "missing.pdf"
              {| DownloadManager.showProgress := true;
                 DownloadManager.retryCount := 0;
                 DownloadManager.onProgress := None;
                 DownloadManager.onComplete := None;
                 DownloadManager.onError := Some true |}))
  = Throws
  /\ DownloadManager.attempts
       (snd (DownloadManager.downloadPDF (fun _ _ _ => true) (fun _ => None)
               (fun _ _ => true) DownloadManager.new ∅
               (DownloadManager.mkEnv "2024-01-01T00:00:00.000Z" "agent"
                                      "platform" "")
               "https://example.org/missing.pdf" "missing.pdf"
               {| DownloadManager.showProgress := true;
                  DownloadManager.retryCount := 2;
                  DownloadManager.onProgress := None;
                  DownloadManager.onComplete := None;
                  DownloadManager.onError := None |}))
     = 2%nat.
Proof. split; vm_compute; reflexivity. Qed.

(** ** Analytics tracker: the queue *)

Section AnalyticsFacts.

Import AnalyticsTracker.

Variable quota : LocalStorage.t -> string -> LocalStorage.text -> bool.
Variable parseInt : string -> option Z.
Variable JSON_text : LocalStorage.text -> string.

Lemma queueEvent_true st env event :
  fst (queueEvent quota parseInt JSON_text st env event) = Returns true ->
  enabled (tracker st) = true
  /\ exists j storage2,
      stamped event j
      /\ snd (queueEvent quota parseInt JSON_text st env event)
         = if (20 <=? length (queue (tracker st) ++ [j]))%nat
           then flushQueue (pushed quota st j storage2)
           else pushed quota st j storage2.
Proof.
  unfold queueEvent.
  destruct (enabled (tracker st)) eqn:Hen; cbn [negb]; [|discriminate].
  destruct (getSessionId quota parseInt JSON_text (storage st) env)
    as [[sessionId|] storage1]; [|discriminate].
  destruct (getUserId quota JSON_text storage1 env)
    as [[userId|] storage2]; [|discriminate].
  intros _. split; [reflexivity|].
  exists (stamp event sessionId userId), storage2.
  split; [exists sessionId, userId; reflexivity | reflexivity].
Qed.

(** An enabled [queueEvent] returns [true], unless one of the writes of
    the identifiers is refused: then it throws before it comes to the
    queue. *)
Lemma queueEvent_throws st env event :
  enabled (tracker st) = true ->
  fst (queueEvent quota parseInt JSON_text st env event) <> Returns true ->
  fst (queueEvent quota parseInt JSON_text st env event) = Throws
  /\ tracker (snd (queueEvent quota parseInt JSON_text st env event))
     = tracker st
  /\ inflight (snd (queueEvent quota parseInt JSON_text st env event))
     = inflight st.
Proof.
  intros Hen. unfold queueEvent. rewrite Hen. cbn [negb].
  destruct (getSessionId quota parseInt JSON_text (storage st) env)
    as [[sessionId|] storage1]; [|intros _; repeat split].
  destruct (getUserId quota JSON_text storage1 env)
    as [[userId|] storage2]; [|intros _; repeat split].
  cbn [fst]. congruence.
Qed.

(** When the host takes every write but, possibly, that of the queue,
    the identifiers are there or can be made. *)
Lemma queueEvent_accepted st env event :
  (forall storage key v, key <> "analytics_queue" -> quota storage key v = true) ->
  enabled (tracker st) = true ->
  fst (queueEvent quota parseInt JSON_text st env event) = Returns true.
Proof.
  intros Hids Hen. unfold queueEvent. rewrite Hen. cbn [negb].
  assert (Hstart : forall storage,
            exists sessionId storage1,
              start_session quota storage env = (Returns sessionId, storage1)).
  { intros storage. unfold start_session, LocalStorage.setItem.
    rewrite !Hids by discriminate. eauto. }
  assert (Hsession : exists sessionId storage1,
            getSessionId quota parseInt JSON_text (storage st) env
            = (Returns sessionId, storage1)).
  { unfold getSessionId.
    destruct (negb (present (getString JSON_text (storage st)
                                       "analytics_session_id")));
      [apply Hstart|].
    destruct (negb (present (getString JSON_text (storage st)
                                       "analytics_session_expiry"))
              || _); [apply Hstart | eauto]. }
  destruct Hsession as (sessionId & storage1 & ->).
  assert (Huser : exists userId storage2,
            getUserId quota JSON_text storage1 env = (Returns userId, storage2)).
  { unfold getUserId, LocalStorage.setItem.
    destruct (negb (present (getString JSON_text storage1 "user_id")));
      [rewrite Hids by discriminate|]; eauto. }
  destruct Huser as (userId & storage2 & ->). reflexivity.
Qed.

Lemma flushQueue_pushed st j storage2 :
  enabled (tracker st) = true ->
  flushQueue (pushed quota st j storage2)
  = {| tracker := with_queue (tracker st) [];
       storage := storage (pushed quota st j storage2);
       inflight := inflight st ++ [queue (tracker st) ++ [j]] |}.
Proof.
  intros Hen. unfold flushQueue, pushed. cbn [tracker queue with_queue enabled
                                                storage inflight].
  rewrite Hen, length_app. cbn [length negb orb].
  replace (length (queue (tracker st)) + 1 =? 0)%nat with false
    by (symmetry; apply Nat.eqb_neq; lia).
  reflexivity.
Qed.

(** What a [queueEvent] that returned [true] did to the queue: the event
    that brings it to 20 entries is handed to [fetch] with it, and below
    that the event only joins the queue. *)
Lemma queueEvent_queue st env event :
  fst (queueEvent quota parseInt JSON_text st env event) = Returns true ->
  let st' := snd (queueEvent quota parseInt JSON_text st env event) in
  enabled (tracker st') = true
  /\ exists j,
      stamped event j
      /\ if (20 <=? length (queue (tracker st)) + 1)%nat
         then queue (tracker st') = []
              /\ inflight st' = inflight st ++ [queue (tracker st) ++ [j]]
         else queue (tracker st') = queue (tracker st) ++ [j]
              /\ inflight st' = inflight st.
Proof.
  intros Hok st'. subst st'.
  destruct (queueEvent_true st env event Hok) as (Hen & j & storage2 & Hj & ->).
  rewrite length_app. cbn [length].
  destruct (20 <=? length (queue (tracker st)) + 1)%nat.
  - rewrite flushQueue_pushed by exact Hen.
    cbn [tracker queue with_queue enabled inflight].
    split; [exact Hen|]. exists j. auto.
  - unfold pushed. cbn [tracker queue with_queue enabled inflight].
    split; [exact Hen|]. exists j. auto.
Qed.

(** A run of calls that stays below 20 entries only extends the queue. *)
Lemma enqueue_all_queues st calls :
  enabled (tracker st) = true ->
  (length (queue (tracker st)) + length calls < 20)%nat ->
  all_queued quota parseInt JSON_text st calls ->
  let st' := enqueue_all quota parseInt JSON_text st calls in
  enabled (tracker st') = true
  /\ inflight st' = inflight st
  /\ exists js, Forall2 (fun c j => stamped (snd c) j) calls js
                /\ queue (tracker st') = queue (tracker st) ++ js.
Proof.
  revert st. induction calls as [|c calls IH]; intros st Hen Hlen Hall.
  - simpl. repeat split; [exact Hen|]. exists []. rewrite app_nil_r. auto.
  - destruct Hall as [Hc Hrest]. simpl in Hlen.
    destruct (queueEvent_queue st (fst c) (snd c) Hc) as (Hen1 & j & Hj & Hq).
    replace (20 <=? length (queue (tracker st)) + 1)%nat with false in Hq
      by (symmetry; apply Nat.leb_gt; lia).
    destruct Hq as [Hq1 Hin1].
    fold (enqueue quota parseInt JSON_text st c) in Hen1, Hin1, Hq1.
    destruct (IH (snd (enqueue quota parseInt JSON_text st c)) Hen1
                 ltac:(rewrite Hq1, length_app; simpl; lia) Hrest)
      as (Hen2 & Hin2 & js & Hjs & Hq2).
    change (enqueue_all quota parseInt JSON_text st (c :: calls))
      with (enqueue_all quota parseInt JSON_text
              (snd (enqueue quota parseInt JSON_text st c)) calls).
    cbv zeta. split; [exact Hen2|]. split; [congruence|].
    exists (j :: js). split; [constructor; assumption|].
    rewrite Hq2, Hq1, <- app_assoc. reflexivity.
Qed.

Lemma enqueue_all_app st calls1 calls2 :
  enqueue_all quota parseInt JSON_text st (calls1 ++ calls2)
  = enqueue_all quota parseInt JSON_text
      (enqueue_all quota parseInt JSON_text st calls1) calls2.
Proof. apply fold_left_app. Qed.

Lemma all_queued_app st calls1 calls2 :
  all_queued quota parseInt JSON_text st (calls1 ++ calls2)
  -> all_queued quota parseInt JSON_text st calls1
     /\ all_queued quota parseInt JSON_text
          (enqueue_all quota parseInt JSON_text st calls1) calls2.
Proof.
  revert st. induction calls1 as [|c calls1 IH]; intros st H.
  - split; [exact I | exact H].
  - destruct H as [Hc Hrest]. destruct (IH _ Hrest) as [H1 H2].
    split; [split; assumption | exact H2].
Qed.

(** A run that reaches 20 entries with the call [c0] and goes on below 20:
    the 20 entries are with [fetch] and the queue holds what came after. *)
Lemma enqueue_all_flushes st calls1 c0 calls2 :
  enabled (tracker st) = true ->
  (length (queue (tracker st)) + length calls1 = 19)%nat ->
  (length calls2 < 20)%nat ->
  all_queued quota parseInt JSON_text st (calls1 ++ c0 :: calls2) ->
  let st' := enqueue_all quota parseInt JSON_text st (calls1 ++ c0 :: calls2) in
  enabled (tracker st') = true
  /\ exists js1 j0 js2,
      Forall2 (fun c j => stamped (snd c) j) calls1 js1
      /\ stamped (snd c0) j0
      /\ Forall2 (fun c j => stamped (snd c) j) calls2 js2
      /\ inflight st' = inflight st ++ [queue (tracker st) ++ js1 ++ [j0]]
      /\ queue (tracker st') = js2.
Proof.
  intros Hen Hlen Hlen2 Hall st'. subst st'.
  apply all_queued_app in Hall. destruct Hall as [Hall1 [Hc0 Hall2]].
  rewrite enqueue_all_app.
  destruct (enqueue_all_queues st calls1 Hen ltac:(lia) Hall1)
    as (Hen1 & Hin1 & js1 & Hjs1 & Hq1).
  set (st1 := enqueue_all quota parseInt JSON_text st calls1) in *.
  destruct (queueEvent_queue st1 (fst c0) (snd c0) Hc0)
    as (Hen0 & j0 & Hj0 & Hq0).
  replace (20 <=? length (queue (tracker st1)) + 1)%nat with true in Hq0
    by (symmetry; apply Nat.leb_le; rewrite Hq1, length_app;
        pose proof (Forall2_length _ _ _ Hjs1); unfold queue_call in *; lia).
  destruct Hq0 as [Hq0 Hin0].
  fold (enqueue quota parseInt JSON_text st1 c0) in Hen0, Hq0, Hin0, Hall2.
  change (enqueue_all quota parseInt JSON_text st1 (c0 :: calls2))
    with (enqueue_all quota parseInt JSON_text
            (snd (enqueue quota parseInt JSON_text st1 c0)) calls2).
  destruct (enqueue_all_queues (snd (enqueue quota parseInt JSON_text st1 c0))
              calls2 Hen0 ltac:(rewrite Hq0; simpl; lia) Hall2)
    as (Hen2 & Hin2 & js2 & Hjs2 & Hq2).
  split; [exact Hen2|]. exists js1, j0, js2.
  split; [exact Hjs1|]. split; [exact Hj0|]. split; [exact Hjs2|]. split.
  - rewrite Hin2, Hin0, Hin1, Hq1, <- app_assoc. reflexivity.
  - rewrite Hq2, Hq0. reflexivity.
Qed.

(** [saveQueue] replaces the persisted queue when the host takes the
    write and leaves it when the write is refused. *)
Lemma persisted_saveQueue st this :
  persisted {| tracker := this; storage := saveQueue quota this (storage st);
               inflight := inflight st |}
  = if quota (storage st) "analytics_queue" (LocalStorage.Items (queue this))
    then Some (queue this)
    else persisted st.
Proof.
  unfold persisted, saveQueue, LocalStorage.setItem, LocalStorage.getItem.
  cbn [storage].
  destruct (quota (storage st) "analytics_queue" _); [|reflexivity].
  rewrite lookup_insert_eq. reflexivity.
Qed.

(** The [catch] branch of [sendEvents]: the failed batch goes back in
    front of what was queued meanwhile, and the whole queue is saved if
    the host takes it. *)
Lemma settle_fails st n batch :
  inflight st !! n = Some batch ->
  let st' := settle quota st n false in
  queue (tracker st') = batch ++ queue (tracker st)
  /\ inflight st' = take n (inflight st) ++ drop (S n) (inflight st)
  /\ enabled (tracker st') = enabled (tracker st)
  /\ persisted st'
     = if quota (storage st) "analytics_queue"
                (LocalStorage.Items (batch ++ queue (tracker st)))
       then Some (batch ++ queue (tracker st))
       else persisted st.
Proof.
  intros Hn. unfold settle. rewrite Hn. cbv zeta.
  split; [reflexivity|]. split; [reflexivity|]. split; [reflexivity|].
  unfold persisted, saveQueue, LocalStorage.setItem, LocalStorage.getItem.
  cbn [storage tracker queue with_queue].
  destruct (quota (storage st) "analytics_queue" _); [|reflexivity].
  rewrite lookup_insert_eq. reflexivity.
Qed.

(** The [catch] branch of [sendEventsSync]. *)
Lemma flushQueueSync_fails st beacon xhr :
  enabled (tracker st) = true ->
  queue (tracker st) <> [] ->
  beacon <> Some true ->
  (forall status, xhr = Some status -> ~ (200 <= status < 300)) ->
  let st' := flushQueueSync quota st beacon xhr in
  queue (tracker st') = queue (tracker st)
  /\ inflight st' = inflight st
  /\ persisted st'
     = if quota (storage st) "analytics_queue"
                (LocalStorage.Items (queue (tracker st)))
       then Some (queue (tracker st))
       else persisted st.
Proof.
  intros Hen Hq Hb Hx. unfold flushQueueSync. rewrite Hen.
  destruct (queue (tracker st)) as [|e q] eqn:Hqueue; [congruence|].
  cbn [length Nat.eqb negb orb].
  assert (Hd : match beacon with
               | Some true => true
               | _ => match xhr with
                      | Some status => (200 <=? status) && (status <? 300)
                      | None => false
                      end
               end = false).
  { destruct beacon as [[]|]; [congruence| |];
      (destruct xhr as [status|]; [|reflexivity];
       specialize (Hx status eq_refl);
       destruct (Z.leb_spec 200 status); destruct (Z.ltb_spec status 300);
       simpl; auto; lia). }
  rewrite Hd. cbv zeta.
  split; [reflexivity|]. split; [reflexivity|].
  unfold persisted, saveQueue, LocalStorage.setItem, LocalStorage.getItem.
  cbn [storage tracker queue with_queue].
  destruct (quota (storage st) "analytics_queue" _); [|reflexivity].
  rewrite lookup_insert_eq. reflexivity.
Qed.

(** From here on the queue always fits the storage quota. *)
Hypothesis queue_fits :
  forall storage v, quota storage "analytics_queue" v = true.

Lemma settle_failed st n batch :
  inflight st !! n = Some batch ->
  let st' := settle quota st n false in
  queue (tracker st') = batch ++ queue (tracker st)
  /\ persisted st' = Some (batch ++ queue (tracker st))
  /\ inflight st' = take n (inflight st) ++ drop (S n) (inflight st)
  /\ enabled (tracker st') = enabled (tracker st).
Proof.
  intros Hn st'. destruct (settle_fails st n batch Hn) as (Hq & Hi & He & Hp).
  fold st' in Hq, Hi, He, Hp. rewrite queue_fits in Hp. auto.
Qed.

End AnalyticsFacts.

(** C2. The [queueEvent] that brings the in-memory queue to 20 events
    hands the whole queue to [fetch] and leaves the queue empty; below
    that nothing is sent. An enabled [queueEvent] queues its event unless
    a write of the session or user identifier is refused, in which case
    it throws and the queue is as before. When the request for a batch
    fails, the queue becomes the failed batch followed by the events
    queued since, in their order. That queue is what is persisted if the
    host takes the write; if the write is refused the persisted queue
    stays what it was. The same holds for the synchronous flush, during
    which nothing can be queued. *)
Theorem failed_flush_keeps_events :
  forall (quota : LocalStorage.t -> string -> LocalStorage.text -> bool)
         (parseInt : string -> option Z)
         (JSON_text : LocalStorage.text -> string),
    (forall st env event,
        AnalyticsTracker.enabled (AnalyticsTracker.tracker st) = true ->
        let '(result, st') :=
          AnalyticsTracker.queueEvent quota parseInt JSON_text st env event in
        (result = Throws
         /\ AnalyticsTracker.tracker st' = AnalyticsTracker.tracker st
         /\ AnalyticsTracker.inflight st' = AnalyticsTracker.inflight st)
        \/ (result = Returns true
            /\ exists j,
                stamped event j
                /\ if (20 <=? length (AnalyticsTracker.queue
                                        (AnalyticsTracker.tracker st)) + 1)%nat
                   then AnalyticsTracker.queue (AnalyticsTracker.tracker st') = []
                        /\ AnalyticsTracker.inflight st'
                           = AnalyticsTracker.inflight st
                             ++ [AnalyticsTracker.queue (AnalyticsTracker.tracker st)
                                 ++ [j]]
                   else AnalyticsTracker.queue (AnalyticsTracker.tracker st')
                        = AnalyticsTracker.queue (AnalyticsTracker.tracker st) ++ [j]
                        /\ AnalyticsTracker.inflight st'
                           = AnalyticsTracker.inflight st))
    /\ (forall st env event,
           (forall storage key v,
               key <> "analytics_queue" -> quota storage key v = true) ->
           AnalyticsTracker.enabled (AnalyticsTracker.tracker st) = true ->
           fst (AnalyticsTracker.queueEvent quota parseInt JSON_text st env event)
           = Returns true)
    /\ (forall st n batch,
           AnalyticsTracker.inflight st !! n = Some batch ->
           let st' := AnalyticsTracker.settle quota st n false in
           AnalyticsTracker.queue (AnalyticsTracker.tracker st')
           = batch ++ AnalyticsTracker.queue (AnalyticsTracker.tracker st)
           /\ AnalyticsTracker.inflight st'
              = take n (AnalyticsTracker.inflight st)
                ++ drop (S n) (AnalyticsTracker.inflight st)
           /\ AnalyticsTracker.persisted st'
              = if quota (AnalyticsTracker.storage st) "analytics_queue"
                         (LocalStorage.Items
                            (batch ++ AnalyticsTracker.queue
                                        (AnalyticsTracker.tracker st)))
                then Some (batch ++ AnalyticsTracker.queue
                                      (AnalyticsTracker.tracker st))
                else AnalyticsTracker.persisted st)
    /\ (forall st calls1 c0 calls2,
           AnalyticsTracker.enabled (AnalyticsTracker.tracker st) = true ->
           (length (AnalyticsTracker.queue (AnalyticsTracker.tracker st))
            + length calls1 = 19)%nat ->
           (length calls2 < 20)%nat ->
           all_queued quota parseInt JSON_text st (calls1 ++ c0 :: calls2) ->
           let st1 :=
             enqueue_all quota parseInt JSON_text st (calls1 ++ c0 :: calls2) in
           let final :=
             AnalyticsTracker.settle quota st1
               (length (AnalyticsTracker.inflight st)) false in
           exists js1 j0 js2,
             let batch :=
               AnalyticsTracker.queue (AnalyticsTracker.tracker st)
               ++ js1 ++ [j0] in
             Forall2 (fun c j => stamped (snd c) j) calls1 js1
             /\ stamped (snd c0) j0
             /\ Forall2 (fun c j => stamped (snd c) j) calls2 js2
             /\ AnalyticsTracker.inflight st1
                = AnalyticsTracker.inflight st ++ [batch]
             /\ AnalyticsTracker.queue (AnalyticsTracker.tracker st1) = js2
             /\ AnalyticsTracker.queue (AnalyticsTracker.tracker final)
                = batch ++ js2
             /\ AnalyticsTracker.inflight final = AnalyticsTracker.inflight st
             /\ AnalyticsTracker.persisted final
                = if quota (AnalyticsTracker.storage st1) "analytics_queue"
                           (LocalStorage.Items (batch ++ js2))
                  then Some (batch ++ js2)
                  else AnalyticsTracker.persisted st1)
    /\ (forall st beacon xhr,
           AnalyticsTracker.enabled (AnalyticsTracker.tracker st) = true ->
           AnalyticsTracker.queue (AnalyticsTracker.tracker st) <> [] ->
           beacon <> Some true ->
           (forall status, xhr = Some status -> ~ (200 <= status < 300)) ->
           let st' := AnalyticsTracker.flushQueueSync quota st beacon xhr in
           AnalyticsTracker.queue (AnalyticsTracker.tracker st')
           = AnalyticsTracker.queue (AnalyticsTracker.tracker st)
           /\ AnalyticsTracker.inflight st' = AnalyticsTracker.inflight st
           /\ AnalyticsTracker.persisted st'
              = if quota (AnalyticsTracker.storage st) "analytics_queue"
                         (LocalStorage.Items
                            (AnalyticsTracker.queue (AnalyticsTracker.tracker st)))
                then Some (AnalyticsTracker.queue (AnalyticsTracker.tracker st))
                else AnalyticsTracker.persisted st).
Proof.
  intros quota parseInt JSON_text.
  split; [|split; [|split; [|split]]].
  - intros st env event Hen.
    pose proof (queueEvent_throws quota parseInt JSON_text st env event Hen)
      as Hthrows.
    pose proof (queueEvent_queue quota parseInt JSON_text st env event) as Hqueue.
    destruct (AnalyticsTracker.queueEvent quota parseInt JSON_text st env event)
      as [result st']. cbn [fst snd] in *.
    destruct result as [[]|].
    + right. split; [reflexivity|]. apply (Hqueue eq_refl).
    + left. apply Hthrows. discriminate.
    + left. apply Hthrows. discriminate.
  - intros st env event Hids Hen.
    apply queueEvent_accepted; assumption.
  - intros st n batch Hn.
    destruct (settle_fails quota st n batch Hn) as (Hq & Hi & _ & Hp).
    split; [exact Hq|]. split; assumption.
  - intros st calls1 c0 calls2 Hen Hlen Hlen2 Hall st1 final.
    destruct (enqueue_all_flushes quota parseInt JSON_text st calls1 c0 calls2
                Hen Hlen Hlen2 Hall)
      as (_ & js1 & j0 & js2 & Hjs1 & Hj0 & Hjs2 & Hin1 & Hq1).
    fold st1 in Hin1, Hq1.
    assert (Hn : AnalyticsTracker.inflight st1
                   !! length (AnalyticsTracker.inflight st)
                 = Some (AnalyticsTracker.queue (AnalyticsTracker.tracker st)
                         ++ js1 ++ [j0])).
    { rewrite Hin1. apply list_lookup_middle. reflexivity. }
    destruct (settle_fails quota st1 _ _ Hn) as (Hq & Hin & _ & Hp).
    fold final in Hq, Hp, Hin.
    exists js1, j0, js2. cbv zeta. rewrite Hq, Hp, Hq1.
    split; [exact Hjs1|]. split; [exact Hj0|]. split; [exact Hjs2|].
    split; [exact Hin1|]. split; [reflexivity|]. split; [reflexivity|].
    split; [|reflexivity].
    rewrite Hin, Hin1.
    rewrite take_app_length, drop_app_ge by (simpl; lia).
    replace (S (length (AnalyticsTracker.inflight st))
             - length (AnalyticsTracker.inflight st))%nat with 1%nat by lia.
    simpl. apply app_nil_r.
  - intros st beacon xhr Hen Hq Hb Hx.
    apply (flushQueueSync_fails quota st beacon xhr Hen Hq Hb Hx).
Qed.

Lemma failed_flush_keeps_events_witness :
  let quota := fun (_ : LocalStorage.t) (_ : string) (_ : LocalStorage.text) => true in
  let parseInt := fun (_ : string) => @None Z in
  let JSON_text := fun (_ : LocalStorage.text) => "[]" in
  let st :=
    {| AnalyticsTracker.tracker :=
         {| AnalyticsTracker.enabled := true;
            AnalyticsTracker.queue := [];
            AnalyticsTracker.maxRetries := 3;
            AnalyticsTracker.endpoint := "/api/analytics" |};
       AnalyticsTracker.storage := ∅;
       AnalyticsTracker.inflight := [] |} in
  let view := fun i : Z =>
    [("type", Json.Str "pageview"); ("page", Json.Str (JsString.integer i))] in
  let call := fun i : Z => (AnalyticsTracker.mkEnv (1000 + i) "abc" "xyz", view i) in
  let queued := fun i : Z =>
    AnalyticsTracker.stamp (view i) "id_1000_abc" "anonymous_id_1000_xyz" in
  let calls1 := List.map call (List.map Z.of_nat (seq 0 19)) in
  let calls2 := [call 20; call 21] in
  let st1 :=
    enqueue_all quota parseInt JSON_text st (calls1 ++ call 19 :: calls2) in
  let final := AnalyticsTracker.settle quota st1 0 false in
  all_queued quota parseInt JSON_text st (calls1 ++ call 19 :: calls2)
  /\ AnalyticsTracker.inflight st1
     = [List.map queued (List.map Z.of_nat (seq 0 20))]
  /\ AnalyticsTracker.queue (AnalyticsTracker.tracker st1)
     = [queued 20; queued 21]
  /\ AnalyticsTracker.queue (AnalyticsTracker.tracker final)
     = List.map queued (List.map Z.of_nat (seq 0 22))
  /\ AnalyticsTracker.persisted final
     = Some (AnalyticsTracker.queue (AnalyticsTracker.tracker final)).
Proof.
  intros quota parseInt JSON_text st view call queued calls1 calls2 st1 final.
  assert (Hall : all_queued quota parseInt JSON_text st
                   (calls1 ++ call 19 :: calls2))
    by (vm_compute; repeat split).
  split; [exact Hall|].
  destruct (proj1 (proj2 (proj2 (proj2 (failed_flush_keeps_events
                                          quota parseInt JSON_text))))
              st calls1 (call 19) calls2 eq_refl eq_refl
              ltac:(vm_compute; lia) Hall)
    as (js1 & j0 & js2 & _ & _ & _ & _ & _ & Hqueue & _ & Hpersisted).
  split; [vm_compute; reflexivity|]. split; [vm_compute; reflexivity|].
  split; [vm_compute; reflexivity|].
  exact (eq_trans Hpersisted (f_equal Some (eq_sym Hqueue))).
Defined.

(** C2, where the specification's sentence fails: the host refuses the
    write of the queue. Here the storage takes a queue of up to 19 events
    and no more. The twentieth event starts the flush; the request fails
    and the 20 events are back in the queue, but the persisted queue is
    still that of the 19 first events, the last write that was taken. *)
Lemma refused_write_keeps_the_old_persisted_queue :
  let quota := fun (_ : LocalStorage.t) (key : string) (v : LocalStorage.text) =>
    match v with
    | LocalStorage.Items l =>
        negb (String.eqb key "analytics_queue") || (length l <? 20)%nat
    | _ => true
    end in
  let parseInt := fun (_ : string) => @None Z in
  let JSON_text := fun (_ : LocalStorage.text) => "[]" in
  let st :=
    {| AnalyticsTracker.tracker :=
         {| AnalyticsTracker.enabled := true;
            AnalyticsTracker.queue := [];
            AnalyticsTracker.maxRetries := 3;
            AnalyticsTracker.endpoint := "/api/analytics" |};
       AnalyticsTracker.storage := ∅;
       AnalyticsTracker.inflight := [] |} in
  let view := fun i : Z =>
    [("type", Json.Str "pageview"); ("page", Json.Str (JsString.integer i))] in
  let call := fun i : Z => (AnalyticsTracker.mkEnv (1000 + i) "abc" "xyz", view i) in
  let queued := fun i : Z =>
    AnalyticsTracker.stamp (view i) "id_1000_abc" "anonymous_id_1000_xyz" in
  let calls := List.map call (List.map Z.of_nat (seq 0 20)) in
  let st1 := enqueue_all quota parseInt JSON_text st calls in
  let final := AnalyticsTracker.settle quota st1 0 false in
  all_queued quota parseInt JSON_text st calls
  /\ AnalyticsTracker.inflight st1
     = [List.map queued (List.map Z.of_nat (seq 0 20))]
  /\ AnalyticsTracker.queue (AnalyticsTracker.tracker final)
     = List.map queued (List.map Z.of_nat (seq 0 20))
  /\ AnalyticsTracker.persisted final
     = Some (List.map queued (List.map Z.of_nat (seq 0 19)))
  /\ ~ In (queued 19)
          (default [] (AnalyticsTracker.persisted final)).
Proof.
  intros quota parseInt JSON_text st view call queued calls st1 final.
  split; [vm_compute; repeat split|].
  split; [vm_compute; reflexivity|]. split; [vm_compute; reflexivity|].
  assert (Hp : AnalyticsTracker.persisted final
               = Some (List.map queued (List.map Z.of_nat (seq 0 19))))
    by (vm_compute; reflexivity).
  split; [exact Hp|]. rewrite Hp. cbn [default from_option id].
  vm_compute. intuition discriminate.
Qed.

(** ** Sorting *)

Section SortFacts.

Context {A : Type}.
Variable comparefn : A -> A -> Number.t.

Lemma insert_Permutation x l :
  Permutation (Array.insert comparefn x l) (x :: l).
Proof.
  induction l as [|y r IH]; simpl; [reflexivity|].
  destruct (Number.is_positive (comparefn x y)); [|reflexivity].
  rewrite IH. apply perm_swap.
Qed.

Lemma sort_Permutation l : Permutation (Array.sort comparefn l) l.
Proof.
  induction l as [|x r IH]; simpl; [reflexivity|].
  rewrite insert_Permutation, IH. reflexivity.
Qed.

Lemma sort_In x l : In x (Array.sort comparefn l) <-> In x l.
Proof.
  split; apply Permutation_in;
    [apply sort_Permutation | symmetry; apply sort_Permutation].
Qed.

Lemma insert_Sorted x l :
  (forall y, In y l -> Number.is_positive (comparefn x y) = true ->
             Number.is_positive (comparefn y x) = false) ->
  Sorted (before comparefn) l ->
  Sorted (before comparefn) (Array.insert comparefn x l).
Proof.
  intros Hasym Hl. induction l as [|y r IH]; simpl.
  - repeat constructor.
  - destruct (Number.is_positive (comparefn x y)) eqn:Hxy.
    + inversion Hl as [|? ? Hr Hhd]; subst.
      assert (Hyx : before comparefn y x)
        by (apply Hasym; [left; reflexivity | exact Hxy]).
      constructor; [apply IH; [intros z Hz; apply Hasym; now right | exact Hr]|].
      destruct r as [|z r']; simpl.
      * constructor. exact Hyx.
      * destruct (Number.is_positive (comparefn x z)).
        -- inversion Hhd; subst. constructor. assumption.
        -- constructor. exact Hyx.
    + constructor; [exact Hl|]. constructor. exact Hxy.
Qed.

Lemma sort_Sorted l :
  (forall a b, In a l -> In b l ->
               Number.is_positive (comparefn a b) = true ->
               Number.is_positive (comparefn b a) = false) ->
  Sorted (before comparefn) (Array.sort comparefn l).
Proof.
  induction l as [|x r IH]; intros Hasym; simpl; [constructor|].
  apply insert_Sorted.
  - intros y Hy. apply Hasym; [left; reflexivity | right; apply sort_In, Hy].
  - apply IH. intros a b Ha Hb. apply Hasym; now right.
Qed.

Lemma sort_of_Sorted l : Sorted (before comparefn) l -> Array.sort comparefn l = l.
Proof.
  induction l as [|x r IH]; intros Hl; simpl; [reflexivity|].
  inversion Hl as [|? ? Hr Hhd]; subst. rewrite (IH Hr).
  destruct r as [|y r']; simpl; [reflexivity|].
  inversion Hhd as [|? ? Hxy]; subst. unfold before in Hxy. rewrite Hxy.
  reflexivity.
Qed.

(** *** Consistent comparators *)

Lemma consistentb_consistent l :
  consistentb comparefn l = true -> consistent comparefn l.
Proof.
  unfold consistentb, consistent. intros H a b c Ha Hb Hc.
  rewrite forallb_forall in H. specialize (H a Ha).
  rewrite forallb_forall in H. specialize (H b Hb).
  rewrite forallb_forall in H. specialize (H c Hc).
  rewrite !andb_true_iff, negb_true_iff in H.
  destruct H as (((((Hnan & Hrefl) & Hsym) & Heq) & Hlt) & Hgt).
  split; [exact Hnan|]. split; [exact Hrefl|].
  split; [intros H1; rewrite H1 in Hsym; exact Hsym|].
  split; [intros H1 H2; rewrite H1, H2 in Heq; exact Heq|].
  split; [intros H1 H2; rewrite H1, H2 in Hlt; exact Hlt|].
  intros H1 H2. rewrite H1, H2 in Hgt. exact Hgt.
Qed.

Lemma consistent_Permutation l l' :
  Permutation l l' -> consistent comparefn l -> consistent comparefn l'.
Proof.
  intros Hp Hc a b c Ha Hb Hc'.
  apply Hc; eapply Permutation_in; try eassumption; symmetry; exact Hp.
Qed.

(** A Number that is not [NaN] is negative, zero or positive, and one of
    them only. *)
Lemma sign_cases (x : Number.t) :
  Number.is_nan x = false ->
  (Number.is_negative x = true /\ Number.is_zero x = false
   /\ Number.is_positive x = false)
  \/ (Number.is_negative x = false /\ Number.is_zero x = true
      /\ Number.is_positive x = false)
  \/ (Number.is_negative x = false /\ Number.is_zero x = false
      /\ Number.is_positive x = true).
Proof.
  destruct x as [s|s| |s m e]; try destruct s; cbn; intros H;
    try discriminate H; auto.
Qed.

Section Consistent.

Variable l : list A.
Hypothesis Hconsistent : consistent comparefn l.

(** What the comparator puts behind, it puts before the other way
    round. *)
Lemma consistent_behind a b :
  In a l -> In b l ->
  Number.is_positive (comparefn a b) = true ->
  Number.is_negative (comparefn b a) = true.
Proof.
  intros Ha Hb Hab.
  destruct (Hconsistent a b a Ha Hb Ha) as (Hnan & Hrefl & _ & _ & _ & Hgt).
  destruct (Hconsistent b a b Hb Ha Hb) as (Hnan' & _ & Hsym & _ & _ & _).
  destruct (sign_cases _ Hnan') as [(Hn & _)|[(_ & Hz & _)|(_ & _ & Hp)]].
  - exact Hn.
  - specialize (Hsym Hz).
    destruct (sign_cases _ Hnan) as [(_ & _ & H)|[(_ & _ & H)|(_ & H & _)]];
      congruence.
  - specialize (Hgt Hab Hp).
    destruct (comparefn a a) as [s| | |s m e]; try destruct s;
      cbn in Hrefl, Hgt; congruence.
Qed.

(** A consistent comparator never puts each of two elements behind the
    other. *)
Lemma consistent_asymmetric a b :
  In a l -> In b l ->
  Number.is_positive (comparefn a b) = true ->
  Number.is_positive (comparefn b a) = false.
Proof.
  intros Ha Hb Hab. pose proof (consistent_behind a b Ha Hb Hab) as Hn.
  destruct (Hconsistent b a b Hb Ha Hb) as (Hnan & _).
  destruct (sign_cases _ Hnan) as [(_ & _ & H)|[(H & _)|(H & _)]];
    congruence.
Qed.

Lemma consistent_before_trans a b c :
  In a l -> In b l -> In c l ->
  before comparefn a b -> before comparefn b c -> before comparefn a c.
Proof.
  unfold before. intros Ha Hb Hc Hab Hbc.
  destruct (Number.is_positive (comparefn a c)) eqn:Hac; [|reflexivity].
  exfalso.
  pose proof (consistent_behind a c Ha Hc Hac) as Hca.
  destruct (Hconsistent a b c Ha Hb Hc) as (Hnab & _ & Hsab & Heq & Hlt & _).
  destruct (Hconsistent b c a Hb Hc Ha) as (Hnbc & _ & Hsbc & _ & Hlt' & _).
  destruct (Hconsistent c a b Hc Ha Hb) as (Hnca & _ & _ & _ & Hlt'' & _).
  destruct (Hconsistent a c a Ha Hc Ha) as (Hnac & _).
  destruct (Hconsistent c b c Hc Hb Hc) as (Hncb & _).
  destruct (Hconsistent b a b Hb Ha Hb) as (Hnba & _).
  destruct (sign_cases _ Hnab) as [(Hab1 & _)|[(_ & Hab1 & _)|(_ & _ & Hab1)]];
    [| |congruence];
    (destruct (sign_cases _ Hnbc) as [(Hbc1 & _)|[(_ & Hbc1 & _)|(_ & _ & Hbc1)]];
     [| |congruence]).
  - (* a < b < c *)
    specialize (Hlt Hab1 Hbc1).
    destruct (sign_cases _ Hnac) as [(_ & _ & H)|[(_ & _ & H)|(H & _)]];
      congruence.
  - (* a < b = c: then c < a < b *)
    specialize (Hlt'' Hca Hab1). specialize (Hsbc Hbc1).
    destruct (sign_cases _ Hncb) as [(_ & H & _)|[(H & _)|(H & _)]];
      congruence.
  - (* a = b < c: then b < c < a *)
    specialize (Hlt' Hbc1 Hca). specialize (Hsab Hab1).
    destruct (sign_cases _ Hnba) as [(_ & H & _)|[(H & _)|(H & _)]];
      congruence.
  - (* a = b = c *)
    specialize (Heq Hab1 Hbc1).
    destruct (sign_cases _ Hnac) as [(_ & H & _)|[(_ & _ & H)|(_ & H & _)]];
      congruence.
Qed.

(** On elements on which the comparator is consistent the embedding
    gives the result ECMAScript prescribes: every element stands before
    all that follow it, and the elements the comparator holds equal keep
    their order. *)
Lemma sort_StronglySorted :
  StronglySorted (before comparefn) (Array.sort comparefn l).
Proof.
  assert (Hsorted : Sorted (before comparefn) (Array.sort comparefn l))
    by (apply sort_Sorted; intros a b; apply consistent_asymmetric).
  assert (Hin : forall x, In x (Array.sort comparefn l) -> In x l)
    by (intros x; apply sort_In).
  revert Hsorted Hin. generalize (Array.sort comparefn l) as s.
  induction s as [|x s IH]; intros Hsorted Hin; [constructor|].
  inversion Hsorted as [|? ? Hs Hhd]; subst.
  assert (IHs := IH Hs (fun y Hy => Hin y (or_intror Hy))).
  constructor; [exact IHs|].
  destruct s as [|y s']; [constructor|].
  inversion Hhd as [|? ? Hxy]; subst.
  inversion IHs as [|? ? _ Hy]; subst.
  constructor; [exact Hxy|].
  rewrite List.Forall_forall in Hy |- *. intros z Hz.
  apply (consistent_before_trans x y z);
    [ apply Hin; now left | apply Hin; right; now left
    | apply Hin; right; now right | exact Hxy | apply Hy, Hz ].
Qed.

Lemma insert_stable (p : A -> bool) x r :
  (forall y, p x = true -> p y = true -> In y r -> before comparefn x y) ->
  List.filter p (Array.insert comparefn x r) = List.filter p (x :: r).
Proof.
  induction r as [|y r IH]; intros H; [reflexivity|].
  cbn [Array.insert].
  destruct (Number.is_positive (comparefn x y)) eqn:Hxy; [|reflexivity].
  cbn [List.filter]. rewrite IH by (intros z Hx Hz Hin; apply H; auto; now right).
  cbn [List.filter].
  destruct (p x) eqn:Hx, (p y) eqn:Hy; try reflexivity.
  specialize (H y eq_refl Hy (or_introl eq_refl)). unfold before in H. congruence.
Qed.

Lemma sort_stable a r :
  In a l -> (forall x, In x r -> In x l) ->
  List.filter (equivalent comparefn a) (Array.sort comparefn r)
  = List.filter (equivalent comparefn a) r.
Proof.
  intros Ha. induction r as [|x r IH]; intros Hsub; [reflexivity|].
  cbn [Array.sort]. rewrite insert_stable.
  - cbn [List.filter]. rewrite IH by (intros y Hy; apply Hsub; now right).
    reflexivity.
  - intros y Hx Hy Hin. unfold equivalent in Hx, Hy.
    apply andb_prop in Hx, Hy. destruct Hx as [_ Hx], Hy as [Hy _].
    apply negb_true_iff in Hx, Hy.
    apply (consistent_before_trans x a y);
      [ apply Hsub; now left | exact Ha
      | apply Hsub; right; apply sort_In, Hin | exact Hx | exact Hy ].
Qed.

(** Sorting what is sorted changes nothing. *)
Lemma sort_idempotent :
  Array.sort comparefn (Array.sort comparefn l) = Array.sort comparefn l.
Proof.
  apply sort_of_Sorted, sort_Sorted. intros a b.
  apply consistent_asymmetric.
Qed.

End Consistent.

End SortFacts.

(** ** Filter engine: applyFilters *)

Section FilterFacts.

Import FilterManager.

Lemma axisb_axis selected actual :
  Selection.axisb selected actual = true <-> Selection.axis selected actual.
Proof.
  unfold Selection.axisb, Selection.axis.
  rewrite orb_true_iff, !String.eqb_eq. intuition congruence.
Qed.

Lemma has_every_tag_spec required item :
  has_every_tag required item = true
  <-> forall tag, In tag required ->
                  exists l, Resource.tags item = Some l /\ In tag l.
Proof.
  unfold has_every_tag. rewrite forallb_forall. split; intros H tag Hin.
  - specialize (H tag Hin). destruct (Resource.tags item) as [l|]; [|discriminate].
    exists l. split; [reflexivity|].
    unfold Array.includes in H. apply existsb_exists in H.
    destruct H as (x & Hx & Heq). apply String.eqb_eq in Heq. congruence.
  - destruct (H tag Hin) as (l & -> & Hl).
    unfold Array.includes. apply existsb_exists. exists tag.
    split; [exact Hl | apply String.eqb_refl].
Qed.

Lemma selectsb_selects s item :
  Selection.selectsb s item = true <-> Selection.selects s item.
Proof.
  unfold Selection.selectsb, Selection.selects.
  rewrite !andb_true_iff, !axisb_axis, has_every_tag_spec. tauto.
Qed.

Lemma filter_all {A} (f : A -> bool) l :
  (forall x, In x l -> f x = true) -> List.filter f l = l.
Proof.
  induction l as [|x r IH]; intros H; simpl; [reflexivity|].
  rewrite (H x (or_introl eq_refl)), IH; [reflexivity|].
  intros y Hy. apply H. now right.
Qed.

Lemma filter_filter {A} (f g : A -> bool) l :
  List.filter f (List.filter g l) = List.filter (fun x => g x && f x) l.
Proof.
  induction l as [|x r IH]; simpl; [reflexivity|].
  destruct (g x); simpl; [destruct (f x)|]; rewrite IH; reflexivity.
Qed.

Lemma filter_axis_filter selected field items :
  filter_axis (Value.Str selected) field items
  = List.filter (fun item => Selection.axisb selected (field item)) items.
Proof.
  unfold filter_axis, Selection.axisb. cbn [Value.is_string].
  destruct (String.eqb selected "all"); cbn [orb]; [|reflexivity].
  symmetry. apply filter_all. reflexivity.
Qed.

Lemma filter_tags_filter required items :
  filter_tags (Value.Arr required) items
  = Some (List.filter (has_every_tag required) items).
Proof.
  unfold filter_tags. destruct required as [|tag required]; [|reflexivity].
  cbn [length Nat.ltb Nat.leb]. f_equal. symmetry. apply filter_all. reflexivity.
Qed.

Variable localeCompare : string -> string -> Number.t.
Variable Date_parse : string -> Number.t.

(** [applyFilters] is the filter by the selection followed by the sort. *)
Lemma applyFilters_selection this resources s :
  applyFilters localeCompare Date_parse this resources
               (Some (Selection.to_filters s))
  = Some (applySorting localeCompare Date_parse
            (List.filter (Selection.selectsb s) resources)
            (Value.Str (Selection.sortBy s))).
Proof.
  unfold applyFilters. cbn [from_option id]. cbv zeta.
  change (get (Selection.to_filters s) "category")
    with (Value.Str (Selection.category s)).
  change (get (Selection.to_filters s) "grade")
    with (Value.Str (Selection.grade s)).
  change (get (Selection.to_filters s) "year")
    with (Value.Str (Selection.year s)).
  change (get (Selection.to_filters s) "subject")
    with (Value.Str (Selection.subject s)).
  change (get (Selection.to_filters s) "tags")
    with (Value.Arr (Selection.tags s)).
  change (get (Selection.to_filters s) "sortBy")
    with (Value.Str (Selection.sortBy s)).
  rewrite !filter_axis_filter, filter_tags_filter, !filter_filter.
  do 2 f_equal. apply List.filter_ext. intros item.
  unfold Selection.selectsb. rewrite !andb_assoc. reflexivity.
Qed.

Lemma applySorting_Permutation resources sortBy :
  Permutation (applySorting localeCompare Date_parse resources sortBy) resources.
Proof.
  unfold applySorting. destruct (comparator _ _ sortBy); [|reflexivity].
  apply sort_Permutation.
Qed.

(** Sorting again by a key whose comparator is consistent on the items
    changes nothing. *)
Lemma applySorting_idempotent resources sortBy :
  (forall comparefn,
      comparator localeCompare Date_parse sortBy = Some comparefn ->
      consistent comparefn resources) ->
  applySorting localeCompare Date_parse
    (applySorting localeCompare Date_parse resources sortBy) sortBy
  = applySorting localeCompare Date_parse resources sortBy.
Proof.
  intros H. unfold applySorting.
  destruct (comparator localeCompare Date_parse sortBy) as [comparefn|];
    [|reflexivity].
  apply sort_idempotent, H. reflexivity.
Qed.

End FilterFacts.



(** * Further properties *)

(** ** The storage wrapper: reading and writing *)

Section StorageReadWrite.

Import LocalStorage StorageManager.

Variable quota : LocalStorage.t -> string -> text -> bool.
Variable key_at : LocalStorage.t -> nat -> option string.

Lemma set_true storage now key v expires version :
  snd (set quota key_at storage now key v expires version) = true ->
  exists data,
    fst (set quota key_at storage now key v expires version) !! (prefix +:+ key)
    = Some (Envelope data)
    /\ value data = v /\ LocalStorage.expires data = deadline now expires.
Proof.
  unfold set, setItem.
  destruct (quota storage _ _); cbn [fst snd].
  - intros _. eexists. rewrite lookup_insert_eq. split; [reflexivity|]. auto.
  - destruct (quota (fst (clearExpired key_at storage now)) _ _); cbn [fst snd];
      [|discriminate].
    intros _. eexists. rewrite lookup_insert_eq. split; [reflexivity|]. auto.
Qed.

Lemma get_live storage now key defaultValue data :
  storage !! (prefix +:+ key) = Some (Envelope data) ->
  expired now data = false ->
  get storage now key defaultValue = (Some (value data), storage).
Proof. intros H He. unfold get, getItem. rewrite H, He. reflexivity. Qed.

Lemma get_expired storage now key defaultValue data :
  storage !! (prefix +:+ key) = Some (Envelope data) ->
  expired now data = true ->
  get storage now key defaultValue
  = (Some defaultValue, delete (prefix +:+ key) storage).
Proof. intros H He. unfold get, getItem. rewrite H, He. reflexivity. Qed.

End StorageReadWrite.

(** X1. A value that [set] has stored is what [get] returns, at any time
    when no expiry was asked for and up to the expiry otherwise; after
    the expiry [get] returns the default and removes the entry. An expiry
    of [0] and an expiry that falls on time [0] never pass. *)
Theorem set_then_get :
  forall (quota : LocalStorage.t -> string -> LocalStorage.text -> bool)
         (key_at : LocalStorage.t -> nat -> option string)
         (storage : LocalStorage.t) (now : Z) (key : string) (value : Json.t)
         (expires : option Z) (version : option string)
         (later : Z) (defaultValue : Json.t),
    snd (StorageManager.set quota key_at storage now key value expires version)
    = true ->
    let storage' :=
      fst (StorageManager.set quota key_at storage now key value expires version) in
    (match deadline now expires with
     | Some d => d = 0 \/ later <= d
     | None => True
     end ->
     StorageManager.get storage' later key defaultValue = (Some value, storage'))
    /\ (forall d, deadline now expires = Some d -> d <> 0 -> d < later ->
        StorageManager.get storage' later key defaultValue
        = (Some defaultValue, delete (StorageManager.prefix +:+ key) storage')).
Proof.
  intros quota key_at storage now key value expires version later defaultValue
         Hok storage'.
  destruct (set_true quota key_at storage now key value expires version Hok)
    as (data & Hdata & Hv & He).
  fold storage' in Hdata. split.
  - intros Hlive. rewrite <- Hv. apply get_live; [exact Hdata|].
    unfold StorageManager.expired. rewrite He.
    destruct (deadline now expires) as [d|]; [|reflexivity].
    destruct Hlive as [->|Hle]; [reflexivity|].
    replace (d <? later) with false by (symmetry; apply Z.ltb_ge; lia).
    apply andb_false_r.
  - intros d Hd Hd0 Hlt. apply (get_expired _ _ _ _ data); [exact Hdata|].
    unfold StorageManager.expired. rewrite He, Hd.
    replace (d =? 0) with false by (symmetry; apply Z.eqb_neq; exact Hd0).
    replace (d <? later) with true by (symmetry; apply Z.ltb_lt; exact Hlt).
    reflexivity.
Qed.

Lemma set_then_get_witness :
  let quota := fun (_ : LocalStorage.t) (_ : string) (_ : LocalStorage.text) => true in
  let key_at := fun (_ : LocalStorage.t) (_ : nat) => @None string in
  let storage' :=
    fst (StorageManager.set quota key_at ∅ 1000 "theme" (Json.Str "dark")
                            (Some 500) None) in
  StorageManager.get storage' 1500 "theme" Json.Null = (Some (Json.Str "dark"), storage')
  /\ StorageManager.get storage' 1501 "theme" Json.Null
     = (Some Json.Null, delete (StorageManager.prefix +:+ "theme") storage').
Proof.
  intros quota key_at storage'.
  pose proof (set_then_get quota key_at ∅ 1000 "theme" (Json.Str "dark")
                (Some 500) None) as H.
  split.
  - apply (proj1 (H 1500 Json.Null eq_refl)). right. simpl. lia.
  - apply (proj2 (H 1501 Json.Null eq_refl) 1500); [reflexivity | lia | lia].
Defined.

(** X2. [get] returns the default when the key is absent, when the stored
    text is not JSON and when it is [null]; for an array or a scalar that
    was stored without the wrapper's envelope it returns [undefined], not
    the default. It never changes another key, and its own key only by
    removing an expired entry. *)
Theorem get_edge_cases :
  forall (storage : LocalStorage.t) (now : Z) (key : string)
         (defaultValue : Json.t),
    let fullKey := StorageManager.prefix +:+ key in
    let result := StorageManager.get storage now key defaultValue in
    (storage !! fullKey = None -> result = (Some defaultValue, storage))
    /\ (forall s, storage !! fullKey = Some (LocalStorage.Raw s) ->
        result = (Some defaultValue, storage))
    /\ (storage !! fullKey = Some LocalStorage.Null ->
        result = (Some defaultValue, storage))
    /\ (forall l, storage !! fullKey = Some (LocalStorage.Items l) ->
        result = (None, storage))
    /\ (forall s, storage !! fullKey = Some (LocalStorage.Scalar s) ->
        result = (None, storage))
    /\ (forall k, k <> fullKey -> snd result !! k = storage !! k)
    /\ (snd result = storage
        \/ exists data,
             storage !! fullKey = Some (LocalStorage.Envelope data)
             /\ StorageManager.expired now data = true
             /\ fst result = Some defaultValue
             /\ snd result = delete fullKey storage).
Proof.
  intros storage now key defaultValue fullKey result. subst result fullKey.
  unfold StorageManager.get, LocalStorage.getItem, StorageManager.remove,
    LocalStorage.removeItem.
  repeat split.
  - intros ->. reflexivity.
  - intros s ->. reflexivity.
  - intros ->. reflexivity.
  - intros l ->. reflexivity.
  - intros s ->. reflexivity.
  - intros k Hk.
    destruct (storage !! (StorageManager.prefix +:+ key)) as [[s| |s|d|l]|];
      try reflexivity.
    destruct (StorageManager.expired now d); [|reflexivity].
    cbn [fst snd]. apply lookup_delete_ne. congruence.
  - destruct (storage !! (StorageManager.prefix +:+ key)) as [[s| |s|d|l]|] eqn:E;
      try (left; reflexivity).
    destruct (StorageManager.expired now d) eqn:He; [|left; reflexivity].
    right. exists d. auto.
Qed.

Lemma get_edge_cases_witness :
  let storage : LocalStorage.t :=
    {[ "examportal_list" := LocalStorage.Items [Json.Num 1] ]} in
  StorageManager.get storage 0 "missing" (Json.Str "none")
  = (Some (Json.Str "none"), storage)
  /\ StorageManager.get storage 0 "list" (Json.Str "none") = (None, storage).
Proof.
  intros storage.
  destruct (get_edge_cases storage 0 "missing" (Json.Str "none"))
    as (Hnone & _).
  destruct (get_edge_cases storage 0 "list" (Json.Str "none"))
    as (_ & _ & _ & Hitems & _).
  split.
  - apply Hnone. vm_compute. reflexivity.
  - apply (Hitems [Json.Num 1]). vm_compute. reflexivity.
Defined.

(** ** The storage wrapper: cleaning up *)

Section StorageCleanup.

Import LocalStorage StorageManager.

Variable quota : LocalStorage.t -> string -> text -> bool.
Variable key_at : LocalStorage.t -> nat -> option string.

Lemma clear_one_removable now (storage : LocalStorage.t) key cleared k :
  fst (clear_one now storage key cleared) !! k = storage !! k
  \/ (fst (clear_one now storage key cleared) !! k = None
      /\ removable now storage k).
Proof.
  unfold clear_one, removeItem, getItem, removable.
  destruct (startsWith key prefix) eqn:Hp; [|left; reflexivity].
  destruct (decide (key = k)) as [<-|Hne].
  - destruct (storage !! key) as [[s| |s|d|l]|] eqn:Hk; cbn [fst];
      try (left; exact Hk);
      try (right; split; [apply lookup_delete_eq | split; [exact Hp | exact I]]).
    + destruct (expired now d) eqn:He; cbn [fst]; [|left; exact Hk].
      right. split; [apply lookup_delete_eq | split; [exact Hp | reflexivity]].
    + left. apply lookup_delete_eq.
  - left. repeat case_match; cbn [fst]; try reflexivity;
      apply lookup_delete_ne; exact Hne.
Qed.

Lemma removable_earlier now (storage storage1 : LocalStorage.t) k :
  (storage1 !! k = storage !! k \/ storage1 !! k = None) ->
  removable now storage1 k -> removable now storage k.
Proof.
  intros [Hk|Hk] [Hp Hr]; split; try exact Hp.
  - rewrite <- Hk. exact Hr.
  - rewrite Hk in Hr. destruct Hr.
Qed.

Lemma clear_loop_removable now storage i cleared k :
  fst (clear_loop key_at now storage i cleared) !! k = storage !! k
  \/ (fst (clear_loop key_at now storage i cleared) !! k = None
      /\ removable now storage k).
Proof.
  funelim (clear_loop key_at now storage i cleared).
  - left; reflexivity.
  - destruct (clear_one_removable now storage key cleared k) as [H1|[H1 Hr1]].
    + destruct (H k) as [Hk|[Hk Hr]].
      * left. congruence.
      * right. split; [exact Hk|].
        eapply removable_earlier; [left; exact H1 | exact Hr].
    + destruct (H k) as [Hk|[Hk Hr]].
      * right. split; [congruence | exact Hr1].
      * right. split; [exact Hk | exact Hr1].
  - left; reflexivity.
Qed.

Lemma clear_one_count now (storage : LocalStorage.t) key cleared :
  is_Some (storage !! key) ->
  (snd (clear_one now storage key cleared)
   + size (fst (clear_one now storage key cleared))
   = cleared + size storage)%nat.
Proof.
  intros [v Hv].
  assert (Hdel : (S (size (delete key storage)) = size storage)%nat).
  { rewrite map_size_delete, Hv. simpl.
    assert (size storage <> 0)%nat; [|lia].
    intros H0. apply map_size_empty_inv in H0. subst storage.
    rewrite lookup_empty in Hv. discriminate. }
  unfold clear_one, removeItem, getItem. rewrite Hv.
  repeat case_match; cbn [fst snd]; lia.
Qed.

(** The host never answers [null] below [length] and only names keys
    that are there. *)
Hypothesis key_at_names :
  forall storage i, (i < size storage)%nat ->
    exists k, key_at storage i = Some k /\ is_Some (storage !! k).

Lemma clear_loop_count now storage i cleared :
  (snd (clear_loop key_at now storage i cleared)
   + size (fst (clear_loop key_at now storage i cleared))
   = cleared + size storage)%nat.
Proof.
  funelim (clear_loop key_at now storage i cleared).
  - reflexivity.
  - rewrite H. apply clear_one_count.
    destruct (key_at_names storage i l) as (k & Hk & Hs). congruence.
  - destruct (key_at_names storage i l) as (k & Hk & Hs). congruence.
Qed.

End StorageCleanup.

Lemma key_order_names (storage : LocalStorage.t) i :
  (i < size storage)%nat ->
  exists k, key_order storage i = Some k /\ is_Some (storage !! k).
Proof.
  intros Hi. unfold key_order.
  destruct ((map_to_list storage).*1 !! i) as [k|] eqn:E.
  - exists k. split; [reflexivity|].
    apply list_elem_of_lookup_2 in E.
    apply list_elem_of_fmap in E. destruct E as ([k' v] & -> & Hin).
    apply elem_of_map_to_list in Hin. simpl. rewrite Hin. eauto.
  - apply lookup_ge_None in E.
    rewrite length_fmap, length_map_to_list in E. lia.
Qed.

(** X4. [clearExpired] removes nothing but entries of the namespace that
    are expired, are not JSON or are [null]: every other entry, and every
    key outside the namespace, is kept as it is. When the host names a
    key that is there for every index, the number it returns is the
    number of entries it removed. *)
Theorem clearExpired_removes_stale_only :
  forall (key_at : LocalStorage.t -> nat -> option string)
         (storage : LocalStorage.t) (now : Z),
    let result := StorageManager.clearExpired key_at storage now in
    (forall k, fst result !! k = storage !! k
               \/ (fst result !! k = None /\ removable now storage k))
    /\ ((forall s i, (i < size s)%nat ->
           exists k, key_at s i = Some k /\ is_Some (s !! k)) ->
        (snd result + size (fst result) = size storage)%nat).
Proof.
  intros key_at storage now result. subst result. split.
  - intros k. apply clear_loop_removable.
  - intros Hnames. unfold StorageManager.clearExpired.
    rewrite (clear_loop_count key_at Hnames). reflexivity.
Qed.

Lemma clearExpired_removes_stale_only_witness :
  let storage : LocalStorage.t :=
    {[ "examportal_old" :=
         LocalStorage.Envelope
           (LocalStorage.mkEnvelope (Json.Str "x") 0 (Some 10) "1.0");
       "theme" := LocalStorage.Raw "dark" ]} in
  (forall s i, (i < size s)%nat ->
     exists k, key_order s i = Some k /\ is_Some (s !! k))
  /\ (snd (StorageManager.clearExpired key_order storage 20)
      + size (fst (StorageManager.clearExpired key_order storage 20))
      = size storage)%nat.
Proof.
  intros storage. split; [exact key_order_names|].
  apply (proj2 (clearExpired_removes_stale_only key_order storage 20)).
  exact key_order_names.
Defined.

Lemma strip_prefix_append p r : JsString.strip_prefix p (p +:+ r) = Some r.
Proof.
  induction p as [|a p IH]; simpl; [reflexivity|].
  rewrite Ascii.eqb_refl. exact IH.
Qed.

(** X3. Whatever [set] answers, it changes no key but its own, apart
    from the stale entries of the namespace that the cleanup after a
    refused write removes; a key outside the namespace is never changed.
    When the host accepts the write at once nothing else changes at all,
    and when [set] answers [false] its key holds what it held or
    nothing. *)
Theorem set_changes_own_key_only :
  forall (quota : LocalStorage.t -> string -> LocalStorage.text -> bool)
         (key_at : LocalStorage.t -> nat -> option string)
         (storage : LocalStorage.t) (now : Z) (key : string) (value : Json.t)
         (expires : option Z) (version : option string),
    let fullKey := StorageManager.prefix +:+ key in
    let result :=
      StorageManager.set quota key_at storage now key value expires version in
    (forall k, k <> fullKey ->
       fst result !! k = storage !! k
       \/ (fst result !! k = None /\ removable now storage k))
    /\ (forall k, StorageManager.startsWith k StorageManager.prefix = false ->
          fst result !! k = storage !! k)
    /\ ((forall v, quota storage fullKey v = true) ->
          forall k, k <> fullKey -> fst result !! k = storage !! k)
    /\ (snd result = false ->
          fst result !! fullKey = storage !! fullKey
          \/ fst result !! fullKey = None).
Proof.
  intros quota key_at storage now key value expires version fullKey result.
  assert (Hown : StorageManager.startsWith fullKey StorageManager.prefix = true).
  { unfold StorageManager.startsWith, fullKey.
    rewrite strip_prefix_append. reflexivity. }
  assert (Hframe : forall k, k <> fullKey ->
            fst result !! k = storage !! k
            \/ (fst result !! k = None /\ removable now storage k)).
  { intros k Hk. subst result. unfold StorageManager.set, LocalStorage.setItem.
    fold fullKey.
    destruct (quota storage fullKey _); cbn [fst].
    - left. apply lookup_insert_ne. congruence.
    - destruct (quota (fst (StorageManager.clearExpired key_at storage now)) _ _);
        cbn [fst].
      + rewrite lookup_insert_ne by congruence. apply clear_loop_removable.
      + apply clear_loop_removable. }
  split; [exact Hframe|]. split; [|split].
  - intros k Hk.
    assert (Hne : k <> fullKey) by (intros ->; congruence).
    destruct (Hframe k Hne) as [H|[_ [Hp _]]]; [exact H | congruence].
  - intros Hq k Hk. subst result.
    unfold StorageManager.set, LocalStorage.setItem. fold fullKey.
    rewrite Hq. cbn [fst]. apply lookup_insert_ne. congruence.
  - subst result. unfold StorageManager.set, LocalStorage.setItem. fold fullKey.
    destruct (quota storage fullKey _); cbn [fst snd]; [discriminate|].
    destruct (quota (fst (StorageManager.clearExpired key_at storage now)) _ _);
      cbn [fst snd]; [discriminate|].
    intros _. apply clearExpired_lookup.
Qed.

Lemma set_changes_own_key_only_witness :
  let quota := fun (_ : LocalStorage.t) (_ : string) (_ : LocalStorage.text) => false in
  let storage : LocalStorage.t := {[ "theme" := LocalStorage.Raw "dark" ]} in
  StorageManager.startsWith "theme" StorageManager.prefix = false
  /\ fst (StorageManager.set quota key_order storage 5 "favorites"
            (Json.Arr []) None None) !! "theme"
     = Some (LocalStorage.Raw "dark").
Proof.
  intros quota storage.
  assert (Hout : StorageManager.startsWith "theme" StorageManager.prefix = false)
    by reflexivity.
  split; [exact Hout|].
  rewrite (proj1 (proj2 (set_changes_own_key_only quota key_order storage 5
                           "favorites" (Json.Arr []) None None)) "theme" Hout).
  vm_compute. reflexivity.
Defined.

(** *** clear and keys *)

Section StorageEnumeration.

Import LocalStorage StorageManager.

Variable key_at : LocalStorage.t -> nat -> option string.

Lemma fold_removeItem_lookup (ks : list string) (storage : LocalStorage.t) k :
  fold_left removeItem ks storage !! k
  = if decide (k ∈ ks) then None else storage !! k.
Proof.
  revert storage. induction ks as [|a ks IH]; intros storage; simpl.
  - destruct (decide (k ∈ [])) as [Hin|]; [|reflexivity].
    apply elem_of_nil in Hin. destruct Hin.
  - rewrite IH. unfold removeItem.
    destruct (decide (k ∈ ks)) as [Hin|Hnin].
    + destruct (decide (k ∈ a :: ks)) as [_|Hno]; [reflexivity|].
      exfalso. apply Hno. now right.
    + destruct (decide (a = k)) as [->|Hne].
      * rewrite lookup_delete_eq.
        destruct (decide (k ∈ k :: ks)) as [_|Hno]; [reflexivity|].
        exfalso. apply Hno. now left.
      * rewrite lookup_delete_ne by exact Hne.
        destruct (decide (k ∈ a :: ks)) as [Hin|_]; [|reflexivity].
        apply elem_of_cons in Hin. destruct Hin; [congruence | contradiction].
Qed.

Lemma enumerate_enumerates storage :
  enumerates key_at storage ->
  exists all, enumerate key_at storage = Some all
              /\ forall k, In k all <-> is_Some (storage !! k).
Proof.
  intros [Hnames Hall]. unfold enumerate.
  destruct (mapM (key_at storage) (seq 0 (size storage))) as [all|] eqn:E.
  - exists all. split; [reflexivity|].
    apply mapM_Some_1 in E. intros k. split.
    + intros Hin. apply list_elem_of_In in Hin.
      apply list_elem_of_lookup in Hin. destruct Hin as [j Hj].
      destruct (Forall2_lookup_r _ _ _ _ _ E Hj) as (i & Hi & Hk).
      apply lookup_seq in Hi. destruct Hi as [-> Hlt]. simpl in Hk.
      destruct (Hnames j Hlt) as (k' & Hk' & Hs). congruence.
    + intros Hs. destruct (Hall k Hs) as (i & Hlt & Hk).
      assert (Hi : seq 0 (size storage) !! i = Some i)
        by (apply lookup_seq; split; [reflexivity | exact Hlt]).
      destruct (Forall2_lookup_l _ _ _ _ _ E Hi) as (k' & Hk' & Hkk).
      apply list_elem_of_In. apply list_elem_of_lookup. exists i. congruence.
  - exfalso. apply mapM_None_1 in E. apply Exists_exists in E.
    destruct E as (i & Hin & Hnone). apply list_elem_of_In, in_seq in Hin.
    destruct (Hnames i ltac:(lia)) as (k & Hk & _). congruence.
Qed.

End StorageEnumeration.

Lemma key_order_enumerates (storage : LocalStorage.t) :
  enumerates key_order storage.
Proof.
  split; [apply key_order_names|].
  intros k [v Hv]. unfold key_order.
  assert (Hin : k ∈ (map_to_list storage).*1).
  { apply list_elem_of_fmap. exists (k, v). split; [reflexivity|].
    apply elem_of_map_to_list. exact Hv. }
  apply list_elem_of_lookup in Hin. destruct Hin as [i Hi]. exists i.
  split; [|exact Hi].
  apply lookup_lt_Some in Hi.
  rewrite length_fmap, length_map_to_list in Hi. exact Hi.
Qed.

(** X5. [clear] never touches a key outside the namespace, and when it
    answers [false] it has removed nothing. When the host enumerates the
    keys of the storage, [clear] answers [true] and no key of the
    namespace is left, so that every [get] returns its default. *)
Theorem clear_removes_the_namespace :
  forall (key_at : LocalStorage.t -> nat -> option string)
         (storage : LocalStorage.t),
    let result := StorageManager.clear key_at storage in
    (forall k, StorageManager.startsWith k StorageManager.prefix = false ->
       fst result !! k = storage !! k)
    /\ (snd result = false -> fst result = storage)
    /\ (enumerates key_at storage ->
        snd result = true
        /\ (forall k, StorageManager.startsWith k StorageManager.prefix = true ->
              fst result !! k = None)
        /\ (forall now key defaultValue,
              StorageManager.get (fst result) now key defaultValue
              = (Some defaultValue, fst result))).
Proof.
  intros key_at storage result. subst result. unfold StorageManager.clear.
  split; [|split].
  - intros k Hk. destruct (StorageManager.enumerate key_at storage) as [all|];
      [|reflexivity].
    cbn [fst]. rewrite fold_removeItem_lookup.
    destruct (decide _) as [Hin|]; [|reflexivity].
    apply list_elem_of_In, filter_In in Hin. destruct Hin as [_ Hp]. congruence.
  - destruct (StorageManager.enumerate key_at storage); [discriminate|reflexivity].
  - intros Henum.
    destruct (enumerate_enumerates key_at storage Henum) as (all & -> & Hall).
    cbn [fst snd]. split; [reflexivity|].
    assert (Hgone : forall k,
              StorageManager.startsWith k StorageManager.prefix = true ->
              fold_left LocalStorage.removeItem
                (List.filter (fun key => StorageManager.startsWith key StorageManager.prefix) all)
                storage !! k = None).
    { intros k Hk. rewrite fold_removeItem_lookup.
      destruct (decide _) as [Hin|Hnin]; [reflexivity|].
      destruct (storage !! k) as [v|] eqn:Hv; [|reflexivity].
      exfalso. apply Hnin. apply list_elem_of_In, filter_In. split; [|exact Hk].
      apply Hall. rewrite Hv. eauto. }
    split; [exact Hgone|].
    intros now key defaultValue.
    unfold StorageManager.get, LocalStorage.getItem.
    rewrite Hgone; [reflexivity|].
    unfold StorageManager.startsWith. rewrite strip_prefix_append. reflexivity.
Qed.

Lemma clear_removes_the_namespace_witness :
  let storage : LocalStorage.t :=
    {[ "examportal_favorites" := LocalStorage.Items [Json.Str "math-9"];
       "theme" := LocalStorage.Raw "dark" ]} in
  enumerates key_order storage
  /\ snd (StorageManager.clear key_order storage) = true
  /\ fst (StorageManager.clear key_order storage) !! "examportal_favorites" = None
  /\ fst (StorageManager.clear key_order storage) !! "theme"
     = Some (LocalStorage.Raw "dark").
Proof.
  intros storage.
  pose proof (key_order_enumerates storage) as Henum.
  destruct (clear_removes_the_namespace key_order storage)
    as (Hout & _ & Hin).
  destruct (Hin Henum) as (Htrue & Hgone & _).
  split; [exact Henum|]. split; [exact Htrue|].
  split; [apply Hgone; reflexivity|].
  rewrite Hout by reflexivity. vm_compute. reflexivity.
Defined.

(** X6. When the host enumerates the keys of the storage, [keys] lists
    the keys of the namespace without their prefix: a name is listed
    exactly when the storage holds the prefixed key. *)
Theorem keys_lists_the_namespace :
  forall (key_at : LocalStorage.t -> nat -> option string)
         (storage : LocalStorage.t),
    enumerates key_at storage ->
    exists names,
      StorageManager.keys key_at storage = Returns names
      /\ forall name,
           In name names
           <-> is_Some (storage !! (StorageManager.prefix +:+ name)).
Proof.
  intros key_at storage Henum.
  destruct (enumerate_enumerates key_at storage Henum) as (all & Hall & Hin).
  unfold StorageManager.keys. rewrite Hall. eexists. split; [reflexivity|].
  intros name. rewrite <- list_elem_of_In, list_elem_of_omap. split.
  - intros (key & Hkey & Hstrip). apply list_elem_of_In in Hkey.
    apply strip_prefix_app in Hstrip. subst key. apply Hin, Hkey.
  - intros Hs. exists (StorageManager.prefix +:+ name).
    split; [apply list_elem_of_In, Hin, Hs | apply strip_prefix_append].
Qed.

Lemma keys_lists_the_namespace_witness :
  let storage : LocalStorage.t :=
    {[ "examportal_favorites" := LocalStorage.Items [Json.Str "math-9"];
       "theme" := LocalStorage.Raw "dark" ]} in
  enumerates key_order storage
  /\ (forall name,
        In name (match StorageManager.keys key_order storage with
                 | Returns names => names
                 | Throws => []
                 end)
        <-> is_Some (storage !! (StorageManager.prefix +:+ name))).
Proof.
  intros storage.
  pose proof (key_order_enumerates storage) as Henum.
  split; [exact Henum|].
  destruct (keys_lists_the_namespace key_order storage Henum)
    as (names & -> & Hnames).
  exact Hnames.
Defined.

(** ** The storage wrapper: favorites and recent searches *)

Section StorageLists.

Import LocalStorage StorageManager.

Variable quota : LocalStorage.t -> string -> text -> bool.
Variable key_at : LocalStorage.t -> nat -> option string.

Lemma get_again storage now key defaultValue v storage1 :
  get storage now key defaultValue = (v, storage1) ->
  get storage1 now key defaultValue = (v, storage1).
Proof.
  intros H. pose proof (get_after_get storage now key defaultValue) as Ha.
  rewrite H in Ha. exact Ha.
Qed.

Lemma get_stored storage now key v storage2 defaultValue :
  set quota key_at storage now key v None None = (storage2, true) ->
  get storage2 now key defaultValue = (Some v, storage2).
Proof.
  intros Hset.
  destruct (set_true quota key_at storage now key v None None) as (d & Hd & Hv & He);
    [rewrite Hset; reflexivity|].
  rewrite Hset in Hd. cbn [fst] in Hd. rewrite <- Hv.
  apply get_live; [exact Hd|]. unfold expired. rewrite He. reflexivity.
Qed.

Lemma existsb_is_id_other other itemId (l : list Json.t) :
  other <> itemId ->
  existsb (is_id other) (l ++ [Json.Str itemId]) = existsb (is_id other) l.
Proof.
  intros Hne. rewrite existsb_app. cbn [existsb is_id].
  replace (String.eqb itemId other) with false
    by (symmetry; apply String.eqb_neq; congruence).
  rewrite !orb_false_r. reflexivity.
Qed.

Lemma existsb_splice1_other other itemId (l : list Json.t) index :
  other <> itemId -> indexOf l itemId = Some index ->
  existsb (is_id other) (Array.splice1 l index) = existsb (is_id other) l.
Proof.
  intros Hne. revert index. induction l as [|x l IH]; intros index Hi;
    [reflexivity|].
  cbn [indexOf] in Hi. destruct (is_id itemId x) eqn:Hx.
  - inversion Hi; subst index. cbn [Array.splice1 existsb].
    destruct x; try discriminate. cbn [is_id] in *.
    apply String.eqb_eq in Hx. subst s.
    replace (String.eqb itemId other) with false
      by (symmetry; apply String.eqb_neq; congruence).
    reflexivity.
  - destruct (indexOf l itemId) as [j|] eqn:Hj; [|discriminate].
    inversion Hi; subst index. cbn [Array.splice1 existsb].
    rewrite (IH j eq_refl). reflexivity.
Qed.

Lemma existsb_splice1_self itemId (l : list Json.t) index :
  List.NoDup l -> indexOf l itemId = Some index ->
  existsb (is_id itemId) (Array.splice1 l index) = false.
Proof.
  intros Hnd Hi. apply not_true_is_false. rewrite existsb_is_id.
  apply indexOf_None. apply indexOf_splice1; assumption.
Qed.

Lemma NoDup_read_array storage now key :
  List.NoDup (stored_array storage key) ->
  List.NoDup (read_array storage now key).
Proof.
  intros Hnd.
  destruct (read_array_cases storage now key) as [[-> _]|[-> _]];
    [exact Hnd | constructor].
Qed.

End StorageLists.

(** X8. After an [addFavorite] that answered [true], [isFavorite] answers
    [true] for that identifier; after a [removeFavorite] that answered
    [true] on favorites without duplicates, it answers [false]. Neither
    changes the answer for any other identifier. *)
Theorem isFavorite_after_add_and_remove :
  forall (quota : LocalStorage.t -> string -> LocalStorage.text -> bool)
         (key_at : LocalStorage.t -> nat -> option string)
         (storage : LocalStorage.t) (now : Z) (itemId : string),
    let added := StorageManager.addFavorite quota key_at storage now itemId in
    let removed := StorageManager.removeFavorite quota key_at storage now itemId in
    (fst added = Returns true ->
     fst (StorageManager.isFavorite (snd added) now itemId) = Returns true
     /\ forall other, other <> itemId ->
          fst (StorageManager.isFavorite (snd added) now other)
          = fst (StorageManager.isFavorite storage now other))
    /\ (fst removed = Returns true ->
        (List.NoDup (stored_array storage "favorites") ->
         fst (StorageManager.isFavorite (snd removed) now itemId) = Returns false)
        /\ forall other, other <> itemId ->
             fst (StorageManager.isFavorite (snd removed) now other)
             = fst (StorageManager.isFavorite storage now other)).
Proof.
  intros quota key_at storage now itemId added removed. subst added removed.
  pose proof (NoDup_read_array storage now "favorites") as Hnodup.
  unfold read_array in Hnodup.
  unfold StorageManager.addFavorite, StorageManager.removeFavorite,
    StorageManager.isFavorite, StorageManager.getFavorites in *.
  destruct (StorageManager.get storage now "favorites" (Json.Arr []))
    as [v storage1] eqn:Hget.
  pose proof (get_again _ _ _ _ _ _ Hget) as Hagain.
  cbn [fst] in Hnodup.
  destruct v as [[|b|n|s|l|o]|]; cbn [fst snd];
    try (split; intros H; discriminate H).
  - (* a stored string *)
    split.
    + destruct (JsString.includes s itemId) eqn:Hinc; cbn [negb fst snd];
        [|discriminate].
      intros _. rewrite Hagain. cbn [fst]. rewrite Hinc. auto.
    + destruct (JsString.includes s itemId) eqn:Hinc; cbn [negb fst snd];
        [discriminate|].
      intros _. rewrite Hagain. cbn [fst]. rewrite Hinc. auto.
  - (* the array *)
    split.
    + destruct (existsb (StorageManager.is_id itemId) l) eqn:Hin; cbn [negb].
      * cbn [fst snd]. intros _. rewrite Hagain. cbn [fst]. rewrite Hin. auto.
      * destruct (StorageManager.set quota key_at storage1 now "favorites"
                    (Json.Arr (l ++ [Json.Str itemId])) None None)
          as [storage2 ok] eqn:Hset.
        cbn [fst snd]. intros Hok. inversion Hok; subst ok.
        rewrite (get_stored quota key_at _ _ _ _ _ (Json.Arr []) Hset).
        cbn [fst]. split.
        -- f_equal. rewrite existsb_app. cbn [existsb StorageManager.is_id].
           rewrite String.eqb_refl. apply orb_true_r.
        -- intros other Hne. f_equal. apply existsb_is_id_other, Hne.
    + destruct (StorageManager.indexOf l itemId) as [index|] eqn:Hi.
      * destruct (StorageManager.set quota key_at storage1 now "favorites"
                    (Json.Arr (Array.splice1 l index)) None None)
          as [storage2 ok] eqn:Hset.
        cbn [fst snd]. intros Hok. inversion Hok; subst ok.
        rewrite (get_stored quota key_at _ _ _ _ _ (Json.Arr []) Hset).
        cbn [fst]. split.
        -- intros Hnd. f_equal. apply existsb_splice1_self; [|exact Hi].
           apply Hnodup, Hnd.
        -- intros other Hne. f_equal.
           apply (existsb_splice1_other other itemId); assumption.
      * cbn [fst snd]. intros _. rewrite Hagain. cbn [fst]. split; [|auto].
        intros _. f_equal. apply not_true_is_false.
        rewrite existsb_is_id. apply indexOf_None, Hi.
Qed.

Lemma isFavorite_after_add_and_remove_witness :
  let quota := fun (_ : LocalStorage.t) (_ : string) (_ : LocalStorage.text) => true in
  let added := StorageManager.addFavorite quota key_order ∅ 1000 "math-9" in
  fst added = Returns true
  /\ fst (StorageManager.isFavorite (snd added) 1000 "math-9") = Returns true.
Proof.
  intros quota added.
  assert (Hok : fst added = Returns true) by reflexivity.
  split; [exact Hok|].
  apply (proj1 (isFavorite_after_add_and_remove quota key_order ∅ 1000 "math-9")).
  exact Hok.
Defined.

Lemma without_first_In x l y :
  In y (without_first x l) -> In y l.
Proof.
  unfold without_first. destruct (StorageManager.indexOf l x); [|auto].
  apply splice1_In.
Qed.

Lemma without_first_NoDup x l :
  List.NoDup l ->
  List.NoDup (without_first x l) /\ ~ In (Json.Str x) (without_first x l).
Proof.
  intros Hnd. unfold without_first.
  destruct (StorageManager.indexOf l x) as [index|] eqn:Hi.
  - split; [apply splice1_NoDup, Hnd|].
    apply indexOf_None, indexOf_splice1; assumption.
  - split; [exact Hnd | apply indexOf_None, Hi].
Qed.

Lemma take_In {A} n (l : list A) x : In x (take n l) -> In x l.
Proof.
  revert n. induction l as [|y l IH]; intros [|n] H; simpl in *;
    try contradiction.
  destruct H as [H|H]; [now left | right; eapply IH, H].
Qed.

Lemma take_NoDup {A} n (l : list A) : List.NoDup l -> List.NoDup (take n l).
Proof.
  revert n. induction l as [|y l IH]; intros [|n] H; simpl;
    try constructor.
  - inversion H; subst. intros Hin. apply take_In in Hin. contradiction.
  - inversion H; subst. apply IH. assumption.
Qed.

(** X7. [addSearch] ignores a query that is empty or, once trimmed,
    shorter than two code units. Otherwise, when it answers [true], the
    stored searches are the trimmed query followed by the earlier
    searches without its first occurrence, cut to 50: the newest search
    comes first, searches that were pairwise different stay so, and
    [getRecentSearches] returns the first [limit] of them. *)
Theorem addSearch_newest_first :
  forall (quota : LocalStorage.t -> string -> LocalStorage.text -> bool)
         (key_at : LocalStorage.t -> nat -> option string)
         (trim : string -> string) (slice : string -> nat -> string)
         (storage : LocalStorage.t) (now : Z) (query : string),
    let result := StorageManager.addSearch quota key_at trim storage now query in
    let earlier := read_array storage now "recent_searches" in
    let after := stored_array (snd result) "recent_searches" in
    (query = "" \/ (JsString.utf16_length (trim query) < 2)%nat ->
     result = (Returns None, storage))
    /\ (fst result = Returns (Some true) ->
        after = take 50 (Json.Str (trim query) :: without_first (trim query) earlier)
        /\ (length after <= 50)%nat
        /\ (List.NoDup earlier -> List.NoDup after)
        /\ forall limit,
             StorageManager.getRecentSearches slice (snd result) now limit
             = (Returns (Json.Arr (take limit after)), snd result)).
Proof.
  intros quota key_at trim slice storage now query result earlier after.
  subst result earlier after. unfold StorageManager.addSearch, read_array.
  split.
  - intros [->|Hshort]; [reflexivity|].
    replace (JsString.utf16_length (trim query) <? 2)%nat with true
      by (symmetry; apply Nat.ltb_lt; exact Hshort).
    rewrite orb_true_r. reflexivity.
  - destruct (String.eqb query "" || (JsString.utf16_length (trim query) <? 2)%nat);
      [discriminate|].
    destruct (StorageManager.get storage now "recent_searches" (Json.Arr []))
      as [v storage1] eqn:Hget.
    destruct v as [[|b|n|s|l|o]|]; cbn [fst snd]; try discriminate.
    fold (without_first (trim query) l).
    rewrite truncate_is_take.
    destruct (StorageManager.set quota key_at storage1 now "recent_searches"
                (Json.Arr (take 50 (Json.Str (trim query)
                                    :: without_first (trim query) l)))
                None None) as [storage2 ok] eqn:Hset.
    cbn [fst snd]. intros Hok. inversion Hok; subst ok.
    pose proof (get_stored quota key_at _ _ _ _ _ (Json.Arr []) Hset) as Hread.
    assert (Hafter : stored_array storage2 "recent_searches"
                     = take 50 (Json.Str (trim query)
                                :: without_first (trim query) l)).
    { destruct (set_true quota key_at storage1 now "recent_searches"
                  (Json.Arr (take 50 (Json.Str (trim query)
                                      :: without_first (trim query) l)))
                  None None) as (d & Hd & Hv & _);
        [rewrite Hset; reflexivity|].
      rewrite Hset in Hd. cbn [fst] in Hd.
      unfold stored_array. rewrite Hd, Hv. reflexivity. }
    rewrite Hafter. split; [reflexivity|]. split; [|split].
    + rewrite length_take. lia.
    + intros Hnd. destruct (without_first_NoDup (trim query) l Hnd) as [Hnd' Hnot].
      apply take_NoDup. constructor; assumption.
    + intros limit. unfold StorageManager.getRecentSearches.
      rewrite Hread. reflexivity.
Qed.

Lemma addSearch_newest_first_witness :
  let quota := fun (_ : LocalStorage.t) (_ : string) (_ : LocalStorage.text) => true in
  let trim := fun s : string => s in
  let slice := fun (s : string) (_ : nat) => s in
  let once := snd (StorageManager.addSearch quota key_order trim ∅ 10 "algebra") in
  let twice := StorageManager.addSearch quota key_order trim once 20 "physics" in
  fst twice = Returns (Some true)
  /\ stored_array (snd twice) "recent_searches"
     = [Json.Str "physics"; Json.Str "algebra"].
Proof.
  intros quota trim slice once twice.
  assert (Hok : fst twice = Returns (Some true)) by reflexivity.
  split; [exact Hok|].
  subst twice.
  rewrite (proj1 (proj2 (addSearch_newest_first quota key_order trim slice
                           once 20 "physics") Hok)).
  vm_compute. reflexivity.
Defined.

(** ** The storage wrapper: the index of the cleanup loop *)

Section StorageCleanupLoop.

Import LocalStorage StorageManager.

Variable key_at : LocalStorage.t -> nat -> option string.

Hypothesis key_at_names :
  forall storage i, (i < size storage)%nat ->
    exists k, key_at storage i = Some k /\ is_Some (storage !! k).

Lemma clear_one_stale now (storage : LocalStorage.t) key cleared :
  removable now storage key ->
  clear_one now storage key cleared = (delete key storage, S cleared).
Proof.
  intros [Hp Hr]. unfold clear_one, getItem, removeItem. rewrite Hp.
  destruct (storage !! key) as [[s| |s|d|l]|];
    [reflexivity | reflexivity | destruct Hr | | destruct Hr | destruct Hr].
  rewrite Hr. reflexivity.
Qed.

Lemma size_delete_present (storage : LocalStorage.t) key :
  is_Some (storage !! key) -> S (size (delete key storage)) = size storage.
Proof.
  intros [v Hv]. rewrite map_size_delete, Hv. simpl.
  assert (size storage <> 0)%nat; [|lia].
  intros H0. apply map_size_empty_inv in H0. subst storage.
  rewrite lookup_empty in Hv. discriminate.
Qed.

Lemma clear_loop_all_stale now storage i cleared :
  (forall k, is_Some (storage !! k) -> removable now storage k) ->
  snd (clear_loop key_at now storage i cleared)
  = (cleared + (size storage - i + 1) / 2)%nat.
Proof.
  funelim (clear_loop key_at now storage i cleared); intros Hall.
  - replace (size storage - i)%nat with O by lia. cbn. lia.
  - destruct (key_at_names storage i l) as (k & Hk & Hs).
    assert (k = key) by congruence. subst k.
    rewrite (clear_one_stale now storage key cleared (Hall key Hs)) in *.
    cbn [fst snd] in *. rewrite H.
    + pose proof (size_delete_present storage key Hs) as Hsize.
      destruct (decide (size storage - i = 1)%nat) as [E|E].
      * replace (size (delete key storage) - S i)%nat with O by lia.
        rewrite E. cbn. lia.
      * replace (size storage - i + 1)%nat
          with (size (delete key storage) - S i + 1 + 1 * 2)%nat by lia.
        rewrite Nat.div_add by lia. lia.
    + intros k [v Hv]. destruct (decide (k = key)) as [->|Hne].
      * rewrite lookup_delete_eq in Hv. discriminate.
      * rewrite lookup_delete_ne in Hv by congruence.
        destruct (Hall k (ex_intro _ v Hv)) as [Hp Hr].
        split; [exact Hp|]. rewrite lookup_delete_ne by congruence. exact Hr.
  - destruct (key_at_names storage i l) as (k & Hk & Hs). congruence.
Qed.

End StorageCleanupLoop.

(** X26. [clearExpired] counts its index up while the removals move the
    later keys down, so that the key after a removed one is passed over:
    on a storage that holds stale entries of the namespace only, one call
    removes every other one, half of them rounded up, and leaves the
    rest. The host is taken to name a key that is there for every
    index. *)
Theorem clearExpired_passes_over_every_other_entry :
  forall (key_at : LocalStorage.t -> nat -> option string)
         (storage : LocalStorage.t) (now : Z),
    (forall s i, (i < size s)%nat ->
       exists k, key_at s i = Some k /\ is_Some (s !! k)) ->
    (forall k, is_Some (storage !! k) -> removable now storage k) ->
    let result := StorageManager.clearExpired key_at storage now in
    snd result = ((size storage + 1) / 2)%nat
    /\ size (fst result) = (size storage / 2)%nat.
Proof.
  intros key_at storage now Hnames Hall result. subst result.
  unfold StorageManager.clearExpired.
  pose proof (clear_loop_all_stale key_at Hnames now storage 0 0 Hall) as Hn.
  pose proof (clear_loop_count key_at Hnames now storage 0 0) as Hc.
  rewrite Nat.sub_0_r, Nat.add_0_l in Hn. split; [exact Hn|].
  rewrite Hn in Hc.
  pose proof (Nat.div_mod_eq (size storage + 1) 2) as H1.
  pose proof (Nat.div_mod_eq (size storage) 2) as H2.
  pose proof (Nat.mod_upper_bound (size storage + 1) 2 ltac:(lia)) as H3.
  pose proof (Nat.mod_upper_bound (size storage) 2 ltac:(lia)) as H4.
  assert (Hhalf : ((size storage + 1) / 2 + size storage / 2 = size storage)%nat).
  { destruct (Nat.Even_or_Odd (size storage)) as [[h Hh]|[h Hh]]; rewrite Hh.
    - replace (2 * h + 1)%nat with (1 + h * 2)%nat by lia.
      replace (2 * h)%nat with (h * 2)%nat by lia.
      rewrite Nat.div_add, Nat.div_mul by lia. cbn. lia.
    - replace (2 * h + 1 + 1)%nat with ((h + 1) * 2)%nat by lia.
      replace (2 * h + 1)%nat with (1 + h * 2)%nat by lia.
      rewrite Nat.div_add, Nat.div_mul by lia. cbn. lia. }
  lia.
Qed.

Lemma clearExpired_passes_over_every_other_entry_witness :
  let storage : LocalStorage.t :=
    {[ "examportal_a" := LocalStorage.Raw "not json";
       "examportal_b" :=
         LocalStorage.Envelope
           (LocalStorage.mkEnvelope (Json.Str "x") 0 (Some 10) "1.0");
       "examportal_c" := LocalStorage.Null ]} in
  snd (StorageManager.clearExpired key_order storage 20) = 2%nat
  /\ size (fst (StorageManager.clearExpired key_order storage 20)) = 1%nat.
Proof.
  intros storage.
  assert (Hsize : size storage = 3%nat) by (vm_compute; reflexivity).
  destruct (clearExpired_passes_over_every_other_entry key_order storage 20
              key_order_names) as [Hn Hs].
  - intros k [v Hv]. subst storage.
    apply lookup_insert_Some in Hv.
    destruct Hv as [[<- <-]|[_ Hv]]; [split; [reflexivity | exact I]|].
    apply lookup_insert_Some in Hv.
    destruct Hv as [[<- <-]|[_ Hv]]; [split; [reflexivity | reflexivity]|].
    apply lookup_singleton_Some in Hv. destruct Hv as [<- <-].
    split; [reflexivity | exact I].
  - rewrite Hsize in Hn, Hs. split; [exact Hn | exact Hs].
Defined.

(** ** Splitting and joining *)

Section SplitJoinFacts.

Lemma includes_char_cons c a r :
  JsString.includes (String a r) (String c "")
  = Ascii.eqb c a || JsString.includes r (String c "").
Proof.
  cbn [JsString.includes JsString.strip_prefix].
  destruct (Ascii.eqb c a); reflexivity.
Qed.

Lemma split_on_app c x rest :
  free_of c x ->
  JsString.split_on c (x +:+ String c rest) = x :: JsString.split_on c rest.
Proof.
  unfold free_of. induction x as [|a x IH]; intros Hx.
  - change ("" +:+ String c rest) with (String c rest).
    cbn [JsString.split_on]. rewrite Ascii.eqb_refl. reflexivity.
  - rewrite includes_char_cons in Hx. apply orb_false_elim in Hx.
    destruct Hx as [Ha Hx].
    change (String a x +:+ String c rest) with (String a (x +:+ String c rest)).
    cbn [JsString.split_on]. rewrite Ascii.eqb_sym, Ha, (IH Hx). reflexivity.
Qed.

Lemma split_on_free c x : free_of c x -> JsString.split_on c x = [x].
Proof.
  unfold free_of. induction x as [|a x IH]; intros Hx; [reflexivity|].
  rewrite includes_char_cons in Hx. apply orb_false_elim in Hx.
  destruct Hx as [Ha Hx].
  cbn [JsString.split_on]. rewrite Ascii.eqb_sym, Ha, (IH Hx). reflexivity.
Qed.

Lemma split_on_join c l :
  l <> [] -> Forall (free_of c) l ->
  JsString.split_on c (JsString.join (String c "") l) = l.
Proof.
  intros Hne Hall. induction Hall as [|x l Hx Hall IH]; [congruence|].
  destruct l as [|y l].
  - apply split_on_free, Hx.
  - change (JsString.join (String c "") (x :: y :: l))
      with (x +:+ String c "" +:+ JsString.join (String c "") (y :: l)).
    change (String c "" +:+ JsString.join (String c "") (y :: l))
      with (String c (JsString.join (String c "") (y :: l))).
    rewrite (split_on_app c x _ Hx), IH by discriminate. reflexivity.
Qed.

Lemma cut_at_app c x rest :
  free_of c x ->
  JsString.cut_at c (x +:+ String c rest) = (x, Some rest).
Proof.
  unfold free_of. induction x as [|a x IH]; intros Hx.
  - change ("" +:+ String c rest) with (String c rest).
    cbn [JsString.cut_at]. rewrite Ascii.eqb_refl. reflexivity.
  - rewrite includes_char_cons in Hx. apply orb_false_elim in Hx.
    destruct Hx as [Ha Hx].
    change (String a x +:+ String c rest) with (String a (x +:+ String c rest)).
    cbn [JsString.cut_at]. rewrite Ascii.eqb_sym, Ha, (IH Hx). reflexivity.
Qed.

Lemma join_nonempty sep x l : x <> "" -> JsString.join sep (x :: l) <> "".
Proof.
  intros Hx. destruct l as [|y l]; [exact Hx|].
  cbn [JsString.join]. destruct x; [congruence | discriminate].
Qed.

End SplitJoinFacts.

(** ** The download manager: retries that end well, and callbacks that throw *)

Section DownloadRetryFacts.

Import LocalStorage DownloadManager.

Lemma clicks_app e1 e2 : clicks (e1 ++ e2) = (clicks e1 + clicks e2)%nat.
Proof. unfold clicks. rewrite List.filter_app, length_app. reflexivity. Qed.

Lemma clicks_progress filename options :
  clicks (progress_of filename options) = O.
Proof. unfold progress_of. destruct (showProgress options); reflexivity. Qed.

Lemma attempts_retried filename options from k :
  attempts (retried_effects (progress_of filename options) from k) = k.
Proof.
  revert from. induction k as [|k IH]; intros from; [reflexivity|].
  cbn [retried_effects].
  change (Attempt from :: progress_of filename options
            ++ ConsoleError :: ConsoleRetry (from + 1)
            :: retried_effects (progress_of filename options) (from + 1) k)
    with ([Attempt from] ++ progress_of filename options
            ++ [ConsoleError; ConsoleRetry (from + 1)]
            ++ retried_effects (progress_of filename options) (from + 1) k).
  rewrite !attempts_app, attempts_progress, IH. reflexivity.
Qed.

Lemma clicks_retried filename options from k :
  clicks (retried_effects (progress_of filename options) from k) = O.
Proof.
  revert from. induction k as [|k IH]; intros from; [reflexivity|].
  cbn [retried_effects].
  change (Attempt from :: progress_of filename options
            ++ ConsoleError :: ConsoleRetry (from + 1)
            :: retried_effects (progress_of filename options) (from + 1) k)
    with ([Attempt from] ++ progress_of filename options
            ++ [ConsoleError; ConsoleRetry (from + 1)]
            ++ retried_effects (progress_of filename options) (from + 1) k).
  rewrite !clicks_app, clicks_progress, IH. reflexivity.
Qed.

Lemma attempts_clicked filename options n url name :
  attempts (clicked_effects (progress_of filename options) n url name) = 1%nat
  /\ clicks (clicked_effects (progress_of filename options) n url name) = 1%nat.
Proof.
  unfold clicked_effects.
  change (Attempt n :: progress_of filename options
            ++ [AnchorClick url name; HistorySaved; SendAnalytics])
    with ([Attempt n] ++ progress_of filename options
            ++ [AnchorClick url name; HistorySaved; SendAnalytics]).
  rewrite !attempts_app, !clicks_app, attempts_progress, clicks_progress.
  split; reflexivity.
Qed.

Lemma OnError_retried progress from k :
  ~ In OnError progress -> ~ In OnError (retried_effects progress from k).
Proof.
  intros Hp. revert from. induction k as [|k IH]; intros from; [simpl; tauto|].
  cbn [retried_effects]. intros [H|H]; [discriminate|].
  apply in_app_or in H. destruct H as [H|[H|[H|H]]];
    [contradiction | discriminate | discriminate | eapply IH, H].
Qed.

Lemma OnError_progress filename options :
  ~ In OnError (progress_of filename options).
Proof.
  unfold progress_of. destruct (showProgress options); simpl; [|tauto].
  intros [H|[]]. discriminate.
Qed.

Variable quota : LocalStorage.t -> string -> text -> bool.
Variable URL_pathname : string -> option string.
Variable anchor_throws : string -> Z -> bool.

(** An attempt on which the link works and the history takes the
    record. *)
Lemma try_download_clicks storage env url filename options :
  anchor_throws url (retryCount options) = false ->
  fst (trackDownload quota storage env url filename) = Returns tt ->
  try_download quota URL_pathname anchor_throws storage env url filename options
  = let effects :=
      clicked_effects (progress_of filename options) (retryCount options) url
                      (download_name URL_pathname url filename) in
    let storage1 := snd (trackDownload quota storage env url filename) in
    match onComplete options with
    | Some true => inl (storage1, effects ++ [OnComplete])
    | Some false => inr (storage1, effects ++ [OnComplete])
    | None => inr (storage1, effects)
    end.
Proof.
  intros Ha Ht. unfold try_download. rewrite Ha.
  destruct (trackDownload quota storage env url filename) as [[[]|] storage1];
    [|discriminate].
  cbn [fst snd]. unfold clicked_effects, progress_of, download_name.
  cbv zeta.
  destruct (onComplete options) as [[]|];
    rewrite <- ?app_comm_cons, <- ?app_assoc; reflexivity.
Qed.

Lemma downloadPDF_recovers_from k this storage env url filename options :
  (forall n, retryCount options <= n < retryCount options + Z.of_nat k ->
             anchor_throws url n = true) ->
  anchor_throws url (retryCount options + Z.of_nat k) = false ->
  k = O \/ retryCount options + Z.of_nat k <= maxRetries this ->
  fst (trackDownload quota storage env url filename) = Returns tt ->
  onComplete options <> Some true ->
  downloadPDF quota URL_pathname anchor_throws this storage env url filename options
  = (Returns {| success := true |},
     snd (trackDownload quota storage env url filename),
     retried_effects (progress_of filename options) (retryCount options) k
     ++ clicked_effects (progress_of filename options)
          (retryCount options + Z.of_nat k) url
          (download_name URL_pathname url filename)
     ++ match onComplete options with
        | Some _ => [OnComplete]
        | None => []
        end).
Proof.
  revert k.
  funelim (downloadPDF quota URL_pathname anchor_throws this storage env url
                       filename options);
    intros k Hthrows Hworks Hle Htrack Hcb;
    match goal with
    | Ht : try_download _ _ _ _ _ _ _ _ = _ |- _ => rename Ht into Htry
    end.
  - (* this attempt ends well: it is the one on which the link works *)
    destruct k as [|k].
    + rewrite Z.add_0_r in Hworks.
      rewrite (try_download_clicks _ _ _ _ _ Hworks Htrack) in Htry.
      cbv zeta in Htry. cbn [retried_effects app]. rewrite Z.add_0_r.
      destruct (onComplete options) as [[]|]; [congruence| |];
        inversion Htry; subst; rewrite ?app_nil_r; reflexivity.
    + rewrite try_download_throws in Htry by (apply Hthrows; lia).
      discriminate.
  - (* this attempt fails and is retried *)
    destruct k as [|k].
    + rewrite Z.add_0_r in Hworks.
      rewrite (try_download_clicks _ _ _ _ _ Hworks Htrack) in Htry.
      cbv zeta in Htry.
      destruct (onComplete options) as [[]|]; [congruence| |]; discriminate.
    + rewrite try_download_throws in Htry by (apply Hthrows; lia).
      inversion Htry; subst; clear Htry.
      rewrite (H k); cbn [retryCount onComplete];
        [ | intros n Hn; apply Hthrows; lia
          | replace (retryCount options + 1 + Z.of_nat k)
              with (retryCount options + Z.of_nat (S k)) by lia; exact Hworks
          | right; lia | exact Htrack | exact Hcb ].
      cbn [retried_effects].
      change (progress_of filename
                {| showProgress := showProgress options;
                   retryCount := retryCount options + 1;
                   onProgress := onProgress options;
                   onComplete := onComplete options;
                   onError := onError options |})
        with (progress_of filename options).
      replace (retryCount options + 1 + Z.of_nat k)
        with (retryCount options + Z.of_nat (S k)) by lia.
      f_equal. rewrite <- !app_comm_cons, <- !app_assoc. reflexivity.
  - exfalso. destruct k as [|k].
    + rewrite Z.add_0_r in Hworks.
      rewrite (try_download_clicks _ _ _ _ _ Hworks Htrack) in Htry.
      cbv zeta in Htry.
      destruct (onComplete options) as [[]|]; [congruence| |]; discriminate.
    + destruct Hle as [Hle|Hle]; [discriminate | lia].
  - exfalso. destruct k as [|k].
    + rewrite Z.add_0_r in Hworks.
      rewrite (try_download_clicks _ _ _ _ _ Hworks Htrack) in Htry.
      cbv zeta in Htry.
      destruct (onComplete options) as [[]|]; [congruence| |]; discriminate.
    + destruct Hle as [Hle|Hle]; [discriminate | lia].
  - exfalso. destruct k as [|k].
    + rewrite Z.add_0_r in Hworks.
      rewrite (try_download_clicks _ _ _ _ _ Hworks Htrack) in Htry.
      cbv zeta in Htry.
      destruct (onComplete options) as [[]|]; [congruence| |]; discriminate.
    + destruct Hle as [Hle|Hle]; [discriminate | lia].
Qed.

End DownloadRetryFacts.



(** ** The download manager: a callback that throws *)

Section DownloadCallbackFacts.

Import LocalStorage DownloadManager.

Variable quota : LocalStorage.t -> string -> text -> bool.
Variable URL_pathname : string -> option string.
Variable anchor_throws : string -> Z -> bool.

Hypothesis history_fits :
  forall storage v, quota storage "downloadHistory" v = true.

Lemma trackDownload_accepted storage env url filename :
  history_readable storage ->
  trackDownload quota storage env url filename
  = (Returns tt,
     <["downloadHistory" :=
         Items (take 1000 (download_entry env url filename
                           :: raw_history storage))]> storage).
Proof.
  unfold history_readable, trackDownload, raw_history, getItem, setItem,
    download_entry.
  destruct (storage !! "downloadHistory") as [[s| |s|d|l]|]; try contradiction;
    try (intros ->; cbn [String.eqb]);
    intros; rewrite truncate_is_take, history_fits; reflexivity.
Qed.

Lemma history_readable_tracked storage env url filename :
  history_readable storage ->
  history_readable (snd (trackDownload quota storage env url filename))
  /\ raw_history (snd (trackDownload quota storage env url filename))
     = take 1000 (download_entry env url filename :: raw_history storage).
Proof.
  intros Hr. rewrite (trackDownload_accepted _ _ _ _ Hr). cbn [snd].
  unfold history_readable, raw_history. rewrite lookup_insert_eq. auto.
Qed.

Lemma clicks_repeated filename options url name from k :
  clicks (repeated_effects (progress_of filename options) url name from k) = k.
Proof.
  revert from. induction k as [|k IH]; intros from; [reflexivity|].
  cbn [repeated_effects].
  change (clicked_effects (progress_of filename options) from url name
            ++ OnComplete :: ConsoleError :: ConsoleRetry (from + 1)
            :: repeated_effects (progress_of filename options) url name (from + 1) k)
    with (clicked_effects (progress_of filename options) from url name
            ++ [OnComplete; ConsoleError; ConsoleRetry (from + 1)]
            ++ repeated_effects (progress_of filename options) url name (from + 1) k).
  rewrite !clicks_app, IH.
  rewrite (proj2 (attempts_clicked filename options from url name)).
  reflexivity.
Qed.

Lemma take_repeat_cons {A} (x : A) n l :
  take 1000 (repeat x n ++ take 1000 (x :: l))
  = take 1000 (repeat x (S n) ++ l).
Proof.
  change (repeat x (S n)) with (x :: repeat x n).
  replace (x :: repeat x n) with (repeat x n ++ [x])
    by (symmetry; apply repeat_cons).
  rewrite <- app_assoc. cbn [app]. apply take_app_take.
Qed.

(** With a link that always works and an [onComplete] that always throws,
    every attempt clicks and records before it fails. *)
Lemma downloadPDF_repeats this storage env url filename options :
  (forall n, anchor_throws url n = false) ->
  history_readable storage ->
  onComplete options = Some true ->
  retryCount options <= maxRetries this ->
  let n := Z.to_nat (maxRetries this - retryCount options) in
  exists storage',
    downloadPDF quota URL_pathname anchor_throws this storage env url filename
                options
    = (match onError options with
       | Some true => Throws
       | _ => Returns {| success := false |}
       end,
       storage',
       repeated_effects (progress_of filename options) url
         (download_name URL_pathname url filename) (retryCount options) n
       ++ clicked_effects (progress_of filename options)
            (retryCount options + Z.of_nat n) url
            (download_name URL_pathname url filename)
       ++ OnComplete :: ConsoleError
       :: match onError options with
          | Some _ => [OnError]
          | None => []
          end)
    /\ raw_history storage'
       = take 1000 (repeat (download_entry env url filename) (S n)
                    ++ raw_history storage).
Proof.
  intros Hworks.
  funelim (downloadPDF quota URL_pathname anchor_throws this storage env url
                       filename options);
    intros Hread Hcb Hle;
    match goal with
    | Ht : try_download _ _ _ _ _ _ _ _ = _ |- _ => rename Ht into Htry
    end;
    rewrite (try_download_clicks quota URL_pathname anchor_throws
               _ _ _ _ _ (Hworks _)
               ltac:(rewrite trackDownload_accepted by exact Hread; reflexivity))
      in Htry;
    cbv zeta in Htry; rewrite Hcb in Htry; try discriminate;
    inversion Htry; subst; clear Htry;
    destruct (history_readable_tracked storage env url filename Hread)
      as [Hread1 Hhist].
  - (* retried *)
    destruct (H Hworks Hread1 Hcb ltac:(cbn [retryCount]; lia))
      as (storage' & Hrun & Hfinal).
    cbn [retryCount onError onComplete] in Hrun, Hfinal.
    change (progress_of filename
              {| showProgress := showProgress options;
                 retryCount := retryCount options + 1;
                 onProgress := onProgress options;
                 onComplete := onComplete options;
                 onError := onError options |})
      with (progress_of filename options) in Hrun.
    exists storage'. rewrite Hrun.
    replace (Z.to_nat (maxRetries this - retryCount options))
      with (S (Z.to_nat (maxRetries this - (retryCount options + 1)))) by lia.
    split.
    + cbn [repeated_effects]. f_equal.
      replace (retryCount options + 1
               + Z.of_nat (Z.to_nat (maxRetries this - (retryCount options + 1))))
        with (retryCount options
              + Z.of_nat (S (Z.to_nat (maxRetries this - (retryCount options + 1)))))
        by lia.
      unfold clicked_effects.
      repeat (rewrite <- ?app_comm_cons, <- ?app_assoc; cbn [app]).
      reflexivity.
    + rewrite Hfinal, Hhist. apply take_repeat_cons.
  - (* the last attempt, with an [onError] that throws *)
    replace (Z.to_nat (maxRetries this - retryCount options)) with O by lia.
    eexists. split; [|rewrite Hhist; reflexivity].
    match goal with He : onError options = _ |- _ => rewrite He end.
    cbn [repeated_effects app]. rewrite Z.add_0_r. unfold clicked_effects.
    repeat (rewrite <- ?app_comm_cons, <- ?app_assoc; cbn [app]).
    reflexivity.
  - replace (Z.to_nat (maxRetries this - retryCount options)) with O by lia.
    eexists. split; [|rewrite Hhist; reflexivity].
    match goal with He : onError options = _ |- _ => rewrite He end.
    cbn [repeated_effects app]. rewrite Z.add_0_r. unfold clicked_effects.
    repeat (rewrite <- ?app_comm_cons, <- ?app_assoc; cbn [app]).
    reflexivity.
  - replace (Z.to_nat (maxRetries this - retryCount options)) with O by lia.
    eexists. split; [|rewrite Hhist; reflexivity].
    match goal with He : onError options = _ |- _ => rewrite He end.
    cbn [repeated_effects app]. rewrite Z.add_0_r. unfold clicked_effects.
    repeat (rewrite <- ?app_comm_cons, <- ?app_assoc; cbn [app]).
    reflexivity.
Qed.

End DownloadCallbackFacts.



(** ** The download manager: file names and batches *)

Section FilenameFacts.

Lemma split_on_cons c a r :
  exists h t, JsString.split_on c r = h :: t
    /\ JsString.split_on c (String a r)
       = if Ascii.eqb a c then "" :: h :: t else String a h :: t.
Proof.
  assert (Hne : exists h t, JsString.split_on c r = h :: t).
  { destruct r as [|b r]; simpl; [eauto|].
    destruct (Ascii.eqb b c); [eauto|].
    destruct (JsString.split_on c r); eauto. }
  destruct Hne as (h & t & Hr). exists h, t. split; [exact Hr|].
  cbn [JsString.split_on]. rewrite Hr. reflexivity.
Qed.

Lemma split_on_pieces s :
  Forall (fun piece => JsString.includes piece "/" = false)
         (JsString.split_on "/" s).
Proof.
  induction s as [|a r IH]; [repeat constructor|].
  destruct (split_on_cons "/" a r) as (h & t & Hr & ->).
  rewrite Hr in IH. inversion IH; subst.
  destruct (Ascii.eqb a "/") eqn:Ha.
  - constructor; [reflexivity | exact IH].
  - constructor; [|assumption].
    rewrite includes_char_cons, Ascii.eqb_sym, Ha. assumption.
Qed.

Lemma after_last_slash_append dir file :
  DownloadManager.after_last_slash (dir +:+ "/" +:+ file)
  = DownloadManager.after_last_slash file.
Proof.
  unfold DownloadManager.after_last_slash.
  induction dir as [|a dir IH].
  - change ("" +:+ "/" +:+ file) with (String "/" file).
    destruct (split_on_cons "/" "/" file) as (h & t & Hs & ->).
    rewrite Hs. reflexivity.
  - change (String a dir +:+ "/" +:+ file)
      with (String a (dir +:+ "/" +:+ file)).
    destruct (split_on_cons "/" a (dir +:+ "/" +:+ file)) as (h & t & Hs & ->).
    rewrite <- IH, Hs.
    assert (Ht : t <> []).
    { intros ->.
      pose proof (split_on_pieces (dir +:+ "/" +:+ file)) as Hp.
      rewrite Hs in Hp. inversion Hp as [|? ? Hh _]; subst.
      assert (Hin : forall d, JsString.includes (d +:+ "/" +:+ file) "/" = true).
      { clear. induction d as [|b d IHd]; [reflexivity|].
        change (String b d +:+ "/" +:+ file) with (String b (d +:+ "/" +:+ file)).
        rewrite includes_char_cons, IHd. apply orb_true_r. }
      assert (Hrev : forall s, JsString.split_on "/" s = [h] -> s = h).
      { clear. intros s. revert h. induction s as [|b r IHr]; intros h H.
        - inversion H. reflexivity.
        - destruct (split_on_cons "/" b r) as (h' & t' & Hs' & Heq).
          rewrite Heq in H. destruct (Ascii.eqb b "/"); [discriminate|].
          inversion H; subst. f_equal. apply IHr. exact Hs'. }
      apply Hrev in Hs. specialize (Hin dir). rewrite Hs in Hin.
      congruence. }
    destruct (Ascii.eqb a "/"); destruct t; try congruence; reflexivity.
Qed.

End FilenameFacts.

(** X11. The file name [extractFilenameFromUrl] gives is never empty and
    holds no [/]: it is what follows the last [/] of the path, and
    [download.pdf] when that is nothing or the URL does not parse. *)
Theorem extractFilenameFromUrl_is_a_name :
  forall (URL_pathname : string -> option string) (url : string),
    let name := DownloadManager.extractFilenameFromUrl URL_pathname url in
    name <> ""
    /\ JsString.includes name "/" = false
    /\ (URL_pathname url = None -> name = "download.pdf")
    /\ (forall dir, URL_pathname url = Some (dir +:+ "/") ->
          name = "download.pdf")
    /\ (forall dir file,
          URL_pathname url = Some (dir +:+ "/" +:+ file) ->
          file <> "" -> JsString.includes file "/" = false ->
          name = file).
Proof.
  intros URL_pathname url name. subst name.
  unfold DownloadManager.extractFilenameFromUrl.
  assert (Hlast : forall s,
            JsString.includes (DownloadManager.after_last_slash s) "/" = false).
  { intros s. unfold DownloadManager.after_last_slash.
    pose proof (split_on_pieces s) as Hp.
    induction (JsString.split_on "/" s) as [|h t IH]; [reflexivity|].
    inversion Hp; subst. destruct t as [|h' t']; [assumption|].
    apply IH. assumption. }
  split; [|split; [|split; [|split]]].
  - destruct (URL_pathname url) as [pathname|]; [|discriminate].
    destruct (String.eqb (DownloadManager.after_last_slash pathname) "") eqn:E;
      [discriminate|].
    apply String.eqb_neq, E.
  - destruct (URL_pathname url) as [pathname|]; [|reflexivity].
    destruct (String.eqb (DownloadManager.after_last_slash pathname) "");
      [reflexivity | apply Hlast].
  - intros ->. reflexivity.
  - intros dir ->. change (dir +:+ "/") with (dir +:+ "/" +:+ "").
    rewrite (after_last_slash_append dir ""). reflexivity.
  - intros dir file -> Hne Hplain.
    rewrite (after_last_slash_append dir file).
    unfold DownloadManager.after_last_slash. rewrite (split_on_free "/"%char file Hplain).
    cbn [List.last].
    apply String.eqb_neq in Hne. rewrite Hne. reflexivity.
Qed.

Lemma extractFilenameFromUrl_is_a_name_witness :
  let URL_pathname :=
    fun url : string =>
      if String.eqb url "https://example.org/pdfs/math.pdf"
      then Some ("/pdfs" +:+ "/" +:+ "math.pdf") else None in
  DownloadManager.extractFilenameFromUrl URL_pathname
    "https://example.org/pdfs/math.pdf" = "math.pdf"
  /\ DownloadManager.extractFilenameFromUrl URL_pathname "not a url"
     = "download.pdf".
Proof.
  intros URL_pathname.
  destruct (extractFilenameFromUrl_is_a_name URL_pathname
              "https://example.org/pdfs/math.pdf") as (_ & _ & _ & _ & Hfile).
  destruct (extractFilenameFromUrl_is_a_name URL_pathname "not a url")
    as (_ & _ & Hnone & _).
  split.
  - apply (Hfile "/pdfs" "math.pdf"); [reflexivity | discriminate | reflexivity].
  - apply Hnone. reflexivity.
Defined.

Section BatchFacts.

Import LocalStorage DownloadManager.

Variable quota : LocalStorage.t -> string -> text -> bool.
Variable URL_pathname : string -> option string.
Variable anchor_throws : string -> Z -> bool.

(** Without an [onError] that could throw, [downloadPDF] resolves. *)
Lemma downloadPDF_resolves this storage env url filename options :
  onError options = None ->
  exists result,
    fst (fst (downloadPDF quota URL_pathname anchor_throws this storage env url
                          filename options)) = Returns result.
Proof.
  funelim (downloadPDF quota URL_pathname anchor_throws this storage env url
                       filename options); intros He.
  - eexists. reflexivity.
  - destruct (H He) as [result Hr]. cbn [onError] in *.
    destruct (downloadPDF quota URL_pathname anchor_throws this storage1 env url
                          filename _) as [[r s] e].
    cbn [fst] in *. eauto.
  - congruence.
  - congruence.
  - eexists. reflexivity.
Qed.

Lemma download_each_results this storage files :
  exists results,
    fst (fst (download_each quota URL_pathname anchor_throws this storage files))
    = Some results
    /\ Forall2 (fun (file : File) (result : Result) =>
                  (forall n, 0 <= n <= Z.max 0 (maxRetries this) ->
                             anchor_throws (snd (fst file)) n = true) ->
                  success result = false)
               files results.
Proof.
  revert storage.
  induction files as [|[[env url] filename] rest IH]; intros storage.
  - exists []. split; [reflexivity | constructor].
  - cbn [download_each].
    destruct (downloadPDF_resolves this storage env url filename batch_options
                eq_refl) as [result Hr].
    pose proof (downloadPDF_fails quota URL_pathname anchor_throws this storage
                  env url filename batch_options) as Hfail.
    destruct (downloadPDF quota URL_pathname anchor_throws this storage env url
                          filename batch_options) as [[r storage1] effects].
    cbn [fst] in Hr. subst r.
    destruct (IH storage1) as (results & Hres & Hall).
    destruct (download_each quota URL_pathname anchor_throws this storage1 rest)
      as [[rs storage2] effects2].
    cbn [fst] in Hres. subst rs. cbn [fst option_map].
    exists (result :: results). split; [reflexivity|].
    constructor; [|exact Hall].
    cbn [fst snd]. intros Hthrows.
    specialize (Hfail Hthrows). cbn [onError batch_options] in Hfail.
    inversion Hfail. reflexivity.
Qed.

(** Among the first [k] attempts the link throws every time, or there is
    a first one on which it works. *)
Lemma first_working url k :
  (forall n, 0 <= n < Z.of_nat k -> anchor_throws url n = true)
  \/ exists j, (j < k)%nat
               /\ (forall n, 0 <= n < Z.of_nat j -> anchor_throws url n = true)
               /\ anchor_throws url (Z.of_nat j) = false.
Proof.
  induction k as [|k IH]; [left; lia|].
  destruct IH as [Hall|(j & Hj & Hbefore & Hworks)].
  - destruct (anchor_throws url (Z.of_nat k)) eqn:Hk.
    + left. intros n Hn. destruct (Z.eq_dec n (Z.of_nat k)) as [->|Hne];
        [exact Hk | apply Hall; lia].
    + right. exists k. split; [lia|]. split; assumption.
  - right. exists j. split; [lia|]. split; assumption.
Qed.

Lemma clicks_failing from retries :
  clicks (failing_effects [] from retries) = O.
Proof.
  revert from. induction retries as [|n IH]; intros from; [reflexivity|].
  cbn [failing_effects app]. apply IH.
Qed.

Hypothesis history_fits :
  forall storage v, quota storage "downloadHistory" v = true.

(** One download of the batch: it succeeds exactly when the link works on
    one of the attempts, and then the link is clicked once. *)
Lemma batch_download this storage env url filename :
  history_readable storage ->
  let '(result, storage1, effects) :=
    downloadPDF quota URL_pathname anchor_throws this storage env url filename
                batch_options in
  history_readable storage1
  /\ exists b,
      result = Returns {| success := b |}
      /\ (b = true
          <-> exists n, 0 <= n <= Z.max 0 (maxRetries this)
                        /\ anchor_throws url n = false)
      /\ clicks effects = if b then 1%nat else 0%nat.
Proof.
  intros Hr.
  destruct (first_working url (S (Z.to_nat (Z.max 0 (maxRetries this)))))
    as [Hall|(j & Hj & Hbefore & Hworks)].
  - rewrite (downloadPDF_fails quota URL_pathname anchor_throws this storage env
               url filename batch_options)
      by (cbn [retryCount batch_options]; intros n Hn; apply Hall; lia).
    cbn [onError batch_options retryCount showProgress progress_of].
    split; [exact Hr|]. exists false. split; [reflexivity|]. split.
    + split; [discriminate|]. intros (n & Hn & Hw).
      rewrite Hall in Hw by lia. discriminate.
    + rewrite app_nil_r. unfold progress_of. cbn [showProgress batch_options].
      apply clicks_failing.
  - pose proof (trackDownload_accepted quota history_fits storage env url filename
                  Hr) as Htrack.
    rewrite (downloadPDF_recovers_from quota URL_pathname anchor_throws j this
               storage env url filename batch_options);
      cbn [retryCount onComplete batch_options]; rewrite ?Z.add_0_l;
      [ | exact Hbefore | exact Hworks
        | destruct j as [|j]; [left; reflexivity | right; lia]
        | rewrite Htrack; reflexivity | discriminate ].
    split; [apply (history_readable_tracked quota history_fits), Hr|].
    exists true. split; [reflexivity|]. split.
    + split; [|reflexivity]. intros _. exists (Z.of_nat j).
      split; [lia | exact Hworks].
    + rewrite app_nil_r, clicks_app, clicks_retried.
      apply (attempts_clicked filename batch_options).
Qed.

Lemma download_each_exact this storage files :
  history_readable storage ->
  exists results,
    fst (fst (download_each quota URL_pathname anchor_throws this storage files))
    = Some results
    /\ Forall2 (fun (file : File) (result : Result) =>
                  success result = true
                  <-> exists n, 0 <= n <= Z.max 0 (maxRetries this)
                                /\ anchor_throws (snd (fst file)) n = false)
               files results
    /\ clicks (snd (download_each quota URL_pathname anchor_throws this storage
                                  files))
       = length (List.filter success results).
Proof.
  revert storage.
  induction files as [|[[env url] filename] rest IH]; intros storage Hr.
  - exists []. split; [reflexivity|]. split; [constructor | reflexivity].
  - cbn [download_each].
    pose proof (batch_download this storage env url filename Hr) as Hone.
    destruct (downloadPDF quota URL_pathname anchor_throws this storage env url
                          filename batch_options) as [[r storage1] effects].
    destruct Hone as (Hr1 & b & -> & Hb & Hclicks).
    destruct (IH storage1 Hr1) as (results & Hres & Hall & Hcount).
    destruct (download_each quota URL_pathname anchor_throws this storage1 rest)
      as [[rs storage2] effects2].
    cbn [fst snd] in Hres, Hcount. subst rs. cbn [fst snd option_map].
    exists ({| success := b |} :: results). split; [reflexivity|]. split.
    + constructor; [exact Hb | exact Hall].
    + rewrite clicks_app, Hclicks, Hcount. cbn [List.filter success].
      destruct b; reflexivity.
Qed.

End BatchFacts.



(** ** The analytics tracker: the setting *)

Section AnalyticsSettingFacts.

Import AnalyticsTracker.

Variable quota : LocalStorage.t -> string -> LocalStorage.text -> bool.
Variable parseInt : string -> option Z.
Variable JSON_text : LocalStorage.text -> string.

Lemma step_disabled st a :
  enabled (tracker st) = false -> of_the_page a ->
  step quota parseInt JSON_text st a = st.
Proof.
  intros Hen Ha. destruct a as [env event| |beacon xhr|n ok|value];
    try contradiction; cbn [step].
  - unfold queueEvent. rewrite Hen. reflexivity.
  - unfold flushQueue. rewrite Hen. cbn [negb]. rewrite orb_true_r. reflexivity.
  - unfold flushQueueSync. rewrite Hen. cbn [negb]. rewrite orb_true_r.
    reflexivity.
Qed.

Lemma run_disabled st actions :
  enabled (tracker st) = false -> Forall of_the_page actions ->
  run quota parseInt JSON_text st actions = st.
Proof.
  intros Hen Hall. induction Hall as [|a actions Ha _ IH]; [reflexivity|].
  unfold run in *. cbn [fold_left]. rewrite (step_disabled st a Hen Ha).
  exact IH.
Qed.

(** What a [setEnabled(false)] that returned leaves behind. *)
Lemma setEnabled_false st :
  fst (setEnabled quota st false) = Returns false ->
  enabled (tracker (snd (setEnabled quota st false))) = false
  /\ queue (tracker (snd (setEnabled quota st false))) = []
  /\ persisted (snd (setEnabled quota st false)) = None
  /\ inflight (snd (setEnabled quota st false)) = inflight st.
Proof.
  unfold setEnabled, LocalStorage.setItem.
  destruct (quota (storage st) "analytics_enabled" _); [|discriminate].
  intros _. cbn [snd]. split; [reflexivity|]. split; [reflexivity|].
  split; [|reflexivity].
  unfold persisted, LocalStorage.getItem, LocalStorage.removeItem.
  cbn [storage]. rewrite lookup_delete_eq. reflexivity.
Qed.

End AnalyticsSettingFacts.

(** X13. After a [setEnabled(false)] that returned, the queue is empty and
    no queue is persisted; from then on [queueEvent] answers [false] and
    neither it nor a flush changes anything, whatever the page does. *)
Theorem disabled_tracker_is_inert :
  forall (quota : LocalStorage.t -> string -> LocalStorage.text -> bool)
         (parseInt : string -> option Z)
         (JSON_text : LocalStorage.text -> string)
         (st : AnalyticsTracker.State),
    fst (AnalyticsTracker.setEnabled quota st false) = Returns false ->
    let st' := snd (AnalyticsTracker.setEnabled quota st false) in
    AnalyticsTracker.queue (AnalyticsTracker.tracker st') = []
    /\ AnalyticsTracker.persisted st' = None
    /\ AnalyticsTracker.inflight st' = AnalyticsTracker.inflight st
    /\ (forall env event,
          AnalyticsTracker.queueEvent quota parseInt JSON_text st' env event
          = (Returns false, st'))
    /\ (forall actions, Forall of_the_page actions ->
          AnalyticsTracker.run quota parseInt JSON_text st' actions = st').
Proof.
  intros quota parseInt JSON_text st Hok st'. subst st'.
  destruct (setEnabled_false quota st Hok) as (Hen & Hq & Hp & Hin).
  split; [exact Hq|]. split; [exact Hp|]. split; [exact Hin|]. split.
  - intros env event. unfold AnalyticsTracker.queueEvent. rewrite Hen.
    reflexivity.
  - intros actions Hall. apply run_disabled; [exact Hen | exact Hall].
Qed.

Lemma disabled_tracker_is_inert_witness :
  let quota := fun (_ : LocalStorage.t) (_ : string) (_ : LocalStorage.text) => true in
  let parseInt := fun (_ : string) => @None Z in
  let JSON_text := fun (_ : LocalStorage.text) => "[]" in
  let st :=
    {| AnalyticsTracker.tracker :=
         {| AnalyticsTracker.enabled := true;
            AnalyticsTracker.queue := [Json.Obj [("type", Json.Str "search")]];
            AnalyticsTracker.maxRetries := 3;
            AnalyticsTracker.endpoint := "/api/analytics" |};
       AnalyticsTracker.storage :=
         {[ "analytics_queue" :=
              LocalStorage.Items [Json.Obj [("type", Json.Str "search")]] ]};
       AnalyticsTracker.inflight := [] |} in
  let st' := snd (AnalyticsTracker.setEnabled quota st false) in
  AnalyticsTracker.persisted st' = None
  /\ AnalyticsTracker.run quota parseInt JSON_text st'
       [ AnalyticsTracker.QueueEvent (AnalyticsTracker.mkEnv 5 "r" "u")
           [("type", Json.Str "pageview")];
         AnalyticsTracker.Flush ] = st'.
Proof.
  intros quota parseInt JSON_text st st'.
  destruct (disabled_tracker_is_inert quota parseInt JSON_text st eq_refl)
    as (_ & Hp & _ & _ & Hrun).
  split; [exact Hp|]. apply Hrun. repeat constructor.
Defined.



(** ** The analytics tracker: identifiers *)

Section AnalyticsIdFacts.

Import LocalStorage AnalyticsTracker.

Variable quota : LocalStorage.t -> string -> LocalStorage.text -> bool.
Variable parseInt : string -> option Z.
Variable JSON_text : LocalStorage.text -> string.

Lemma decimal_fuel_nonempty fuel n acc :
  acc <> "" -> JsString.decimal_fuel fuel n acc <> "".
Proof.
  revert n acc. induction fuel as [|fuel IH]; intros n acc Hacc; [exact Hacc|].
  cbn [JsString.decimal_fuel].
  destruct (n / 10 =? 0); [discriminate|]. apply IH. discriminate.
Qed.

Lemma integer_nonempty z : JsString.integer z <> "".
Proof.
  unfold JsString.integer. destruct (z <? 0); [discriminate|].
  unfold JsString.decimal. cbn [JsString.decimal_fuel].
  destruct (z / 10 =? 0); [discriminate|].
  apply decimal_fuel_nonempty. discriminate.
Qed.

Lemma start_session_stores storage env sid :
  fst (start_session quota storage env) = Returns sid ->
  sid = generateId (now env) (random_session env)
  /\ snd (start_session quota storage env) !! "analytics_session_id"
     = Some (Raw sid)
  /\ snd (start_session quota storage env) !! "analytics_session_expiry"
     = Some (Scalar (JsString.integer (now env + session_length))).
Proof.
  unfold start_session, setItem.
  destruct (quota storage "analytics_session_id" _); [|discriminate].
  destruct (quota _ "analytics_session_expiry" _); [|discriminate].
  cbn [fst snd]. intros H. inversion H; subst. split; [reflexivity|].
  rewrite lookup_insert_ne by discriminate.
  rewrite !lookup_insert_eq. split; reflexivity.
Qed.

End AnalyticsIdFacts.

(** X15. A session that [getSessionId] has started lasts four hours: up to
    the expiry every call returns the same identifier and writes nothing,
    after it the next call starts a new session. *)
Theorem session_id_lasts_four_hours :
  forall (quota : LocalStorage.t -> string -> LocalStorage.text -> bool)
         (parseInt : string -> option Z)
         (JSON_text : LocalStorage.text -> string)
         (storage : LocalStorage.t) (env env' : AnalyticsTracker.Env)
         (sid : string),
    AnalyticsTracker.present
      (AnalyticsTracker.getString JSON_text storage "analytics_session_id")
    = false ->
    fst (AnalyticsTracker.getSessionId quota parseInt JSON_text storage env)
    = Returns sid ->
    let storage1 :=
      snd (AnalyticsTracker.getSessionId quota parseInt JSON_text storage env) in
    let expiry := AnalyticsTracker.now env + session_length in
    let again :=
      AnalyticsTracker.getSessionId quota parseInt JSON_text storage1 env' in
    sid = AnalyticsTracker.generateId (AnalyticsTracker.now env)
                                      (AnalyticsTracker.random_session env)
    /\ (parseInt (JsString.integer expiry) = Some expiry ->
        AnalyticsTracker.now env' <= expiry ->
        again = (Returns sid, storage1))
    /\ (parseInt (JsString.integer expiry) = Some expiry ->
        expiry < AnalyticsTracker.now env' ->
        again = AnalyticsTracker.start_session quota storage1 env').
Proof.
  intros quota parseInt JSON_text storage env env' sid Habsent Hsid
         storage1 expiry again.
  assert (Hstart :
            AnalyticsTracker.getSessionId quota parseInt JSON_text storage env
            = AnalyticsTracker.start_session quota storage env).
  { unfold AnalyticsTracker.getSessionId. rewrite Habsent. reflexivity. }
  subst storage1 again. rewrite Hstart in *.
  destruct (start_session_stores quota storage env sid Hsid) as (Hid & Hs & He).
  split; [exact Hid|].
  assert (Hnonempty : String.eqb sid "" = false).
  { rewrite Hid. reflexivity. }
  assert (Hexp : String.eqb (JsString.integer expiry) "" = false).
  { apply String.eqb_neq, integer_nonempty. }
  unfold AnalyticsTracker.getSessionId, AnalyticsTracker.getString,
    LocalStorage.getItem.
  rewrite Hs, He. fold expiry.
  cbn [AnalyticsTracker.present negb from_option id]. rewrite Hnonempty, Hexp.
  cbn [negb orb from_option id].
  generalize (parseInt (JsString.integer expiry)). intros parsed.
  split.
  - intros -> Hle.
    replace (expiry <? AnalyticsTracker.now env') with false
      by (symmetry; apply Z.ltb_ge; exact Hle).
    reflexivity.
  - intros -> Hlt.
    replace (expiry <? AnalyticsTracker.now env') with true
      by (symmetry; apply Z.ltb_lt; exact Hlt).
    reflexivity.
Qed.

Lemma session_id_lasts_four_hours_witness :
  let quota := fun (_ : LocalStorage.t) (_ : string) (_ : LocalStorage.text) => true in
  let parseInt := fun s : string => Some (JsString.digits_value s) in
  let JSON_text := fun (_ : LocalStorage.text) => "[]" in
  let env := AnalyticsTracker.mkEnv 1000 "k3f9x2a1b" "u" in
  let storage1 :=
    snd (AnalyticsTracker.getSessionId quota parseInt JSON_text ∅ env) in
  AnalyticsTracker.getSessionId quota parseInt JSON_text storage1
    (AnalyticsTracker.mkEnv 14401000 "other" "u")
  = (Returns "id_1000_k3f9x2a1b", storage1).
Proof.
  intros quota parseInt JSON_text env storage1.
  refine (proj1 (proj2 (session_id_lasts_four_hours quota parseInt JSON_text
                          ∅ env (AnalyticsTracker.mkEnv 14401000 "other" "u")
                          "id_1000_k3f9x2a1b" _ _)) _ _).
  - vm_compute. reflexivity.
  - vm_compute. reflexivity.
  - vm_compute. reflexivity.
  - vm_compute. discriminate.
Defined.

(** X16. The user identifier is made once: whatever [getUserId] has
    returned, every later call returns the same identifier and writes
    nothing. *)
Theorem user_id_is_stable :
  forall (quota : LocalStorage.t -> string -> LocalStorage.text -> bool)
         (JSON_text : LocalStorage.text -> string)
         (storage : LocalStorage.t) (env env' : AnalyticsTracker.Env)
         (uid : string),
    fst (AnalyticsTracker.getUserId quota JSON_text storage env) = Returns uid ->
    let storage1 := snd (AnalyticsTracker.getUserId quota JSON_text storage env) in
    AnalyticsTracker.getUserId quota JSON_text storage1 env'
    = (Returns uid, storage1).
Proof.
  intros quota JSON_text storage env env' uid Huid storage1. subst storage1.
  destruct (AnalyticsTracker.getUserId quota JSON_text storage env)
    as [r storage1] eqn:Hrun.
  cbn [fst snd] in *. subst r. unfold AnalyticsTracker.getUserId in Hrun.
  destruct (AnalyticsTracker.present
              (AnalyticsTracker.getString JSON_text storage "user_id")) eqn:Hp;
    cbn [negb] in Hrun.
  - inversion Hrun; subst. unfold AnalyticsTracker.getUserId. rewrite Hp.
    reflexivity.
  - unfold LocalStorage.setItem in Hrun.
    destruct (quota storage "user_id" _); [|discriminate].
    inversion Hrun; subst.
    unfold AnalyticsTracker.getUserId, AnalyticsTracker.getString,
      LocalStorage.getItem.
    rewrite lookup_insert_eq. reflexivity.
Qed.

Lemma user_id_is_stable_witness :
  let quota := fun (_ : LocalStorage.t) (_ : string) (_ : LocalStorage.text) => true in
  let JSON_text := fun (_ : LocalStorage.text) => "[]" in
  let env := AnalyticsTracker.mkEnv 1000 "s" "p0q9r8s7t" in
  let storage1 := snd (AnalyticsTracker.getUserId quota JSON_text ∅ env) in
  AnalyticsTracker.getUserId quota JSON_text storage1
    (AnalyticsTracker.mkEnv 99999 "s" "different")
  = (Returns "anonymous_id_1000_p0q9r8s7t", storage1).
Proof.
  intros quota JSON_text env storage1.
  apply (user_id_is_stable quota JSON_text ∅ env
           (AnalyticsTracker.mkEnv 99999 "s" "different")
           "anonymous_id_1000_p0q9r8s7t").
  vm_compute. reflexivity.
Defined.

(** ** The analytics tracker: what failures cost *)

Section AnalyticsPendingFacts.

Import AnalyticsTracker.

Lemma pending_flushQueue st : pending (flushQueue st) = pending st.
Proof.
  unfold flushQueue.
  destruct ((length (queue (tracker st)) =? 0)%nat || negb (enabled (tracker st)));
    [reflexivity|].
  unfold pending. cbn [tracker queue with_queue inflight].
  rewrite concat_app. cbn [concat]. rewrite !app_nil_r. reflexivity.
Qed.

Lemma pending_settle_failed quota st n :
  Permutation (pending (settle quota st n false)) (pending st).
Proof.
  unfold settle. destruct (inflight st !! n) as [events|] eqn:Hn; [|reflexivity].
  unfold pending. cbn [tracker queue with_queue inflight].
  rewrite <- (take_drop_middle (inflight st) n events Hn) at 3.
  rewrite !concat_app. cbn [concat]. rewrite <- !app_assoc.
  apply Permutation_app_head.
  rewrite !app_assoc. apply Permutation_app_tail, Permutation_app_comm.
Qed.

Variable quota : LocalStorage.t -> string -> LocalStorage.text -> bool.
Variable parseInt : string -> option Z.
Variable JSON_text : LocalStorage.text -> string.

Lemma pending_queueEvent st env event :
  exists added,
    pending (snd (queueEvent quota parseInt JSON_text st env event))
    = pending st ++ added
    /\ (length added <= 1)%nat
    /\ Forall (stamped event) added.
Proof.
  unfold queueEvent.
  destruct (enabled (tracker st)); cbn [negb];
    [|exists []; rewrite app_nil_r; repeat split; [simpl; lia | constructor]].
  destruct (getSessionId quota parseInt JSON_text (storage st) env)
    as [[sessionId|] storage1];
    [|exists []; rewrite app_nil_r; repeat split; [simpl; lia | constructor]].
  destruct (getUserId quota JSON_text storage1 env) as [[userId|] storage2];
    [|exists []; rewrite app_nil_r; repeat split; [simpl; lia | constructor]].
  exists [stamp event sessionId userId]. cbn [snd].
  split; [|split; [simpl; lia | repeat constructor; eexists; eexists; reflexivity]].
  match goal with
  | |- pending (if ?c then _ else _) = _ => destruct c
  end; rewrite ?pending_flushQueue; unfold pending;
    cbn [tracker queue with_queue inflight]; apply app_assoc.
Qed.

Lemma pending_flushQueueSync_failed st beacon xhr :
  beacon <> Some true ->
  (forall status, xhr = Some status -> ~ (200 <= status < 300)) ->
  pending (flushQueueSync quota st beacon xhr) = pending st.
Proof.
  intros Hb Hx. unfold flushQueueSync.
  destruct ((length (queue (tracker st)) =? 0)%nat || negb (enabled (tracker st)));
    [reflexivity|].
  assert (Hd : match beacon with
               | Some true => true
               | _ => match xhr with
                      | Some status => (200 <=? status) && (status <? 300)
                      | None => false
                      end
               end = false).
  { destruct beacon as [[]|]; [congruence| |];
      (destruct xhr as [status|]; [|reflexivity];
       specialize (Hx status eq_refl);
       destruct (Z.leb_spec 200 status); destruct (Z.ltb_spec status 300);
       simpl; auto; lia). }
  rewrite Hd. reflexivity.
Qed.

Lemma pending_step st a :
  keeps_events a ->
  exists added,
    Permutation (pending (step quota parseInt JSON_text st a))
                (pending st ++ added)
    /\ (length added <= if is_QueueEvent a then 1 else 0)%nat
    /\ Forall (fun j => exists env event,
                          a = QueueEvent env event /\ stamped event j) added.
Proof.
  intros Ha. destruct a as [env event| |beacon xhr|n ok|value]; cbn [step].
  - destruct (pending_queueEvent st env event) as (added & Hp & Hlen & Hall).
    exists added. rewrite Hp. split; [reflexivity|]. split; [exact Hlen|].
    eapply Forall_impl; [exact Hall|]. intros j Hj. eauto.
  - exists []. rewrite pending_flushQueue, app_nil_r.
    split; [reflexivity|]. split; [simpl; lia | constructor].
  - destruct Ha as [Hb Hx]. exists [].
    rewrite (pending_flushQueueSync_failed st beacon xhr Hb Hx), app_nil_r.
    split; [reflexivity|]. split; [simpl; lia | constructor].
  - cbn [keeps_events] in Ha. subst ok. exists []. rewrite app_nil_r.
    split; [apply pending_settle_failed|]. split; [simpl; lia | constructor].
  - cbn [keeps_events] in Ha. subst value. exists []. rewrite app_nil_r.
    split; [|split; [simpl; lia | constructor]].
    unfold setEnabled.
    destruct (LocalStorage.setItem quota (storage st) "analytics_enabled" _);
      reflexivity.
Qed.

Lemma pending_run st actions :
  Forall keeps_events actions ->
  exists added,
    Permutation (pending (run quota parseInt JSON_text st actions))
                (pending st ++ added)
    /\ (length added <= length (List.filter is_QueueEvent actions))%nat
    /\ Forall (fun j => exists env event,
                          In (QueueEvent env event) actions /\ stamped event j)
              added.
Proof.
  intros Hall. revert st.
  induction Hall as [|a actions Ha _ IH]; intros st.
  - exists []. rewrite app_nil_r. split; [reflexivity|].
    split; [simpl; lia | constructor].
  - destruct (pending_step st a Ha) as (added1 & Hp1 & Hlen1 & Hall1).
    destruct (IH (step quota parseInt JSON_text st a))
      as (added2 & Hp2 & Hlen2 & Hall2).
    exists (added1 ++ added2). unfold run in *. cbn [fold_left].
    split; [|split].
    + rewrite Hp2, app_assoc. apply Permutation_app_tail, Hp1.
    + rewrite length_app. cbn [List.filter].
      destruct (is_QueueEvent a); cbn [length]; lia.
    + apply Forall_app. split.
      * eapply Forall_impl; [exact Hall1|].
        intros j (env & event & -> & Hj). exists env, event.
        split; [left; reflexivity | exact Hj].
      * eapply Forall_impl; [exact Hall2|].
        intros j (env & event & Hin & Hj). exists env, event.
        split; [right; exact Hin | exact Hj].
Qed.

End AnalyticsPendingFacts.

(** X17. As long as no send succeeds and the tracker is not disabled, no
    event is lost: whatever the order of [queueEvent] calls, flushes,
    failed requests and failed synchronous sends, the events in flight
    and in the queue afterwards are those of before, each once, together
    with events stamped by the [queueEvent] calls of the run, at most one
    per call. *)
Theorem failed_sends_lose_no_event :
  forall (quota : LocalStorage.t -> string -> LocalStorage.text -> bool)
         (parseInt : string -> option Z)
         (JSON_text : LocalStorage.text -> string)
         (st : AnalyticsTracker.State)
         (actions : list AnalyticsTracker.action),
    Forall keeps_events actions ->
    exists added,
      Permutation
        (pending (AnalyticsTracker.run quota parseInt JSON_text st actions))
        (pending st ++ added)
      /\ (length added
          <= length (List.filter is_QueueEvent actions))%nat
      /\ Forall (fun j => exists env event,
                            In (AnalyticsTracker.QueueEvent env event) actions
                            /\ stamped event j)
                added.
Proof.
  intros quota parseInt JSON_text st actions Hall.
  apply pending_run. exact Hall.
Qed.

Lemma failed_sends_lose_no_event_witness :
  let quota := fun (_ : LocalStorage.t) (_ : string) (_ : LocalStorage.text) => true in
  let parseInt := fun s : string => Some (JsString.digits_value s) in
  let JSON_text := fun (_ : LocalStorage.text) => "[]" in
  let st :=
    {| AnalyticsTracker.tracker :=
         {| AnalyticsTracker.enabled := true;
            AnalyticsTracker.queue := [Json.Obj [("type", Json.Str "search")]];
            AnalyticsTracker.maxRetries := 3;
            AnalyticsTracker.endpoint := "/api/analytics" |};
       AnalyticsTracker.storage := ∅;
       AnalyticsTracker.inflight := [] |} in
  let actions :=
    [ AnalyticsTracker.Flush;
      AnalyticsTracker.QueueEvent (AnalyticsTracker.mkEnv 5 "r" "u")
        [("type", Json.Str "pageview")];
      AnalyticsTracker.Settle 0 false;
      AnalyticsTracker.FlushSync (Some false) (Some 500) ] in
  exists added,
    Permutation
      (pending (AnalyticsTracker.run quota parseInt JSON_text st actions))
      (pending st ++ added)
    /\ (length added <= 1)%nat.
Proof.
  intros quota parseInt JSON_text st actions.
  destruct (failed_sends_lose_no_event quota parseInt JSON_text st actions)
    as (added & Hp & Hlen & _).
  - repeat constructor; cbn [keeps_events]; try discriminate.
    intros status Hs. inversion Hs; subst. lia.
  - exists added. split; [exact Hp | exact Hlen].
Defined.

(** ** The query string *)

Section QueryStringFacts.

Import URLSearchParams.

Lemma hex_digit_unreserved k : (k < 16)%nat -> unreserved (hex_digit k) = true.
Proof.
  intros Hk. do 16 (destruct k as [|k]; [reflexivity|]). lia.
Qed.

Lemma hex_value_digit k : (k < 16)%nat -> hex_value (hex_digit k) = Some k.
Proof.
  intros Hk. do 16 (destruct k as [|k]; [reflexivity|]). lia.
Qed.

Lemma nat_of_ascii_lt c : (nat_of_ascii c < 256)%nat.
Proof. apply nat_ascii_bounded. Qed.

(** The serializer writes [+], [%] and unreserved bytes only. *)
Lemma encode_free c s :
  unreserved c = false -> c <> "+"%char -> c <> "%"%char ->
  free_of c (encode s).
Proof.
  intros Hu Hplus Hpercent. unfold free_of.
  assert (Hne : forall a, unreserved a = true -> Ascii.eqb c a = false).
  { intros a Ha. apply Ascii.eqb_neq. intros ->. congruence. }
  induction s as [|a s IH]; [reflexivity|].
  cbn [encode]. pose proof (nat_of_ascii_lt a) as Hlt.
  destruct (nat_of_ascii a =? 32)%nat.
  - rewrite includes_char_cons, IH, orb_false_r. apply Ascii.eqb_neq, Hplus.
  - destruct (unreserved a) eqn:Ha.
    + rewrite includes_char_cons, IH, orb_false_r. apply Hne, Ha.
    + rewrite !includes_char_cons, IH, orb_false_r.
      rewrite (Hne (hex_digit (nat_of_ascii a / 16)))
        by (apply hex_digit_unreserved, Nat.Div0.div_lt_upper_bound; lia).
      rewrite (Hne (hex_digit (nat_of_ascii a mod 16)))
        by (apply hex_digit_unreserved, Nat.mod_upper_bound; lia).
      rewrite !orb_false_r. apply Ascii.eqb_neq, Hpercent.
Qed.

Lemma decode_encode s : decode (encode s) = s.
Proof.
  induction s as [|a s IH]; [reflexivity|].
  cbn [encode]. pose proof (nat_of_ascii_lt a) as Hlt.
  destruct (nat_of_ascii a =? 32)%nat eqn:Hsp.
  - apply Nat.eqb_eq in Hsp. cbn [decode]. rewrite IH.
    change (Ascii.eqb "+" "+") with true. cbv iota.
    rewrite <- (ascii_nat_embedding a), Hsp. reflexivity.
  - destruct (unreserved a) eqn:Ha.
    + cbn [decode]. rewrite IH.
      destruct (Ascii.eqb a "+") eqn:E1;
        [apply Ascii.eqb_eq in E1; subst a; discriminate|].
      destruct (Ascii.eqb a "%") eqn:E2;
        [apply Ascii.eqb_eq in E2; subst a; discriminate|].
      reflexivity.
    + cbn [decode]. change (Ascii.eqb "%" "+") with false.
      change (Ascii.eqb "%" "%") with true. cbv iota.
      rewrite !hex_value_digit
        by first [ apply Nat.Div0.div_lt_upper_bound; lia
                 | apply Nat.mod_upper_bound; lia ].
      rewrite IH, <- Nat.div_mod_eq, ascii_nat_embedding. reflexivity.
Qed.

(** The constructor reads back what [toString] wrote. *)
Lemma parse_toString (p : t) :
  p <> [] -> parse ("?" +:+ toString p) = p.
Proof.
  intros Hne. unfold parse, toString.
  change ("?" +:+ ?q) with (String "?" q). cbv iota.
  set (piece := fun kv : string * string =>
                  encode (fst kv) +:+ "=" +:+ encode (snd kv)).
  assert (Hamp : "&"%char <> "+"%char /\ "&"%char <> "%"%char)
    by (split; discriminate).
  assert (Heq : "="%char <> "+"%char /\ "="%char <> "%"%char)
    by (split; discriminate).
  assert (Hfree : forall c x y,
            free_of c x -> free_of c y -> free_of c (x +:+ y)).
  { intros c x y Hx Hy. unfold free_of in *.
    induction x as [|a x IH]; [exact Hy|].
    rewrite includes_char_cons in Hx. apply orb_false_elim in Hx.
    destruct Hx as [Ha Hx].
    change (String a x +:+ y) with (String a (x +:+ y)).
    rewrite includes_char_cons, Ha, (IH Hx). reflexivity. }
  rewrite (split_on_join "&"%char (List.map piece p)).
  - clear Hne. induction p as [|[k v] p IH]; [reflexivity|].
    cbn [List.map List.filter].
    assert (Hpiece : piece (k, v) = encode k +:+ String "=" (encode v))
      by reflexivity.
    rewrite Hpiece.
    destruct (String.eqb (encode k +:+ String "=" (encode v)) "") eqn:E.
    { apply String.eqb_eq in E. destruct (encode k); discriminate. }
    cbn [negb List.map].
    rewrite (cut_at_app "="%char (encode k) (encode v))
      by (apply encode_free; [reflexivity | apply Heq | apply Heq]).
    cbn [from_option]. unfold id. rewrite !decode_encode. f_equal. exact IH.
  - destruct p; [congruence | discriminate].
  - clear Hne. induction p as [|[k v] p IH]; constructor; [|exact IH].
    apply (Hfree "&"%char (encode k) (String "=" (encode v))).
    + apply encode_free; [reflexivity | apply Hamp | apply Hamp].
    + unfold free_of. rewrite includes_char_cons.
      change (Ascii.eqb "&" "=") with false. cbn [orb].
      apply encode_free; [reflexivity | apply Hamp | apply Hamp].
Qed.

Lemma toString_nonempty (p : t) : p <> [] -> toString p <> "".
Proof.
  destruct p as [|[k v] p]; [congruence|]. intros _. unfold toString.
  cbn [List.map]. apply join_nonempty.
  cbn [fst snd]. destruct (encode k); discriminate.
Qed.

Lemma get_filter_other (p : t) name other :
  name <> other ->
  get (List.filter (fun kv => negb (String.eqb (fst kv) name)) p) other
  = get p other.
Proof.
  intros Hne. unfold get. induction p as [|[k v] p IH]; [reflexivity|].
  cbn [List.filter List.find fst].
  destruct (String.eqb k name) eqn:Ek; cbn [negb].
  - apply String.eqb_eq in Ek. subst k.
    replace (String.eqb name other) with false
      by (symmetry; apply String.eqb_neq, Hne).
    exact IH.
  - cbn [List.find fst]. destruct (String.eqb k other); [reflexivity | exact IH].
Qed.

Lemma get_cons k v (p : t) other :
  get ((k, v) :: p) other
  = if String.eqb k other then Some v else get p other.
Proof.
  unfold get. cbn [List.find fst snd].
  destruct (String.eqb k other); reflexivity.
Qed.

Lemma get_set (p : t) name value other :
  get (set p name value) other
  = if String.eqb name other then Some value else get p other.
Proof.
  induction p as [|[k v] p IH].
  - cbn [set]. rewrite get_cons. reflexivity.
  - cbn [set]. destruct (String.eqb k name) eqn:Ek.
    + apply String.eqb_eq in Ek. subst k. rewrite !get_cons.
      destruct (String.eqb name other) eqn:En; [reflexivity|].
      apply String.eqb_neq in En. apply (get_filter_other p name other En).
    + rewrite !get_cons, IH.
      destruct (String.eqb k other) eqn:Eo; [|reflexivity].
      apply String.eqb_eq in Eo. subst k. rewrite String.eqb_sym, Ek.
      reflexivity.
Qed.

End QueryStringFacts.

(** ** The selection and the URL, in general *)

Section SelectionURLFacts.

Import FilterManager.

Lemma url_params_entries filters :
  url_params filters = fold_left url_add filters [].
Proof.
  unfold url_params. generalize (@nil (string * string)).
  induction filters as [|[key value] filters IH]; intros params; [reflexivity|].
  cbn [fold_left]. rewrite IH. f_equal. unfold url_add, url_entry.
  cbn [fst snd].
  destruct (negb (Value.is_string value "all")
            && negb (Value.is_string value "popular")
            && negb (Value.is_string value "")); [|reflexivity].
  destruct value as [|s|l]; [reflexivity | reflexivity|].
  destruct (0 <? length l)%nat; reflexivity.
Qed.

Lemma get_url_add params key value name :
  URLSearchParams.get (url_add params (key, value)) name
  = if String.eqb key name
    then match url_entry value with
         | Some text => Some text
         | None => URLSearchParams.get params name
         end
    else URLSearchParams.get params name.
Proof.
  unfold url_add. cbn [fst snd]. destruct (url_entry value) as [text|].
  - apply get_set.
  - destruct (String.eqb key name); reflexivity.
Qed.

(** What the page reads from the URL is what [updateURL] has put there. *)
Lemma parse_updateURL this location :
  URLSearchParams.parse (Location.search (updateURL this location))
  = url_params (activeFilters this).
Proof.
  unfold updateURL. cbn [Location.search].
  destruct (url_params (activeFilters this)) as [|kv p] eqn:Hp; [reflexivity|].
  destruct (String.eqb (URLSearchParams.toString (kv :: p)) "") eqn:E.
  - apply String.eqb_eq in E.
    exfalso. revert E. apply toString_nonempty. discriminate.
  - apply parse_toString. discriminate.
Qed.

Lemma url_entry_axis v :
  v <> "" -> v <> "popular" ->
  url_entry (Value.Str v) = if String.eqb v "all" then None else Some v.
Proof.
  intros H1 H2. unfold url_entry. cbn [Value.is_string Value.to_string].
  apply String.eqb_neq in H1, H2. rewrite H1, H2.
  destruct (String.eqb v "all"); reflexivity.
Qed.

End SelectionURLFacts.

(** X18. A selection survives the URL except for its sort key: when the
    page is set up by [initFromURL] from the URL that [updateURL] wrote
    for a selection, the category, grade, year, subject and tags are
    those of the selection and the sort key is the default. The axes are
    neither empty nor ["popular"], no tag holds a comma and the tags are
    not the one empty tag. *)
Theorem selection_survives_the_URL_but_for_the_sort_key :
  forall (s : Selection.t) (callbacks : list nat) (other : FilterManager.t)
         (location : Location.t),
    Forall (fun v => v <> "" /\ v <> "popular")
           [ Selection.category s; Selection.grade s; Selection.year s;
             Selection.subject s ] ->
    Forall (free_of ",") (Selection.tags s) ->
    Selection.tags s <> [""] ->
    let this :=
      {| FilterManager.activeFilters := Selection.to_filters s;
         FilterManager.filterCallbacks := callbacks |} in
    FilterManager.activeFilters
      (fst (FilterManager.initFromURL other
              (FilterManager.updateURL this location)))
    = Selection.to_filters (sorted_by_default s).
Proof.
  intros [c g y sub o l] callbacks other location Haxes Htags Hone this.
  cbn [Selection.category Selection.grade Selection.year Selection.subject
       Selection.tags] in *.
  inversion Haxes as [|? ? [Hc1 Hc2] Haxes1]; subst.
  inversion Haxes1 as [|? ? [Hg1 Hg2] Haxes2]; subst.
  inversion Haxes2 as [|? ? [Hy1 Hy2] Haxes3]; subst.
  inversion Haxes3 as [|? ? [Hs1 Hs2] _]; subst.
  unfold FilterManager.initFromURL. cbn [fst FilterManager.activeFilters].
  rewrite parse_updateURL. subst this. cbn [FilterManager.activeFilters].
  rewrite url_params_entries.
  unfold Selection.to_filters, sorted_by_default.
  cbn [fold_left fst snd Selection.category Selection.grade Selection.year
       Selection.subject Selection.sortBy Selection.tags].
  assert (Haxis : forall v, v <> "" -> v <> "popular" ->
            match match url_entry (Value.Str v) with
                  | Some text => Some text
                  | None => None
                  end with
            | Some x => if String.eqb x "" then "all" else x
            | None => "all"
            end = v).
  { intros v H1 H2. rewrite (url_entry_axis v H1 H2).
    destruct (String.eqb v "all") eqn:E.
    - apply String.eqb_eq in E. congruence.
    - apply String.eqb_neq in H1. rewrite H1. reflexivity. }
  unfold FilterManager.get_or. rewrite !get_url_add.
  cbn [String.eqb Ascii.eqb Bool.eqb].
  change (URLSearchParams.get [] ?n) with (@None string).
  rewrite !Haxis by assumption.
  repeat f_equal.
  unfold url_entry. cbn [Value.is_string negb andb].
  destruct l as [|t l]; [reflexivity|].
  change (0 <? length (t :: l))%nat with true. cbv iota.
  destruct (String.eqb (JsString.join "," (t :: l)) "") eqn:E.
  - apply String.eqb_eq in E. exfalso.
    destruct l as [|t' l'].
    + cbn in E. subst t. congruence.
    + cbn [JsString.join] in E. destruct t; discriminate.
  - apply (split_on_join ","%char (t :: l)); [discriminate | exact Htags].
Qed.

Lemma selection_survives_the_URL_but_for_the_sort_key_witness :
  let s := {| Selection.category := "past-papers"; Selection.grade := "10";
              Selection.year := "all"; Selection.subject := "Math & Physics";
              Selection.sortBy := "newest";
              Selection.tags := ["exam"; "term 1"] |} in
  FilterManager.activeFilters
    (fst (FilterManager.initFromURL FilterManager.new
            (FilterManager.updateURL
               {| FilterManager.activeFilters := Selection.to_filters s;
                  FilterManager.filterCallbacks := [] |}
               (Location.mk "/index.html" ""))))
  = Selection.to_filters (sorted_by_default s).
Proof.
  intros s.
  apply (selection_survives_the_URL_but_for_the_sort_key s [] FilterManager.new
           (Location.mk "/index.html" "")).
  - repeat constructor; discriminate.
  - repeat constructor.
  - discriminate.
Defined.

(** ** Toggling a tag *)

Section ToggleTagFacts.

Import FilterManager.

Lemma Array_indexOf_spec (l : list string) x :
  match Array.indexOf l x with
  | None => ~ In x l
  | Some i => exists a b, l = a ++ x :: b /\ length a = i /\ ~ In x a
  end.
Proof.
  induction l as [|y l IH]; cbn [Array.indexOf]; [intros []|].
  destruct (String.eqb y x) eqn:E.
  - apply String.eqb_eq in E. subst y. exists [], l. repeat split. intros [].
  - apply String.eqb_neq in E.
    destruct (Array.indexOf l x) as [i|]; cbn [option_map].
    + destruct IH as (a & b & -> & Hlen & Hnot). exists (y :: a), b.
      repeat split; [simpl; congruence|]. intros [H|H]; [congruence | tauto].
    + intros [H|H]; [congruence | tauto].
Qed.

Lemma splice1_middle {A} (a b : list A) x :
  Array.splice1 (a ++ x :: b) (length a) = a ++ b.
Proof.
  induction a as [|y a IH]; [reflexivity|].
  cbn [app length Array.splice1]. rewrite IH. reflexivity.
Qed.

Lemma Array_indexOf_last (l : list string) x :
  ~ In x l -> Array.indexOf (l ++ [x]) x = Some (length l).
Proof.
  induction l as [|y l IH]; intros Hnot.
  - cbn. rewrite String.eqb_refl. reflexivity.
  - cbn [app Array.indexOf length].
    destruct (String.eqb y x) eqn:E.
    + apply String.eqb_eq in E. subst y. exfalso. apply Hnot. left. reflexivity.
    + rewrite IH; [reflexivity|]. intros H. apply Hnot. right. exact H.
Qed.

Lemma get_assign (o : Filters) key value name :
  get (assign o key value) name
  = if String.eqb key name then value else get o name.
Proof.
  unfold get, assign. induction o as [|[k v] o IH].
  - cbn [JsObject.assign JsObject.get].
    destruct (String.eqb key name); reflexivity.
  - cbn [JsObject.assign]. destruct (String.eqb k key) eqn:Ek.
    + apply String.eqb_eq in Ek. subst k. cbn [JsObject.get].
      destruct (String.eqb key name); reflexivity.
    + cbn [JsObject.get]. destruct (String.eqb k name) eqn:En.
      * apply String.eqb_eq in En. subst k. rewrite String.eqb_sym, Ek.
        reflexivity.
      * exact IH.
Qed.

(** Assigning to a property the value it holds changes nothing. *)
Lemma assign_same (o : Filters) key value :
  JsObject.get o key = Some value -> assign o key value = o.
Proof.
  unfold assign. induction o as [|[k v] o IH]; cbn [JsObject.get JsObject.assign];
    [discriminate|].
  destruct (String.eqb k key); intros H; [congruence|].
  rewrite (IH H). reflexivity.
Qed.

Lemma assign_assign (o : Filters) key v w :
  assign (assign o key v) key w = assign o key w.
Proof.
  unfold assign. induction o as [|[k u] o IH]; cbn [JsObject.assign].
  - rewrite String.eqb_refl. reflexivity.
  - destruct (String.eqb k key) eqn:Ek; cbn [JsObject.assign]; rewrite Ek;
      [reflexivity | rewrite IH; reflexivity].
Qed.

End ToggleTagFacts.

(** X19. [toggleTag] flips one tag and nothing else: when the tags are
    pairwise different, they are so afterwards, the tag is among them
    exactly when it was not before, every other tag and every other
    property of the selection is as before, and each listener receives
    the new selection. Toggling a tag that was absent twice restores the
    selection. *)
Theorem toggleTag_flips_one_tag :
  forall (this : FilterManager.t) (location : Location.t) (tag : string)
         (l : list string),
    JsObject.get (FilterManager.activeFilters this) "tags" = Some (Value.Arr l) ->
    exists this' l',
      FilterManager.toggleTag this location tag
      = Some (this', FilterManager.updateURL this' location,
              List.map (fun callback => (callback, FilterManager.activeFilters this'))
                       (FilterManager.filterCallbacks this))
      /\ FilterManager.get (FilterManager.activeFilters this') "tags" = Value.Arr l'
      /\ (forall key, key <> "tags" ->
            FilterManager.get (FilterManager.activeFilters this') key
            = FilterManager.get (FilterManager.activeFilters this) key)
      /\ (forall t, t <> tag -> (In t l' <-> In t l))
      /\ (List.NoDup l -> List.NoDup l' /\ (In tag l' <-> ~ In tag l))
      /\ (~ In tag l ->
          exists location2 notes2,
            FilterManager.toggleTag this' location tag
            = Some (this, location2, notes2)).
Proof.
  intros this location tag l Htags.
  unfold FilterManager.toggleTag at 1. unfold FilterManager.get at 1.
  rewrite Htags. cbn [default from_option]. unfold id.
  eexists. eexists. split; [reflexivity|].
  cbn [FilterManager.activeFilters FilterManager.filterCallbacks].
  split; [rewrite get_assign; reflexivity|].
  split.
  { intros key Hkey. rewrite get_assign.
    replace (String.eqb "tags" key) with false; [reflexivity|].
    symmetry. apply String.eqb_neq. congruence. }
  pose proof (Array_indexOf_spec l tag) as Hspec.
  destruct (Array.indexOf l tag) as [i|] eqn:Hi.
  - destruct Hspec as (a & b & -> & Hlen & Hnot). subst i.
    rewrite splice1_middle.
    split; [|split].
    + intros t Ht. rewrite !in_app_iff. cbn [In]. split; [tauto|].
      intros [H|[H|H]]; [tauto | congruence | tauto].
    + intros Hnd. split; [eapply List.NoDup_remove_1, Hnd|].
      apply List.NoDup_remove_2 in Hnd. split; [contradiction|].
      intros H. exfalso. apply H. apply in_app_iff. right. left. reflexivity.
    + intros H. exfalso. apply H. apply in_app_iff. right. left. reflexivity.
  - split; [|split].
    + intros t Ht. rewrite in_app_iff. cbn [In]. split; [|tauto].
      intros [H|[H|[]]]; [exact H | congruence].
    + intros Hnd. split.
      * apply List.NoDup_app; [exact Hnd | repeat constructor; intros [] |].
        intros x Hx [Hx'|[]]. subst x. contradiction.
      * split; [intros _; exact Hspec|]. intros _. apply in_app_iff.
        right. left. reflexivity.
    + intros _. unfold FilterManager.toggleTag.
      cbn [FilterManager.activeFilters FilterManager.filterCallbacks].
      rewrite get_assign. cbn [String.eqb Ascii.eqb Bool.eqb].
      rewrite (Array_indexOf_last l tag Hspec), <- (app_nil_l [tag]).
      change (l ++ [] ++ [tag]) with (l ++ tag :: []).
      rewrite splice1_middle, app_nil_r, assign_assign, (assign_same _ _ _ Htags).
      destruct this as [filters callbacks]. eexists. eexists. reflexivity.
Qed.

Lemma toggleTag_flips_one_tag_witness :
  let this :=
    {| FilterManager.activeFilters :=
         [ ("category", Value.Str "all"); ("grade", Value.Str "10");
           ("year", Value.Str "all"); ("subject", Value.Str "all");
           ("sortBy", Value.Str "popular");
           ("tags", Value.Arr ["exam"; "algebra"]) ];
       FilterManager.filterCallbacks := [7%nat] |} in
  exists this' l',
    FilterManager.toggleTag this (Location.mk "/" "") "exam"
    = Some (this', FilterManager.updateURL this' (Location.mk "/" ""),
            [(7%nat, FilterManager.activeFilters this')])
    /\ FilterManager.get (FilterManager.activeFilters this') "tags" = Value.Arr l'
    /\ ~ In "exam" l'.
Proof.
  intros this.
  destruct (toggleTag_flips_one_tag this (Location.mk "/" "") "exam"
              ["exam"; "algebra"] eq_refl)
    as (this' & l' & Hrun & Htags & _ & _ & Hflip & _).
  exists this', l'. split; [exact Hrun|]. split; [exact Htags|].
  destruct Hflip as [_ Hin].
  - repeat constructor; simpl; intuition discriminate.
  - intros H. apply Hin in H. apply H. left. reflexivity.
Defined.

(** ** Sizes: every word of the pattern *)

Section SizeWordFacts.

Import FilterManager.

Lemma is_unit_cases unit :
  is_unit unit = true ->
  let u := JsString.toUpperCase_ascii unit in
  u = "B" \/ u = "KB" \/ u = "MB" \/ u = "GB".
Proof.
  unfold is_unit. cbv zeta. intros H.
  repeat (apply orb_prop in H; destruct H as [H|H]);
    apply String.eqb_eq in H; auto.
Qed.

Lemma is_unit_upper unit :
  is_unit unit = true -> is_unit (JsString.toUpperCase_ascii unit) = true.
Proof.
  intros H. destruct (is_unit_cases unit H) as [E|[E|[E|E]]];
    rewrite E; reflexivity.
Qed.

Lemma upper_upper unit :
  is_unit unit = true ->
  JsString.toUpperCase_ascii (JsString.toUpperCase_ascii unit)
  = JsString.toUpperCase_ascii unit.
Proof.
  intros H. destruct (is_unit_cases unit H) as [E|[E|[E|E]]];
    rewrite E; reflexivity.
Qed.

Lemma append_nonempty (a b : string) : a <> "" -> a +:+ b <> "".
Proof. destruct a; [congruence | discriminate]. Qed.

Lemma parseFileSize_word int frac sp unit :
  int <> "" -> digits int = true ->
  (frac = "" \/ exists f, frac = "." +:+ f /\ f <> "" /\ digits f = true) ->
  spaces sp -> is_unit unit = true ->
  parseFileSize (Some (int +:+ frac +:+ sp +:+ unit))
  = times_1024 (unit_power unit)
      (parseFloat_capture int (fraction_digits frac)).
Proof.
  intros Hne Hint Hfrac Hsp Hunit. unfold parseFileSize.
  replace (String.eqb (int +:+ frac +:+ sp +:+ unit) "") with false
    by (symmetry; apply String.eqb_neq, append_nonempty, Hne).
  rewrite (match_size_complete int frac sp unit Hne Hint Hfrac Hsp Hunit).
  fold (fraction_digits frac). unfold unit_power. cbv zeta.
  destruct (is_unit_cases unit Hunit) as [E|[E|[E|E]]]; rewrite E; reflexivity.
Qed.

End SizeWordFacts.

(** X20. For every word of the size pattern, [parseFileSize] is the
    number of the digits multiplied by 1024 as often as the unit says,
    one product after the other: B not at all, KB once, MB twice, GB
    three times. Neither the white space before the unit nor the case of
    the unit changes the result. *)
Theorem parseFileSize_of_a_size :
  forall int frac sp unit : string,
    int <> "" -> digits int = true ->
    (frac = "" \/ exists f, frac = "." +:+ f /\ f <> "" /\ digits f = true) ->
    spaces sp -> FilterManager.is_unit unit = true ->
    FilterManager.parseFileSize (Some (int +:+ frac +:+ sp +:+ unit))
    = times_1024 (unit_power unit)
        (FilterManager.parseFloat_capture int (fraction_digits frac))
    /\ JsString.toUpperCase_ascii unit
       = nth (unit_power unit) ["B"; "KB"; "MB"; "GB"] ""
    /\ FilterManager.parseFileSize (Some (int +:+ frac +:+ sp +:+ unit))
       = FilterManager.parseFileSize
           (Some (int +:+ frac +:+ JsString.toUpperCase_ascii unit)).
Proof.
  intros int frac sp unit Hne Hint Hfrac Hsp Hunit.
  split; [apply parseFileSize_word; assumption|]. split.
  - unfold unit_power. cbv zeta.
    destruct (is_unit_cases unit Hunit) as [E|[E|[E|E]]]; rewrite E; reflexivity.
  - rewrite (parseFileSize_word int frac sp unit) by assumption.
    change (int +:+ frac +:+ JsString.toUpperCase_ascii unit)
      with (int +:+ frac +:+ "" +:+ JsString.toUpperCase_ascii unit).
    rewrite (parseFileSize_word int frac "" (JsString.toUpperCase_ascii unit)
               Hne Hint Hfrac spaces_nil (is_unit_upper unit Hunit)).
    unfold unit_power. rewrite (upper_upper unit Hunit). reflexivity.
Qed.

Lemma parseFileSize_of_a_size_witness :
  FilterManager.parseFileSize (Some "2.5   mb")
  = Number.mul (Number.mul (Number.of_decimal 25 1) FilterManager.k1024)
               FilterManager.k1024
  /\ FilterManager.parseFileSize (Some "2.5   mb")
     = FilterManager.parseFileSize (Some "2.5MB").
Proof.
  assert (Hsp : spaces "   ").
  { apply (spaces_cons " " "  "); [simpl; tauto|].
    apply (spaces_cons " " " "); [simpl; tauto|].
    apply (spaces_cons " " ""); [simpl; tauto | constructor]. }
  destruct (parseFileSize_of_a_size "2" ".5" "   " "mb") as (Hv & _ & Hsame).
  - discriminate.
  - reflexivity.
  - right. exists "5". repeat split. discriminate.
  - exact Hsp.
  - reflexivity.
  - split; [exact Hv | exact Hsame].
Defined.

(** ** Listeners *)

Section ListenerFacts.

Import FilterManager.

Lemma callback_index_spec (l : list nat) x :
  match callback_index l x with
  | None => ~ In x l
  | Some i => exists a b, l = a ++ x :: b /\ length a = i /\ ~ In x a
  end.
Proof.
  induction l as [|y l IH]; cbn [callback_index]; [intros []|].
  destruct (Nat.eqb y x) eqn:E.
  - apply Nat.eqb_eq in E. subst y. exists [], l. repeat split. intros [].
  - apply Nat.eqb_neq in E.
    destruct (callback_index l x) as [i|]; cbn [option_map].
    + destruct IH as (a & b & -> & Hlen & Hnot). exists (y :: a), b.
      repeat split; [simpl; congruence|]. intros [H|H]; [congruence | tauto].
    + intros [H|H]; [congruence | tauto].
Qed.

Lemma unsubscribe_callbacks this callback :
  (~ In callback (filterCallbacks this) /\ unsubscribe this callback = this)
  \/ exists a b,
       filterCallbacks this = a ++ callback :: b
       /\ ~ In callback a
       /\ unsubscribe this callback
          = {| activeFilters := activeFilters this;
               filterCallbacks := a ++ b |}.
Proof.
  unfold unsubscribe.
  pose proof (callback_index_spec (filterCallbacks this) callback) as Hspec.
  destruct (callback_index (filterCallbacks this) callback) as [i|].
  - right. destruct Hspec as (a & b & Hl & Hlen & Hnot). exists a, b.
    split; [exact Hl|]. split; [exact Hnot|].
    rewrite Hl. subst i. rewrite splice1_middle. reflexivity.
  - left. split; [exact Hspec | reflexivity].
Qed.

End ListenerFacts.

(** X27. A listener is told of every change as long as it is registered
    and of none afterwards: [setFilter] hands the new selection to the
    callbacks in the order of their registration, a callback registered
    last comes last, and the function [onFilterChange] returned removes
    that one registration, after which the manager is as it was before.
    Called again, it does nothing. The callback was not registered
    before. *)
Theorem listener_is_told_until_it_unsubscribes :
  forall (this : FilterManager.t) (location : Location.t) (callback : nat)
         (key : string) (value : Value.t),
    ~ In callback (FilterManager.filterCallbacks this) ->
    let subscribed := FilterManager.onFilterChange this callback in
    let selection :=
      FilterManager.assign (FilterManager.activeFilters this) key value in
    snd (FilterManager.setFilter subscribed location key value)
    = snd (FilterManager.setFilter this location key value)
      ++ [(callback, selection)]
    /\ snd (FilterManager.setFilter this location key value)
       = List.map (fun c => (c, selection)) (FilterManager.filterCallbacks this)
    /\ FilterManager.unsubscribe subscribed callback = this
    /\ FilterManager.unsubscribe
         (FilterManager.unsubscribe subscribed callback) callback = this
    /\ forall c, In c (FilterManager.filterCallbacks this) ->
         In (c, selection)
            (snd (FilterManager.setFilter
                    (FilterManager.unsubscribe subscribed callback)
                    location key value)).
Proof.
  intros this location callback key value Hnot subscribed selection.
  assert (Hback : FilterManager.unsubscribe subscribed callback = this).
  { destruct (unsubscribe_callbacks subscribed callback)
      as [[Hn _]|(a & b & Hl & Hna & ->)].
    - exfalso. apply Hn. subst subscribed.
      cbn [FilterManager.onFilterChange FilterManager.filterCallbacks].
      apply in_app_iff. right. left. reflexivity.
    - subst subscribed.
      cbn [FilterManager.onFilterChange FilterManager.filterCallbacks
           FilterManager.activeFilters] in *.
      assert (Hab : a = FilterManager.filterCallbacks this /\ b = []).
      { clear - Hl Hna Hnot. revert a Hl Hna.
        induction (FilterManager.filterCallbacks this) as [|c l IH];
          intros a Hl Hna.
        - destruct a as [|x a]; [inversion Hl; auto|].
          inversion Hl as [[Hx Ha]]. destruct a; discriminate.
        - destruct a as [|x a].
          + inversion Hl; subst. exfalso. apply Hnot. left. reflexivity.
          + inversion Hl as [[Hx Ha]]. subst x.
            destruct (IH (fun H => Hnot (or_intror H)) a Ha
                         (fun H => Hna (or_intror H))) as [-> ->].
            auto. }
      destruct Hab as [-> ->]. rewrite app_nil_r.
      destruct this; reflexivity. }
  split; [|split; [|split; [|split]]].
  - unfold FilterManager.setFilter, FilterManager.notifyListeners. cbn [snd].
    subst subscribed.
    cbn [FilterManager.onFilterChange FilterManager.filterCallbacks
         FilterManager.activeFilters].
    rewrite List.map_app. reflexivity.
  - reflexivity.
  - exact Hback.
  - rewrite Hback.
    destruct (unsubscribe_callbacks this callback)
      as [[_ H]|(a & b & Hl & _)]; [exact H|].
    exfalso. apply Hnot. rewrite Hl. apply in_app_iff. right. left. reflexivity.
  - intros c Hc. rewrite Hback.
    unfold FilterManager.setFilter, FilterManager.notifyListeners. cbn [snd].
    cbn [FilterManager.filterCallbacks FilterManager.activeFilters].
    apply in_map_iff. exists c. split; [reflexivity | exact Hc].
Qed.

Lemma listener_is_told_until_it_unsubscribes_witness :
  let this :=
    {| FilterManager.activeFilters := FilterManager.default_filters;
       FilterManager.filterCallbacks := [1%nat; 2%nat] |} in
  FilterManager.unsubscribe (FilterManager.onFilterChange this 3) 3 = this
  /\ List.map fst
       (snd (FilterManager.setFilter (FilterManager.onFilterChange this 3)
               (Location.mk "/" "") "grade" (Value.Str "10")))
     = [1%nat; 2%nat; 3%nat].
Proof.
  intros this.
  destruct (listener_is_told_until_it_unsubscribes this (Location.mk "/" "")
              3 "grade" (Value.Str "10")) as (Hlast & Hall & Hback & _).
  - simpl. intuition discriminate.
  - split; [exact Hback|]. rewrite Hlast, Hall. reflexivity.
Defined.

(** ** Search engine: what a search returns *)

Section SearchResultFacts.

Import SearchEngine.

Variable toLowerCase : string -> string.

Lemma searchIndex_indexed this resources :
  searchIndex (indexResources toLowerCase this resources)
  = List.map (index_entry toLowerCase) resources.
Proof. reflexivity. Qed.

Lemma rejects_passes wanted actual :
  rejects wanted actual = false <-> passes wanted actual.
Proof.
  unfold rejects, passes. destruct wanted as [v|]; [|tauto].
  destruct (String.eqb v "") eqn:Ev; cbn [negb andb].
  - apply String.eqb_eq in Ev. tauto.
  - apply String.eqb_neq in Ev. rewrite negb_false_iff, String.eqb_eq. tauto.
Qed.

Lemma applyFilters_In results filters resource :
  In (index_entry toLowerCase resource) (applyFilters results filters)
  <-> In (index_entry toLowerCase resource) results
      /\ accepted filters resource.
Proof.
  unfold applyFilters, accepted. destruct filters as [f|]; [|tauto].
  rewrite filter_In, !andb_true_iff, !negb_true_iff, !rejects_passes.
  cbn [category grade year subject index_entry]. tauto.
Qed.

Lemma applyFilters_incl results filters e :
  In e (applyFilters results filters) -> In e results.
Proof.
  unfold applyFilters. destruct filters as [f|]; [|tauto].
  rewrite filter_In. tauto.
Qed.

(** With identifiers that are pairwise different, [find] by the
    identifier of a resource of the list is that resource. *)
Lemma find_by_id resources resource :
  List.NoDup (List.map Resource.id resources) -> In resource resources ->
  List.find (fun r => String.eqb (Resource.id r) (Resource.id resource))
            resources = Some resource.
Proof.
  induction resources as [|r rest IH]; intros Hnd Hin; [destruct Hin|].
  cbn [List.map] in Hnd. inversion Hnd as [|? ? Hnot Hnd']; subst.
  cbn [List.find]. destruct Hin as [->|Hin].
  - rewrite String.eqb_refl. reflexivity.
  - destruct (String.eqb (Resource.id r) (Resource.id resource)) eqn:E.
    + apply String.eqb_eq in E. exfalso. apply Hnot. rewrite E.
      apply in_map, Hin.
    + apply IH; assumption.
Qed.

Lemma hydrate_In this full results r :
  fullResources this = Some full ->
  (In r (match hydrate this results with Returns l => l | Throws => [] end)
   <-> exists e, In e results
         /\ List.find (fun r' => String.eqb (Resource.id r') (id e)) full
            = Some r).
Proof.
  intros Hfull. unfold hydrate. rewrite Hfull.
  rewrite in_concat. split.
  - intros (l & Hl & Hr). apply in_map_iff in Hl.
    destruct Hl as (e & <- & He). exists e. split; [exact He|].
    destruct (List.find _ full) as [r'|]; [|destruct Hr].
    destruct Hr as [->|[]]. reflexivity.
  - intros (e & He & Hfind). exists [r]. split; [|left; reflexivity].
    apply in_map_iff. exists e. rewrite Hfind. split; [reflexivity | exact He].
Qed.

(** The entries a search keeps, before they are mapped back. *)
Lemma kept_In this resources searchTerm filters comparefn e :
  In e (applyFilters
          (Array.sort comparefn
             (List.filter (fun item => matches toLowerCase item searchTerm)
                (searchIndex (indexResources toLowerCase this resources))))
          filters) ->
  exists resource,
    e = index_entry toLowerCase resource /\ In resource resources
    /\ found toLowerCase searchTerm resource /\ accepted filters resource.
Proof.
  intros He. pose proof (applyFilters_incl _ _ _ He) as Hs.
  apply (Permutation_in _ (sort_Permutation comparefn _)) in Hs.
  apply filter_In in Hs. destruct Hs as [Hidx Hm].
  rewrite searchIndex_indexed in Hidx. apply in_map_iff in Hidx.
  destruct Hidx as (resource & <- & Hin). exists resource.
  split; [reflexivity|]. split; [exact Hin|]. split; [exact Hm|].
  apply applyFilters_In in He. tauto.
Qed.

Lemma hydrate_indexed this resources results :
  exists full,
    hydrate (indexResources toLowerCase this resources) results = Returns full.
Proof.
  unfold hydrate. cbn [fullResources indexResources].
  destruct results; eexists; reflexivity.
Qed.

Variable trim : string -> string.

Lemma search_cases this resources query options :
  query <> "" ->
  exists full,
    hydrate (indexResources toLowerCase this resources)
      (applyFilters
         (Array.sort
            (fun a b =>
               Number.sub
                 (Number.of_Z (calculateRelevance toLowerCase b
                                 (trim (toLowerCase query))))
                 (Number.of_Z (calculateRelevance toLowerCase a
                                 (trim (toLowerCase query)))))
            (List.filter
               (fun item => matches toLowerCase item (trim (toLowerCase query)))
               (searchIndex (indexResources toLowerCase this resources))))
         (filters options)) = Returns full
    /\ search toLowerCase trim (indexResources toLowerCase this resources)
              query options
       = Returns match limit options with
                 | Some n =>
                     if (0 <? n)%nat && (n <? length full)%nat
                     then take n full else full
                 | None => full
                 end.
Proof.
  intros Hq.
  destruct (hydrate_indexed this resources
              (applyFilters
                 (Array.sort
                    (fun a b =>
                       Number.sub
                         (Number.of_Z (calculateRelevance toLowerCase b
                                         (trim (toLowerCase query))))
                         (Number.of_Z (calculateRelevance toLowerCase a
                                         (trim (toLowerCase query)))))
                    (List.filter
                       (fun item => matches toLowerCase item
                                      (trim (toLowerCase query)))
                       (searchIndex (indexResources toLowerCase this resources))))
                 (filters options))) as [full Hfull].
  exists full. split; [exact Hfull|].
  unfold search. apply String.eqb_neq in Hq. rewrite Hq.
  replace (negb (isIndexed (indexResources toLowerCase this resources)))
    with false by reflexivity.
  cbn [orb]. cbv zeta. rewrite Hfull.
  destruct (limit options) as [n|]; [|reflexivity].
  destruct ((0 <? n)%nat && (n <? length full)%nat); reflexivity.
Qed.

Lemma search_spec this resources query options :
  query <> "" ->
  exists out,
    search toLowerCase trim (indexResources toLowerCase this resources)
           query options = Returns out
    /\ (forall r, In r out -> In r resources)
    /\ (forall n, limit options = Some n -> (0 < n)%nat -> (length out <= n)%nat)
    /\ (forall r, In r out ->
          exists resource,
            In resource resources
            /\ Resource.id resource = Resource.id r
            /\ found toLowerCase (trim (toLowerCase query)) resource
            /\ accepted (filters options) resource)
    /\ (List.NoDup (List.map Resource.id resources) ->
        limit options = None ->
        forall r, In r resources ->
          found toLowerCase (trim (toLowerCase query)) r ->
          accepted (filters options) r ->
          In r out).
Proof.
  intros Hq.
  destruct (search_cases this resources query options Hq)
    as (full & Hfull & Hsearch).
  rewrite Hsearch. eexists. split; [reflexivity|].
  set (comparefn := fun a b : IndexEntry =>
         Number.sub
           (Number.of_Z (calculateRelevance toLowerCase b
                           (trim (toLowerCase query))))
           (Number.of_Z (calculateRelevance toLowerCase a
                           (trim (toLowerCase query))))) in *.
  set (kept := applyFilters
                 (Array.sort comparefn
                    (List.filter
                       (fun item => matches toLowerCase item
                                      (trim (toLowerCase query)))
                       (searchIndex (indexResources toLowerCase this resources))))
                 (filters options)) in *.
  assert (Hin : forall r,
            In r full
            <-> exists e, In e kept
                  /\ List.find (fun r' => String.eqb (Resource.id r') (id e))
                               resources
                     = Some r).
  { intros r.
    pose proof (hydrate_In (indexResources toLowerCase this resources)
                  resources kept r eq_refl) as H.
    rewrite Hfull in H. exact H. }
  assert (Hcut : forall r,
            In r match limit options with
                 | Some n =>
                     if (0 <? n)%nat && (n <? length full)%nat
                     then take n full else full
                 | None => full
                 end -> In r full).
  { intros r. destruct (limit options) as [n|]; [|tauto].
    destruct ((0 <? n)%nat && (n <? length full)%nat); [|tauto].
    apply take_In. }
  split; [|split; [|split]].
  - intros r Hr. apply Hcut, Hin in Hr. destruct Hr as (e & _ & Hfind).
    apply find_some in Hfind. tauto.
  - intros n -> Hn.
    destruct (0 <? n)%nat eqn:H0; [|apply Nat.ltb_ge in H0; lia].
    destruct (n <? length full)%nat eqn:Hlen; cbn [andb].
    + rewrite length_take. lia.
    + apply Nat.ltb_ge in Hlen. exact Hlen.
  - intros r Hr. apply Hcut, Hin in Hr. destruct Hr as (e & He & Hfind).
    destruct (kept_In this resources _ _ comparefn e He)
      as (resource & -> & Hres & Hfound & Hacc).
    exists resource. apply find_some in Hfind. destruct Hfind as [_ Hid].
    apply String.eqb_eq in Hid.
    split; [exact Hres|]. split; [symmetry; exact Hid|]. split; assumption.
  - intros Hnd -> r Hr Hfound Hacc. apply Hin.
    exists (index_entry toLowerCase r). split.
    + apply applyFilters_In. split; [|exact Hacc].
      apply (Permutation_in _ (Permutation_sym (sort_Permutation comparefn _))).
      apply filter_In. split; [|exact Hfound].
      rewrite searchIndex_indexed. apply in_map, Hr.
    + apply (find_by_id resources r Hnd Hr).
Qed.

(** Identifiers that are pairwise different name their resources. *)
Lemma same_id resources (r r' : Resource.t) :
  List.NoDup (List.map Resource.id resources) ->
  In r resources -> In r' resources -> Resource.id r = Resource.id r' ->
  r = r'.
Proof.
  intros Hnd Hr Hr' Hid.
  pose proof (find_by_id resources r Hnd Hr) as H1.
  pose proof (find_by_id resources r' Hnd Hr') as H2.
  rewrite Hid in H1. congruence.
Qed.

End SearchResultFacts.

(** X21. On an indexed dataset [search] never throws, and what it returns
    for a query are resources of the dataset, at most [limit] of them
    when a limit is given. When the identifiers of the dataset are
    pairwise different, every result matches the search term and passes
    the filters, and without a limit every resource that does both is
    among the results. *)
Theorem search_returns_the_matching_resources :
  forall (toLowerCase trim : string -> string)
         (this : SearchEngine.t) (resources : list Resource.t)
         (query : string) (options : SearchEngine.Options),
    query <> "" ->
    let engine := SearchEngine.indexResources toLowerCase this resources in
    let searchTerm := trim (toLowerCase query) in
    exists out,
      SearchEngine.search toLowerCase trim engine query options = Returns out
      /\ (forall r, In r out -> In r resources)
      /\ (forall n, SearchEngine.limit options = Some n -> (0 < n)%nat ->
            (length out <= n)%nat)
      /\ (List.NoDup (List.map Resource.id resources) ->
          (forall r, In r out ->
             found toLowerCase searchTerm r
             /\ accepted (SearchEngine.filters options) r)
          /\ (SearchEngine.limit options = None ->
              forall r, In r resources ->
                found toLowerCase searchTerm r ->
                accepted (SearchEngine.filters options) r ->
                In r out)).
Proof.
  intros toLowerCase trim this resources query options Hq engine searchTerm.
  destruct (search_spec toLowerCase trim this resources query options Hq)
    as (out & Hout & Hsub & Hlimit & Hsound & Hcomplete).
  exists out. split; [exact Hout|]. split; [exact Hsub|].
  split; [exact Hlimit|]. intros Hnd. split.
  - intros r Hr. destruct (Hsound r Hr) as (resource & Hres & Hid & Hf & Ha).
    rewrite <- (same_id resources resource r Hnd Hres (Hsub r Hr) Hid).
    split; assumption.
  - apply Hcomplete, Hnd.
Qed.

Lemma search_returns_the_matching_resources_witness :
  let toLowerCase := fun s : string => s in
  let trim := fun s : string => s in
  let textbook :=
    Resource.mk "math-10" "mathematics grade 10" "official textbook" "textbook"
      "mathematics" "10" "2023" (Some "15.2 MB") (Some (Number.of_Z 120))
      (Some "2023-01-01") (Some ["algebra"]) in
  let paper :=
    Resource.mk "physics-2015" "physics euee 2015" "past paper" "past-paper"
      "physics" "12" "2015" (Some "2.5 MB") None (Some "2015-01-01") None in
  exists out,
    SearchEngine.search toLowerCase trim
      (SearchEngine.indexResources toLowerCase SearchEngine.new [textbook; paper])
      "physics" SearchEngine.default_options = Returns out
    /\ In paper out.
Proof.
  intros toLowerCase trim textbook paper.
  destruct (search_returns_the_matching_resources toLowerCase trim
              SearchEngine.new [textbook; paper] "physics"
              SearchEngine.default_options)
    as (out & Hout & _ & _ & Hids); [discriminate|].
  exists out. split; [exact Hout|].
  destruct Hids as [_ Hall].
  - repeat constructor; simpl; intuition discriminate.
  - apply Hall; [reflexivity | right; left; reflexivity | reflexivity | exact I].
Defined.

(** X22. A search term with an empty word matches everything: for a
    query of white space only, or one with two spaces in a row, [search]
    returns every resource of the dataset that passes the filters (the
    identifiers being pairwise different, and no limit given). *)
Theorem query_with_an_empty_word_finds_everything :
  forall (toLowerCase trim : string -> string)
         (this : SearchEngine.t) (resources : list Resource.t)
         (query : string) (options : SearchEngine.Options),
    query <> "" ->
    In "" (JsString.split_on " " (trim (toLowerCase query))) ->
    List.NoDup (List.map Resource.id resources) ->
    SearchEngine.limit options = None ->
    exists out,
      SearchEngine.search toLowerCase trim
        (SearchEngine.indexResources toLowerCase this resources) query options
      = Returns out
      /\ forall r, In r out
                   <-> In r resources
                       /\ accepted (SearchEngine.filters options) r.
Proof.
  intros toLowerCase trim this resources query options Hq Hword Hnd Hlimit.
  destruct (search_spec toLowerCase trim this resources query options Hq)
    as (out & Hout & Hsub & _ & Hsound & Hcomplete).
  exists out. split; [exact Hout|]. intros r. split.
  - intros Hr. split; [apply Hsub, Hr|].
    destruct (Hsound r Hr) as (resource & Hres & Hid & _ & Ha).
    rewrite <- (same_id resources resource r Hnd Hres (Hsub r Hr) Hid).
    exact Ha.
  - intros [Hr Ha]. apply (Hcomplete Hnd Hlimit r Hr); [|exact Ha].
    unfold found, SearchEngine.matches.
    assert (Hany : existsb
                     (fun word =>
                        JsString.includes
                          (SearchEngine.searchText (index_entry toLowerCase r))
                          word)
                     (JsString.split_on " " (trim (toLowerCase query))) = true).
    { apply existsb_exists. exists "". split; [exact Hword|].
      destruct (SearchEngine.searchText (index_entry toLowerCase r));
        reflexivity. }
    rewrite Hany. apply orb_true_r.
Qed.

Lemma query_with_an_empty_word_finds_everything_witness :
  let toLowerCase := fun s : string => s in
  let trim := fun s : string => if String.eqb s " " then "" else s in
  let textbook :=
    Resource.mk "math-10" "mathematics grade 10" "official textbook" "textbook"
      "mathematics" "10" "2023" (Some "15.2 MB") (Some (Number.of_Z 120))
      (Some "2023-01-01") (Some ["algebra"]) in
  let paper :=
    Resource.mk "physics-2015" "physics euee 2015" "past paper" "past-paper"
      "physics" "12" "2015" (Some "2.5 MB") None (Some "2015-01-01") None in
  exists out,
    SearchEngine.search toLowerCase trim
      (SearchEngine.indexResources toLowerCase SearchEngine.new [textbook; paper])
      " " SearchEngine.default_options = Returns out
    /\ In textbook out /\ In paper out.
Proof.
  intros toLowerCase trim textbook paper.
  destruct (query_with_an_empty_word_finds_everything toLowerCase trim
              SearchEngine.new [textbook; paper] " "
              SearchEngine.default_options)
    as (out & Hout & Hall).
  - discriminate.
  - left. reflexivity.
  - repeat constructor; simpl; intuition discriminate.
  - reflexivity.
  - exists out. split; [exact Hout|].
    split; apply Hall; (split; [simpl; tauto | exact I]).
Defined.

(** X23. [search] takes ["all"] for a value like any other. With the
    axes of a selection as its filters, which is what the controller
    hands it, a selection with an axis at ["all"] finds nothing in a
    dataset that has no resource with the value ["all"] on that axis,
    whatever the query. *)
Theorem search_takes_all_for_a_value :
  forall (toLowerCase trim : string -> string)
         (this : SearchEngine.t) (resources : list Resource.t)
         (query : string) (selection : Selection.t)
         (options : SearchEngine.Options),
    query <> "" ->
    SearchEngine.filters options = Some (search_filters selection) ->
    (Selection.category selection = "all"
     /\ (forall r, In r resources -> Resource.category r <> "all"))
    \/ (Selection.grade selection = "all"
        /\ (forall r, In r resources -> Resource.grade r <> "all"))
    \/ (Selection.year selection = "all"
        /\ (forall r, In r resources -> Resource.year r <> "all"))
    \/ (Selection.subject selection = "all"
        /\ (forall r, In r resources -> Resource.subject r <> "all")) ->
    SearchEngine.search toLowerCase trim
      (SearchEngine.indexResources toLowerCase this resources) query options
    = Returns [].
Proof.
  intros toLowerCase trim this resources query selection options Hq Hf Hall.
  destruct (search_spec toLowerCase trim this resources query options Hq)
    as (out & Hout & _ & _ & Hsound & _).
  rewrite Hout. f_equal. destruct out as [|r out]; [reflexivity|].
  exfalso. destruct (Hsound r (or_introl eq_refl))
    as (resource & Hres & _ & _ & Ha).
  rewrite Hf in Ha. unfold accepted, search_filters, passes in Ha.
  cbn [SearchEngine.f_category SearchEngine.f_grade SearchEngine.f_year
       SearchEngine.f_subject] in Ha.
  destruct Ha as (Hc & Hg & Hy & Hs).
  destruct Hall as [[E H]|[[E H]|[[E H]|[E H]]]]; rewrite E in *;
    specialize (H resource Hres).
  - destruct Hc as [Hc|Hc]; [discriminate | contradiction].
  - destruct Hg as [Hg|Hg]; [discriminate | contradiction].
  - destruct Hy as [Hy|Hy]; [discriminate | contradiction].
  - destruct Hs as [Hs|Hs]; [discriminate | contradiction].
Qed.

Lemma search_takes_all_for_a_value_witness :
  let toLowerCase := fun s : string => s in
  let trim := fun s : string => s in
  let paper :=
    Resource.mk "physics-2015" "physics euee 2015" "past paper" "past-paper"
      "physics" "12" "2015" (Some "2.5 MB") None (Some "2015-01-01") None in
  let selection := Selection.mk "all" "12" "all" "all" "popular" [] in
  SearchEngine.search toLowerCase trim
    (SearchEngine.indexResources toLowerCase SearchEngine.new [paper])
    "physics"
    {| SearchEngine.returnAll := false;
       SearchEngine.filters := Some (search_filters selection);
       SearchEngine.limit := Some 100%nat |}
  = Returns [].
Proof.
  intros toLowerCase trim paper selection.
  apply (search_takes_all_for_a_value toLowerCase trim SearchEngine.new [paper]
           "physics" selection).
  - discriminate.
  - reflexivity.
  - left. split; [reflexivity|].
    intros r [<-|[]]. discriminate.
Defined.

(** ** Search engine: suggestions *)

Section SuggestionFacts.

Import SearchEngine.

Lemma set_add_In members x s :
  In s (set_add members x) <-> In s members \/ s = x.
Proof.
  unfold set_add, Array.includes.
  destruct (existsb (String.eqb x) members) eqn:E.
  - split; [tauto|]. intros [H | ->]; [exact H|].
    apply existsb_exists in E. destruct E as (y & Hy & Heq).
    apply String.eqb_eq in Heq. subst y. exact Hy.
  - rewrite in_app_iff. cbn [In]. split; [|intros [H| ->]; auto].
    intros [H|[H|[]]]; auto.
Qed.

Lemma set_add_NoDup members x :
  List.NoDup members -> List.NoDup (set_add members x).
Proof.
  intros Hnd. unfold set_add, Array.includes.
  destruct (existsb (String.eqb x) members) eqn:E; [exact Hnd|].
  apply List.NoDup_app; [exact Hnd | repeat constructor; intros [] |].
  intros y Hy [<- | []].
  assert (Hex : existsb (String.eqb x) members = true).
  { apply existsb_exists. exists x. split; [exact Hy | apply String.eqb_refl]. }
  congruence.
Qed.

(** A pass over a list that only ever adds to the set. *)
Lemma fold_adds {X} (step : list string -> X -> list string)
    (adds : X -> string -> Prop) (l : list X) (init : list string) :
  (forall set x, List.NoDup set -> List.NoDup (step set x)) ->
  (forall set x s, In s (step set x) <-> In s set \/ adds x s) ->
  (List.NoDup init -> List.NoDup (fold_left step l init))
  /\ (forall s, In s (fold_left step l init)
                <-> In s init \/ exists x, In x l /\ adds x s).
Proof.
  intros Hnd Hin. revert init. induction l as [|x l IH]; intros init.
  - cbn [fold_left]. split; [tauto|]. intros s. split; [tauto|].
    intros [H|(x & [] & _)]. exact H.
  - cbn [fold_left]. destruct (IH (step init x)) as [IHnd IHin].
    split; [intros H; apply IHnd, Hnd, H|].
    intros s. rewrite IHin, Hin. split.
    + intros [[H|H]|(y & Hy & H)]; [tauto | right; exists x; simpl; tauto|].
      right. exists y. simpl. tauto.
    + intros [H|(y & [<- | Hy] & H)]; [tauto | tauto|].
      right. exists y. tauto.
Qed.

Lemma add_if_In (p : bool) members x s :
  In s (if p then set_add members x else members)
  <-> In s members \/ (p = true /\ s = x).
Proof.
  destruct p; [rewrite set_add_In; intuition congruence|].
  intuition congruence.
Qed.

Lemma add_if_NoDup (p : bool) members x :
  List.NoDup members -> List.NoDup (if p then set_add members x else members).
Proof. destruct p; [apply set_add_NoDup | tauto]. Qed.

End SuggestionFacts.

(** X24. The suggestions for a query are pairwise different and at most
    [limit]; each is a title, a subject or a tag of an indexed resource
    whose lower-case form contains the lower-case query. When fewer than
    [limit] come back, none that qualifies is missing. A query that is
    empty or a single code unit gets none. *)
Theorem getSuggestions_are_distinct_matches :
  forall (toLowerCase : string -> string) (this : SearchEngine.t)
         (query : string) (limit : nat),
    let out := SearchEngine.getSuggestions toLowerCase this query limit in
    let qualifies := fun s : string =>
      JsString.includes (toLowerCase s) (toLowerCase query) = true
      /\ exists item, In item (SearchEngine.searchIndex this)
                      /\ (s = SearchEngine.title item
                          \/ s = SearchEngine.subject item
                          \/ In s (SearchEngine.tags item)) in
    List.NoDup out
    /\ (length out <= limit)%nat
    /\ (forall s, In s out -> qualifies s)
    /\ ((length out < limit)%nat -> query <> "" ->
        (2 <= JsString.utf16_length query)%nat ->
        forall s, qualifies s -> In s out)
    /\ (query = "" \/ (JsString.utf16_length query < 2)%nat -> out = []).
Proof.
  intros toLowerCase this query limit out qualifies. subst out.
  unfold SearchEngine.getSuggestions.
  destruct (String.eqb query "") eqn:Eq.
  { cbn [orb]. apply String.eqb_eq in Eq.
    split; [constructor|]. split; [simpl; lia|]. split; [intros s []|].
    split; [intros _ Hq; contradiction | reflexivity]. }
  destruct (JsString.utf16_length query <? 2)%nat eqn:El.
  { cbn [orb]. apply Nat.ltb_lt in El.
    split; [constructor|]. split; [simpl; lia|]. split; [intros s []|].
    split; [intros _ _ Hl; lia | reflexivity]. }
  cbn [orb]. cbv zeta.
  set (term := toLowerCase query).
  set (by_title := fun (suggestions : list string) (item : SearchEngine.IndexEntry) =>
         if JsString.includes (toLowerCase (SearchEngine.title item)) term
         then SearchEngine.set_add suggestions (SearchEngine.title item)
         else suggestions).
  set (by_subject := fun (suggestions : list string) (item : SearchEngine.IndexEntry) =>
         if JsString.includes (toLowerCase (SearchEngine.subject item)) term
         then SearchEngine.set_add suggestions (SearchEngine.subject item)
         else suggestions).
  set (by_tag := fun (suggestions : list string) (tag : string) =>
         if JsString.includes (toLowerCase tag) term
         then SearchEngine.set_add suggestions tag else suggestions).
  set (by_tags := fun (suggestions : list string) (item : SearchEngine.IndexEntry) =>
         fold_left by_tag (SearchEngine.tags item) suggestions).
  assert (Htag : forall l init,
            (List.NoDup init -> List.NoDup (fold_left by_tag l init))
            /\ (forall s, In s (fold_left by_tag l init)
                  <-> In s init
                      \/ exists tag, In tag l
                           /\ (JsString.includes (toLowerCase tag) term = true
                               /\ s = tag))).
  { intros l init. apply fold_adds.
    - intros set x. apply add_if_NoDup.
    - intros set x s. apply add_if_In. }
  destruct (fold_adds by_title
              (fun item s =>
                 JsString.includes (toLowerCase (SearchEngine.title item)) term
                 = true /\ s = SearchEngine.title item)
              (SearchEngine.searchIndex this) [])
    as [Hnd1 Hin1];
    [intros set x; apply add_if_NoDup | intros set x s; apply add_if_In |].
  destruct (fold_adds by_subject
              (fun item s =>
                 JsString.includes (toLowerCase (SearchEngine.subject item)) term
                 = true /\ s = SearchEngine.subject item)
              (SearchEngine.searchIndex this)
              (fold_left by_title (SearchEngine.searchIndex this) []))
    as [Hnd2 Hin2];
    [intros set x; apply add_if_NoDup | intros set x s; apply add_if_In |].
  destruct (fold_adds by_tags
              (fun item s =>
                 exists tag, In tag (SearchEngine.tags item)
                   /\ (JsString.includes (toLowerCase tag) term = true
                       /\ s = tag))
              (SearchEngine.searchIndex this)
              (fold_left by_subject (SearchEngine.searchIndex this)
                 (fold_left by_title (SearchEngine.searchIndex this) [])))
    as [Hnd3 Hin3];
    [intros set x; apply Htag | intros set x s; apply Htag |].
  set (all := fold_left by_tags (SearchEngine.searchIndex this)
                (fold_left by_subject (SearchEngine.searchIndex this)
                   (fold_left by_title (SearchEngine.searchIndex this) []))) in *.
  assert (Hall : forall s, In s all <-> qualifies s).
  { intros s. rewrite Hin3, Hin2, Hin1. subst qualifies. cbv beta. split.
    - intros [[[[]|(item & Hitem & Hinc & ->)]|(item & Hitem & Hinc & ->)]
             |(item & Hitem & tag & Htags & Hinc & ->)];
        (split; [exact Hinc|]); exists item; auto.
    - intros (Hinc & item & Hitem & [->|[->|Htags]]).
      + left. left. right. exists item. auto.
      + left. right. exists item. auto.
      + right. exists item. split; [exact Hitem|]. exists s. auto. }
  split; [apply take_NoDup, Hnd3, Hnd2, Hnd1; constructor|].
  split; [rewrite length_take; lia|].
  split; [intros s Hs; apply Hall, (take_In _ _ _ Hs)|].
  split; [|intros [Hq|Hl];
           [apply String.eqb_neq in Eq; contradiction
           | apply Nat.ltb_ge in El; lia]].
  intros Hshort _ _ s Hs. rewrite length_take in Hshort.
  rewrite take_ge by lia. apply Hall, Hs.
Qed.

(** ** The controller's favourites *)

Section PortalFavoritesFacts.

Import LocalStorage.

(** What the wrapper reads depends on its own entry only. *)
Lemma get_same_entry (storage storage' : LocalStorage.t) now key defaultValue :
  storage' !! (StorageManager.prefix +:+ key)
  = storage !! (StorageManager.prefix +:+ key) ->
  fst (StorageManager.get storage' now key defaultValue)
  = fst (StorageManager.get storage now key defaultValue).
Proof.
  intros H. unfold StorageManager.get, getItem. rewrite H.
  destruct (storage !! (StorageManager.prefix +:+ key)) as [[s| |s|d|l]|];
    try reflexivity.
  destruct (StorageManager.expired now d); reflexivity.
Qed.

End PortalFavoritesFacts.

(** X25. [toggleFavorite] of the controller never changes what the
    storage wrapper calls the favourites: it writes its array under the
    key [favorites], while [getFavorites] and [isFavorite] of the wrapper
    read [examportal_favorites]. A controller that is set up afterwards
    therefore starts from the favourites of before the toggle. *)
Theorem toggleFavorite_is_unseen_by_the_wrapper :
  forall (quota : LocalStorage.t -> string -> LocalStorage.text -> bool)
         (favorites : option Json.t) (storage : LocalStorage.t)
         (resourceId : string) (now : Z),
    let '(result, favorites', storage', notifications) :=
      ExamPortal.toggleFavorite quota favorites storage resourceId in
    fst (StorageManager.getFavorites storage' now)
    = fst (StorageManager.getFavorites storage now)
    /\ (forall itemId,
          fst (StorageManager.isFavorite storage' now itemId)
          = fst (StorageManager.isFavorite storage now itemId))
    /\ (result = Returns tt ->
        exists l', favorites' = Some (Json.Arr l')
                   /\ LocalStorage.getItem storage' "favorites"
                      = Some (LocalStorage.Items l')).
Proof.
  intros quota favorites storage resourceId now.
  destruct (ExamPortal.toggleFavorite quota favorites storage resourceId)
    as [[[result favorites'] storage'] notifications] eqn:Hrun.
  assert (Hkey : storage' !! (StorageManager.prefix +:+ "favorites")
                 = storage !! (StorageManager.prefix +:+ "favorites")
                 /\ (result = Returns tt ->
                     exists l', favorites' = Some (Json.Arr l')
                                /\ storage' !! "favorites"
                                   = Some (LocalStorage.Items l'))).
  { unfold ExamPortal.toggleFavorite in Hrun.
    destruct favorites as [[|b|n|s|l|o]|];
      try (inversion Hrun; subst; split; [reflexivity | discriminate]).
    destruct (match StorageManager.indexOf l resourceId with
              | Some index =>
                  (Array.splice1 l index, ("Removed from favorites", "info"))
              | None =>
                  (l ++ [Json.Str resourceId], ("Added to favorites", "success"))
              end) as [l' notification].
    unfold LocalStorage.setItem in Hrun.
    destruct (quota storage "favorites" (LocalStorage.Items l'));
      inversion Hrun; subst; [|split; [reflexivity | discriminate]].
    split; [apply lookup_insert_ne; discriminate|].
    intros _. exists l'. split; [reflexivity | apply lookup_insert_eq]. }
  destruct Hkey as [Hkey Hown].
  pose proof (get_same_entry storage storage' now "favorites" (Json.Arr []) Hkey)
    as Hget.
  split; [exact Hget|]. split; [|exact Hown].
  intros itemId. unfold StorageManager.isFavorite.
  unfold StorageManager.getFavorites in *.
  destruct (StorageManager.get storage' now "favorites" (Json.Arr []))
    as [v' s'].
  destruct (StorageManager.get storage now "favorites" (Json.Arr []))
    as [v s0].
  cbn [fst] in Hget. subst v'.
  destruct v as [[|b|n|s|l|o]|]; reflexivity.
Qed.

(** ** The two filters, side by side *)

Section TwoFiltersFacts.

Lemma accepted_selects (s : Selection.t) (r : Resource.t) :
  Forall (fun v => v <> "" /\ v <> "all")
         [ Selection.category s; Selection.grade s; Selection.year s;
           Selection.subject s ] ->
  Selection.tags s = [] ->
  accepted (Some (search_filters s)) r <-> Selection.selects s r.
Proof.
  intros Haxes Htags.
  inversion Haxes as [|? ? [Hc1 Hc2] Haxes1]; subst.
  inversion Haxes1 as [|? ? [Hg1 Hg2] Haxes2]; subst.
  inversion Haxes2 as [|? ? [Hy1 Hy2] Haxes3]; subst.
  inversion Haxes3 as [|? ? [Hs1 Hs2] _]; subst.
  unfold accepted, search_filters, passes, Selection.selects, Selection.axis.
  cbn [SearchEngine.f_category SearchEngine.f_grade SearchEngine.f_year
       SearchEngine.f_subject].
  rewrite Htags. split.
  - intros ([?|?] & [?|?] & [?|?] & [?|?]); try contradiction.
    repeat split; auto. intros tag [].
  - intros ([?|?] & [?|?] & [?|?] & [?|?] & _); try contradiction.
    repeat split; auto.
Qed.

End TwoFiltersFacts.

(** X28. Where no axis of the selection is ["all"] or empty and no tag is
    required, the two filters agree: a search with the axes of the
    selection as its filters returns exactly the resources that
    [applyFilters] returns for the selection and that match the search
    term (the identifiers being pairwise different, and no limit
    given). *)
Theorem search_agrees_with_applyFilters :
  forall (localeCompare : string -> string -> Number.t)
         (Date_parse : string -> Number.t)
         (toLowerCase trim : string -> string)
         (engine : SearchEngine.t) (callbacks : list nat)
         (resources : list Resource.t) (query : string)
         (selection : Selection.t) (options : SearchEngine.Options),
    query <> "" ->
    List.NoDup (List.map Resource.id resources) ->
    SearchEngine.limit options = None ->
    SearchEngine.filters options = Some (search_filters selection) ->
    Forall (fun v => v <> "" /\ v <> "all")
           [ Selection.category selection; Selection.grade selection;
             Selection.year selection; Selection.subject selection ] ->
    Selection.tags selection = [] ->
    exists results filtered,
      SearchEngine.search toLowerCase trim
        (SearchEngine.indexResources toLowerCase engine resources) query options
      = Returns results
      /\ FilterManager.applyFilters localeCompare Date_parse
           {| FilterManager.activeFilters := Selection.to_filters selection;
              FilterManager.filterCallbacks := callbacks |}
           resources None
         = Some filtered
      /\ forall r, In r results
                   <-> In r filtered
                       /\ found toLowerCase (trim (toLowerCase query)) r.
Proof.
  intros localeCompare Date_parse toLowerCase trim engine callbacks resources
         query selection options Hq Hnd Hlimit Hfilters Haxes Htags.
  destruct (search_spec toLowerCase trim engine resources query options Hq)
    as (results & Hres & Hsub & _ & Hsound & Hcomplete).
  exists results. eexists. split; [exact Hres|]. split.
  - change (FilterManager.applyFilters localeCompare Date_parse
              {| FilterManager.activeFilters := Selection.to_filters selection;
                 FilterManager.filterCallbacks := callbacks |} resources None)
      with (FilterManager.applyFilters localeCompare Date_parse
              {| FilterManager.activeFilters := Selection.to_filters selection;
                 FilterManager.filterCallbacks := callbacks |} resources
              (Some (Selection.to_filters selection))).
    apply applyFilters_selection.
  - assert (Hin : forall r,
              In r (FilterManager.applySorting localeCompare Date_parse
                      (List.filter (Selection.selectsb selection) resources)
                      (Value.Str (Selection.sortBy selection)))
              <-> In r resources /\ Selection.selects selection r).
    { intros r. rewrite <- selectsb_selects, <- filter_In. split.
      - apply Permutation_in, applySorting_Permutation.
      - apply Permutation_in. symmetry. apply applySorting_Permutation. }
    intros r. rewrite Hin. rewrite Hfilters in Hsound, Hcomplete. split.
    + intros Hr. destruct (Hsound r Hr) as (resource & Hin' & Hid & Hf & Ha).
      rewrite (same_id resources resource r Hnd Hin' (Hsub r Hr) Hid) in Hf, Ha.
      split; [|exact Hf]. split; [apply Hsub, Hr|].
      apply (accepted_selects selection r Haxes Htags), Ha.
    + intros [[Hr Hs] Hf]. apply (Hcomplete Hnd Hlimit r Hr Hf).
      apply (accepted_selects selection r Haxes Htags), Hs.
Qed.

Lemma search_agrees_with_applyFilters_witness :
  let toLowerCase := fun s : string => s in
  let trim := fun s : string => s in
  let textbook :=
    Resource.mk "math-10" "mathematics grade 10" "official textbook" "textbook"
      "mathematics" "10" "2023" (Some "15.2 MB") (Some (Number.of_Z 120))
      (Some "2023-01-01") (Some ["algebra"]) in
  let paper :=
    Resource.mk "physics-2015" "physics euee 2015" "past paper" "past-paper"
      "physics" "12" "2015" (Some "2.5 MB") None (Some "2015-01-01") None in
  let selection := Selection.mk "past-paper" "12" "2015" "physics" "popular" [] in
  exists results,
    SearchEngine.search toLowerCase trim
      (SearchEngine.indexResources toLowerCase SearchEngine.new [textbook; paper])
      "euee"
      {| SearchEngine.returnAll := false;
         SearchEngine.filters := Some (search_filters selection);
         SearchEngine.limit := None |}
    = Returns results
    /\ In paper results.
Proof.
  intros toLowerCase trim textbook paper selection.
  destruct (search_agrees_with_applyFilters code_unit_compare
              (fun _ => Number.NaN) toLowerCase trim SearchEngine.new []
              [textbook; paper] "euee" selection
              {| SearchEngine.returnAll := false;
                 SearchEngine.filters := Some (search_filters selection);
                 SearchEngine.limit := None |})
    as (results & filtered & Hres & Hfil & Hiff).
  - discriminate.
  - repeat constructor; simpl; intuition discriminate.
  - reflexivity.
  - reflexivity.
  - repeat constructor; discriminate.
  - reflexivity.
  - exists results. split; [exact Hres|]. apply Hiff.
    assert (Hval : FilterManager.applyFilters code_unit_compare
                     (fun _ => Number.NaN)
                     {| FilterManager.activeFilters := Selection.to_filters selection;
                        FilterManager.filterCallbacks := [] |}
                     [textbook; paper] None = Some [paper])
      by (vm_compute; reflexivity).
    rewrite Hval in Hfil. inversion Hfil; subst filtered.
    split; [left; reflexivity | reflexivity].
Defined.
